(** * Restoration testing: extraction engine, comparison engine, progress tracker

    A shallow embedding of the three modules under
    [src/restoration-testing/] and the properties their specification
    states about them.

    Conventions.
    - Python [int] is [Z]; Python [float] (timestamps, rates, percentages)
      is modelled by exact rationals [Q]; [str] is [string].
    - A [pathlib.Path] is the list of its [parts]; an absolute path starts
      with the part ["/"].
    - Code that raises is written in a state-and-exception monad: state
      changes made before a [raise] stay visible to the handler, as with the
      mutable objects of the source.
    - Everything the code asks of the operating system or of the archive
      libraries (does the path exist, what does [resolve()] return, which
      members does the archive list, does extracting member [i] fail) is a
      field of an environment record, so every statement is quantified over
      all file systems and archives.
    - Logging calls and wall-clock bookkeeping ([start_time], [end_time],
      [processing_time]) have no influence on the results studied here and
      are left out. *)

From Stdlib Require Import ZArith QArith Qabs Ascii String DecimalString.
From stdpp Require Import base option list strings gmap sets.

Local Open Scope Z_scope.
Set Warnings "-clear-no-such-hyp,-register-all".

(** ** Python string primitives used by the engines *)

Module PyStr.

(** [s.startswith(p)] *)
Fixpoint startswith (p s : string) : bool :=
  match p, s with
  | EmptyString, _ => true
  | String a p', String b s' => Ascii.eqb a b && startswith p' s'
  | String _ _, EmptyString => false
  end.

(** [p in s] for strings *)
Fixpoint contains (p s : string) : bool :=
  startswith p s ||
  match s with
  | EmptyString => false
  | String _ s' => contains p s'
  end.

(** [s.endswith(p)] *)
Definition endswith (p s : string) : bool :=
  startswith (String.rev p) (String.rev s).

(** [s.split(sep)] for a one-character separator *)
Fixpoint split (sep : ascii) (s : string) : list string :=
  match s with
  | EmptyString => [EmptyString]
  | String c s' =>
      if Ascii.eqb c sep then EmptyString :: split sep s'
      else match split sep s' with
           | [] => [String c EmptyString]
           | w :: ws => String c w :: ws
           end
  end.

(** [sep.join(l)] *)
Fixpoint join (sep : string) (l : list string) : string :=
  match l with
  | [] => EmptyString
  | [x] => x
  | x :: l' => x +:+ sep +:+ join sep l'
  end.

(** [s.lower()] on the ASCII range *)
Definition lower_ascii (c : ascii) : ascii :=
  let n := nat_of_ascii c in
  if (65 <=? n)%nat && (n <=? 90)%nat then ascii_of_nat (n + 32) else c.

Fixpoint lower (s : string) : string :=
  match s with
  | EmptyString => EmptyString
  | String c s' => String (lower_ascii c) (lower s')
  end.

(** [os.path.normpath] of [posixpath]: the loop over the components keeps
    [new_comps] in order, appending at and popping from its end. *)
Definition normpath_step (initial_slashes : nat) (new_comps : list string)
    (comp : string) : list string :=
  if bool_decide (comp = "") || bool_decide (comp = ".") then new_comps
  else if negb (bool_decide (comp = ".."))
          || (bool_decide (initial_slashes = 0%nat) && bool_decide (new_comps = []))
          || (negb (bool_decide (new_comps = []))
              && bool_decide (last new_comps = Some ".."))
       then new_comps ++ [comp]
       else removelast new_comps.

Definition normpath (path : string) : string :=
  if bool_decide (path = "") then "."
  else
    let initial_slashes :=
      if startswith "/" path then
        if startswith "//" path && negb (startswith "///" path) then 2%nat
        else 1%nat
      else 0%nat in
    let comps := fold_left (normpath_step initial_slashes) (split "/" path) [] in
    let path := join "/" comps in
    let path :=
      match initial_slashes with
      | O => path
      | 1%nat => "/" +:+ path
      | _ => "//" +:+ path
      end in
    if bool_decide (path = "") then "." else path.

End PyStr.

(** ** Exceptions and paths shared by the engines *)

(** The exception classes the engines raise or receive from the libraries;
    all of them derive from [Exception]. *)
Inductive exn_class :=
  | ExtractionError | ValueError | FileNotFoundError | IOError | LibraryError.

Record exn := Exn { exn_cls : exn_class; exn_msg : string }.

(** [str(e)] *)
Definition str_exn (e : exn) : string := exn_msg e.

(** [str(n)] for an [int] *)
Definition str_int (n : Z) : string := NilEmpty.string_of_int (Z.to_int n).

(** Two optional rationals denote the same number. *)
Definition same_rate (a b : option Q) : Prop :=
  match a, b with
  | Some x, Some y => (x == y)%Q
  | None, None => True
  | _, _ => False
  end.

Abbreviation Path := (list string).

Module PyPath.
Import PyStr.

(** [str(path)] *)
Definition path_str (p : Path) : string :=
  match p with
  | [] => "."
  | r :: rest => if bool_decide (r = "/") then "/" +:+ join "/" rest else join "/" p
  end.

(** [Path(s)]: the parts of a path written as a string *)
Definition path_of_string (s : string) : Path :=
  (if startswith "/" s then ["/"] else [])
  ++ filter (λ c, c ≠ "" ∧ c ≠ ".") (split "/" s).

(** [dir / s] *)
Definition truediv (dir : Path) (s : string) : Path :=
  if startswith "/" s then path_of_string s else dir ++ path_of_string s.

(** [path.name] *)
Definition path_name (p : Path) : string :=
  match last p with
  | Some n => if bool_decide (n = "/") then "" else n
  | None => ""
  end.

Fixpoint rfind_from (c : ascii) (s : string) (i : nat) : option nat :=
  match s with
  | EmptyString => None
  | String a s' =>
      match rfind_from c s' (S i) with
      | Some j => Some j
      | None => if Ascii.eqb a c then Some i else None
      end
  end.

(** [path.suffix] *)
Definition path_suffix (p : Path) : string :=
  let name := path_name p in
  match rfind_from "."%char name 0 with
  | Some i =>
      if (0 <? i)%nat && (i <? String.length name - 1)%nat
      then String.substring i (String.length name - i) name
      else ""
  | None => ""
  end.

(** [self.relative_to(other)]: [other]'s parts must be a prefix of
    [self]'s; otherwise [ValueError]. *)
Fixpoint relative_to (self other : Path) {struct other} : exn + Path :=
  match other, self with
  | [], _ => inr self
  | o :: other', s :: self' =>
      if bool_decide (o = s) then relative_to self' other'
      else inl (Exn ValueError "path is not in the subpath of the other")
  | _ :: _, [] => inl (Exn ValueError "path is not in the subpath of the other")
  end.

End PyPath.

(** ** Extraction engine ([extraction_engine.py]) *)

Module Extraction.
Import PyStr PyPath.

Definition CHUNK_SIZE : Z := 8192.
Definition MAX_EXTRACT_SIZE : Z := 10 * 1024 * 1024 * 1024.

Definition SUPPORTED_FORMATS : list (string * string) :=
  [ (".tar", "tar"); (".tar.gz", "tar.gz"); (".tgz", "tar.gz");
    (".tar.bz2", "tar.bz2"); (".tbz2", "tar.bz2"); (".tar.xz", "tar.xz");
    (".zip", "zip"); (".snapshot", "qdrant") ].

Definition bytes_of (l : list nat) : string :=
  fold_right (λ n s, String (ascii_of_nat n) s) EmptyString l.

Definition MAGIC_BYTES : list (string * string) :=
  [ (bytes_of [31; 139]%nat, "gzip");
    (bytes_of [80; 75; 3; 4]%nat, "zip");
    (bytes_of [80; 75; 5; 6]%nat, "zip");
    (bytes_of [80; 75; 7; 8]%nat, "zip");
    ("BZh", "bzip2");
    (bytes_of [253; 55; 122; 88; 90; 0]%nat, "xz") ].

Record ExtractionMetadata := mkMetadata {
  total_files : Z;
  total_size : Z;
  extracted_files : Z;
  extracted_size : Z;
  errors : list string;
  warnings : list string }.

Definition fresh_metadata : ExtractionMetadata := mkMetadata 0 0 0 0 [] [].

(** [metadata.progress_percent] *)
Definition progress_percent (m : ExtractionMetadata) : Q :=
  if total_files m =? 0 then 0%Q
  else (inject_Z (extracted_files m) / inject_Z (total_files m) * 100)%Q.

Record ExtractionResult := mkResult {
  success : bool;
  extraction_path : Path;
  metadata : ExtractionMetadata;
  format_detected : string;
  file_count : Z;
  result_total_size : Z;
  checksum : option string;
  error_message : option string }.

(** One archive entry as the loops read it: [TarInfo.name], [.size],
    [.isfile()] for tar; [ZipInfo.filename], [.file_size],
    [not .is_dir()] for zip. *)
Record Member := mkMember {
  name : string;
  size : Z;
  is_file : bool }.

(** What the engine does to the outside world. *)
Inductive Event :=
  | LibExtract (index : nat) (member : Member) (dest : Path)
  | Progress (percent : Q) (message : string)
  | CopyFile (src dst : Path).

(** The operating system, the archive libraries and the signal handler. *)
Record Env := mkEnv {
  path_exists : Path → bool;
  path_is_file : Path → bool;
  read_header : Path → exn + string;
  read_chunks : Path → exn + list string;
  sha256_hex : list string → string;
  resolve : Path → Path;
  mkdtemp : exn + Path;
  mkdir : Path → option exn;
  tar_open : Path → string → exn + list Member;
  zip_open : Path → exn + list Member;
  lib_extract : nat → Member → Path → option exn;
  copy2 : Path → Path → option exn;
  stat_size : Path → exn + Z;
  interrupted : nat → bool }.

(** [progress_callback]: user code, which may raise. *)
Abbreviation Callback := (Q → string → option exn).

(** The mutable state of one run: the metadata accumulator, the engine's
    [temp_dirs], the number of times [_interrupted] was polled so far and
    the effects performed. *)
Record World := mkWorld {
  w_metadata : ExtractionMetadata;
  w_temp_dirs : list Path;
  w_polls : nat;
  w_trace : list Event }.

Definition M (A : Type) : Type := World → World * (exn + A).

Definition ret {A} (a : A) : M A := λ w, (w, inr a).
Definition raise {A} (e : exn) : M A := λ w, (w, inl e).
Definition bind {A B} (m : M A) (k : A → M B) : M B :=
  λ w, match m w with
       | (w', inr a) => k a w'
       | (w', inl e) => (w', inl e)
       end.
(** [try: m  except Exception as e: h e] *)
Definition try_except {A} (m : M A) (h : exn → M A) : M A :=
  λ w, match m w with
       | (w', inl e) => h e w'
       | r => r
       end.
Definition lift {A} (r : exn + A) : M A := λ w, (w, r).
Definition lift_unit (r : option exn) : M unit :=
  λ w, (w, match r with Some e => inl e | None => inr tt end).

#[export] Instance M_ret : MRet M := @ret.
#[export] Instance M_bind : MBind M := λ A B k m, bind m k.

Definition modify_metadata (f : ExtractionMetadata → ExtractionMetadata) : M unit :=
  λ w, (mkWorld (f (w_metadata w)) (w_temp_dirs w) (w_polls w) (w_trace w), inr tt).
Definition get_metadata : M ExtractionMetadata := λ w, (w, inr (w_metadata w)).
Definition emit (ev : Event) : M unit :=
  λ w, (mkWorld (w_metadata w) (w_temp_dirs w) (w_polls w) (w_trace w ++ [ev]), inr tt).

Definition add_warning (s : string) : ExtractionMetadata → ExtractionMetadata :=
  λ m, mkMetadata (total_files m) (total_size m) (extracted_files m)
         (extracted_size m) (errors m) (warnings m ++ [s]).
Definition add_error (s : string) : ExtractionMetadata → ExtractionMetadata :=
  λ m, mkMetadata (total_files m) (total_size m) (extracted_files m)
         (extracted_size m) (errors m ++ [s]) (warnings m).
Definition set_totals (files sz : Z) : ExtractionMetadata → ExtractionMetadata :=
  λ m, mkMetadata files sz (extracted_files m) (extracted_size m)
         (errors m) (warnings m).
Definition set_extracted_files (n : Z) : ExtractionMetadata → ExtractionMetadata :=
  λ m, mkMetadata (total_files m) (total_size m) n (extracted_size m)
         (errors m) (warnings m).
Definition set_extracted_size (n : Z) : ExtractionMetadata → ExtractionMetadata :=
  λ m, mkMetadata (total_files m) (total_size m) (extracted_files m) n
         (errors m) (warnings m).

(** [_check_interrupted]: the flag is set asynchronously by the signal
    handler; [interrupted E k] is its value at the [k]-th poll. *)
Definition _check_interrupted (E : Env) : M unit :=
  λ w,
    let w' := mkWorld (w_metadata w) (w_temp_dirs w) (S (w_polls w)) (w_trace w) in
    if interrupted E (w_polls w)
    then (w', inl (Exn ExtractionError "Extraction interrupted by user"))
    else (w', inr tt).

Definition track_temp_dir (d : Path) : M unit :=
  λ w, (mkWorld (w_metadata w) (w_temp_dirs w ++ [d]) (w_polls w) (w_trace w), inr tt).

(** [_create_secure_temp_dir] *)
Definition _create_secure_temp_dir (E : Env) : M Path :=
  temp_dir ← lift (mkdtemp E);
  track_temp_dir temp_dir ;;
  mret temp_dir.

(** [_detect_format] *)
Definition format_of_magic (format_type : string) : string :=
  if bool_decide (format_type = "gzip") then "tar.gz"
  else if bool_decide (format_type = "bzip2") then "tar.bz2"
  else if bool_decide (format_type = "xz") then "tar.xz"
  else format_type.

Definition _detect_format (E : Env) (backup_path : Path) : M string :=
  match List.find (λ '(ext, _), endswith (lower ext) (lower (path_name backup_path)))
                  SUPPORTED_FORMATS with
  | Some (_, format_type) => mret format_type
  | None =>
      let by_magic :=
        match read_header E backup_path with
        | inr header =>
            match List.find (λ '(magic, _), startswith magic header) MAGIC_BYTES with
            | Some (_, format_type) => Some (format_of_magic format_type)
            | None => None
            end
        | inl _ => None
        end in
      match by_magic with
      | Some f => mret f
      | None => raise (Exn ExtractionError
                  ("Unsupported or unrecognized format: " +:+ path_str backup_path))
      end
  end.

(** [_validate_path_security] *)
Definition _validate_path_security (E : Env) (member_path : string)
    (extraction_dir : Path) : bool :=
  let member_path := normpath member_path in
  let extraction_dir := resolve E extraction_dir in
  if contains ".." member_path || startswith "/" member_path then false
  else
    let full_path := resolve E (truediv extraction_dir member_path) in
    match relative_to full_path extraction_dir with
    | inr _ => true
    | inl _ => false
    end.

(** [_calculate_checksum]: one poll of the interruption flag per chunk read *)
Fixpoint poll_chunks (E : Env) (chunks : list string) : M unit :=
  match chunks with
  | [] => mret tt
  | _ :: rest => _check_interrupted E ;; poll_chunks E rest
  end.

Definition _calculate_checksum (E : Env) (file_path : Path) : M string :=
  chunks ← lift (read_chunks E file_path);
  poll_chunks E chunks ;;
  mret (sha256_hex E chunks).

Definition call_progress (cb : option Callback) (percent : Q) (message : string)
  : M unit :=
  match cb with
  | None => mret tt
  | Some f => emit (Progress percent message) ;; lift_unit (f percent message)
  end.

(** The body of the member loop, shared by [_extract_tar] and
    [_extract_zip]: the two loops differ only in the names of the
    attributes they read. *)
Definition extract_member (E : Env) (cb : option Callback) (extraction_dir : Path)
    (n_members : nat) (i : nat) (member : Member) : M unit :=
  _check_interrupted E ;;
  if negb (_validate_path_security E (name member) extraction_dir) then
    modify_metadata (add_warning ("Skipped unsafe path: " +:+ name member))
  else if MAX_EXTRACT_SIZE <? size member then
    modify_metadata (add_warning ("Skipped oversized file: " +:+ name member))
  else
    try_except
      (emit (LibExtract i member extraction_dir) ;;
       lift_unit (lib_extract E i member extraction_dir) ;;
       modify_metadata (λ m, set_extracted_files (extracted_files m + 1) m) ;;
       (if is_file member
        then modify_metadata (λ m, set_extracted_size (extracted_size m + size member) m)
        else mret tt) ;;
       call_progress cb
         (inject_Z (Z.of_nat i + 1) / inject_Z (Z.of_nat n_members) * 100)%Q
         ("Extracted: " +:+ name member))
      (λ e, modify_metadata
              (add_error ("Failed to extract " +:+ name member +:+ ": " +:+ str_exn e))).

Fixpoint extract_members (E : Env) (cb : option Callback) (extraction_dir : Path)
    (n_members : nat) (i : nat) (members : list Member) : M unit :=
  match members with
  | [] => mret tt
  | member :: rest =>
      extract_member E cb extraction_dir n_members i member ;;
      extract_members E cb extraction_dir n_members (S i) rest
  end.

Definition sum_sizes (members : list Member) : Z :=
  foldr (λ m acc, if is_file m then size m + acc else acc) 0 members.

Definition extract_archive (E : Env) (cb : option Callback) (extraction_dir : Path)
    (members : list Member) : M unit :=
  modify_metadata (set_totals (Z.of_nat (length members)) (sum_sizes members)) ;;
  extract_members E cb extraction_dir (length members) 0 members.

(** [_extract_tar] *)
Definition tar_mode (backup_path : Path) : string :=
  let sfx := lower (path_suffix backup_path) in
  if bool_decide (sfx ∈ [".gz"; ".tgz"]) then "r:gz"
  else if bool_decide (sfx ∈ [".bz2"; ".tbz2"]) then "r:bz2"
  else if bool_decide (sfx = ".xz") then "r:xz"
  else "r".

Definition _extract_tar (E : Env) (cb : option Callback) (backup_path extraction_dir : Path)
  : M unit :=
  members ← lift (tar_open E backup_path (tar_mode backup_path));
  extract_archive E cb extraction_dir members.

(** [_extract_zip] *)
Definition _extract_zip (E : Env) (cb : option Callback) (backup_path extraction_dir : Path)
  : M unit :=
  members ← lift (zip_open E backup_path);
  extract_archive E cb extraction_dir members.

(** [_extract_qdrant_snapshot] *)
Definition _extract_qdrant_snapshot (E : Env) (cb : option Callback)
    (backup_path extraction_dir : Path) : M unit :=
  try_except
    (_extract_tar E cb backup_path extraction_dir)
    (λ _,
       let target_path := truediv extraction_dir (path_name backup_path) in
       emit (CopyFile backup_path target_path) ;;
       lift_unit (copy2 E backup_path target_path) ;;
       modify_metadata (λ m, set_totals 1 (total_size m) m) ;;
       modify_metadata (set_extracted_files 1) ;;
       sz ← lift (stat_size E backup_path);
       modify_metadata (λ m, set_totals (total_files m) sz m) ;;
       modify_metadata (λ m, set_extracted_size (total_size m) m) ;;
       call_progress cb 100%Q ("Copied: " +:+ path_name backup_path)).

(** [test_extraction].  The [try] body is cut where a local the handler
    inspects with ['x' in locals()] becomes bound: [format_detected] after
    stage 1, [extraction_path] in stage 2. *)
Definition preflight_and_detect (E : Env) (backup_path : Path) : M string :=
  if negb (path_exists E backup_path) then
    raise (Exn ExtractionError ("Backup file not found: " +:+ path_str backup_path))
  else if negb (path_is_file E backup_path) then
    raise (Exn ExtractionError ("Path is not a file: " +:+ path_str backup_path))
  else _detect_format E backup_path.

Definition extract_by_format (E : Env) (cb : option Callback)
    (format_detected : string) (backup_path extraction_path : Path) : M unit :=
  if bool_decide (format_detected ∈ ["tar"; "tar.gz"; "tar.bz2"; "tar.xz"]) then
    _extract_tar E cb backup_path extraction_path
  else if bool_decide (format_detected = "zip") then
    _extract_zip E cb backup_path extraction_path
  else if bool_decide (format_detected = "qdrant") then
    _extract_qdrant_snapshot E cb backup_path extraction_path
  else raise (Exn ExtractionError ("Unsupported format: " +:+ format_detected)).

Definition checksum_and_extract (E : Env) (cb : option Callback)
    (format_detected : string) (backup_path extraction_path : Path) : M string :=
  call_progress cb 0%Q "Calculating checksum..." ;;
  original_checksum ← _calculate_checksum E backup_path;
  call_progress cb 5%Q "Starting extraction..." ;;
  extract_by_format E cb format_detected backup_path extraction_path ;;
  call_progress cb 100%Q "Extraction completed" ;;
  mret original_checksum.

Definition with_metadata (w : World) (m : ExtractionMetadata) : World :=
  mkWorld m (w_temp_dirs w) (w_polls w) (w_trace w).

(** The [except Exception as e] handler of [test_extraction]. *)
Definition failed_result (w : World) (e : exn)
    (extraction_path : option Path) (format_detected : option string)
  : World * ExtractionResult :=
  let error_message := str_exn e in
  let md := add_error error_message (w_metadata w) in
  (with_metadata w md,
   mkResult false (default [] extraction_path) md
     (default "unknown" format_detected)
     (extracted_files md) (extracted_size md) None (Some error_message)).

Definition test_extraction (E : Env) (backup_path : Path)
    (extraction_dir : option Path) (cb : option Callback)
  : World → World * ExtractionResult :=
  λ w,
    let w0 := with_metadata w fresh_metadata in
    match preflight_and_detect E backup_path w0 with
    | (w1, inl e) => failed_result w1 e None None
    | (w1, inr format_detected) =>
        let setup : World * (exn + Path) * option Path :=
          match extraction_dir with
          | None =>
              let r := _create_secure_temp_dir E w1 in
              (r, match r.2 with inr p => Some p | inl _ => None end)
          | Some d => ((w1, match mkdir E d with Some e => inl e | None => inr d end),
                       Some d)
          end in
        match setup with
        | ((w2, inl e), bound) => failed_result w2 e bound (Some format_detected)
        | ((w2, inr extraction_path), _) =>
            match checksum_and_extract E cb format_detected backup_path
                    extraction_path w2 with
            | (w3, inl e) =>
                failed_result w3 e (Some extraction_path) (Some format_detected)
            | (w3, inr original_checksum) =>
                let md := w_metadata w3 in
                (w3, mkResult true extraction_path md format_detected
                       (extracted_files md) (extracted_size md)
                       (Some original_checksum) None)
            end
        end
    end.

Definition initial_world : World := mkWorld fresh_metadata [] 0 [].

End Extraction.

(** *** Vocabulary of the extraction properties *)

Module ExtractionSpec.
Import PyStr PyPath Extraction.

(** A path string has a parent-directory segment. *)
Definition has_parent_segment (s : string) : Prop := ".." ∈ split "/" s.

Definition is_absolute (s : string) : Prop := startswith "/" s = true.

(** [destinationRoot/memberPath], resolved, is a descendant of the resolved
    destination root. *)
Definition resolved_inside (E : Env) (extraction_dir : Path) (member_path : string)
  : Prop :=
  resolve E extraction_dir `prefix_of`
  resolve E (truediv (resolve E extraction_dir) (normpath member_path)).

(** The three reasons for which a member must be rejected. *)
Definition unsafe_member (E : Env) (extraction_dir : Path) (member_path : string)
  : Prop :=
  has_parent_segment (normpath member_path)
  ∨ is_absolute (normpath member_path)
  ∨ ¬ resolved_inside E extraction_dir member_path.


(** The member passes both checks and is handed to the archive library. *)
Definition accepted (E : Env) (extraction_dir : Path) (m : Member) : bool :=
  _validate_path_security E (name m) extraction_dir
  && negb (MAX_EXTRACT_SIZE <? size m).

(** The warning a rejected member leaves behind. *)
Definition member_warning (E : Env) (extraction_dir : Path) (m : Member)
  : list string :=
  if negb (_validate_path_security E (name m) extraction_dir)
  then ["Skipped unsafe path: " +:+ name m]
  else if MAX_EXTRACT_SIZE <? size m
  then ["Skipped oversized file: " +:+ name m]
  else [].

(** The calls of [tar.extract] / [zip_file.extract] found in a trace. *)
Definition lib_calls (tr : list Event) : list (nat * Member * Path) :=
  omap (λ ev, match ev with
              | LibExtract j m d => Some (j, m, d)
              | _ => None
              end) tr.

(** The calls expected for a list of members numbered from [i]. *)
Fixpoint accepted_calls (E : Env) (extraction_dir : Path) (i : nat)
    (members : list Member) : list (nat * Member * Path) :=
  match members with
  | [] => []
  | m :: rest =>
      (if accepted E extraction_dir m then [(i, m, extraction_dir)] else [])
      ++ accepted_calls E extraction_dir (S i) rest
  end.

(** The state after a member was polled and skipped with warning [msg]:
    one more poll, one more warning, nothing else. *)
Definition skip_world (w : World) (msg : string) : World :=
  mkWorld (add_warning msg (w_metadata w)) (w_temp_dirs w) (S (w_polls w))
          (w_trace w).

(** The state after a poll that found the flag set. *)
Definition poll_world (w : World) : World :=
  mkWorld (w_metadata w) (w_temp_dirs w) (S (w_polls w)) (w_trace w).

Definition interrupted_exn : exn :=
  Exn ExtractionError "Extraction interrupted by user".

(** A file system without symbolic links, in which every path resolves to
    itself, and an archive library that never fails; used for the worked
    examples. *)
Definition plain_env (members : list Member) (flag : nat → bool) : Env :=
  mkEnv (λ _, true) (λ _, true) (λ _, inr "") (λ _, inr ["data"])
    (λ _, "0f3a") (λ p, p) (inr ["/"; "tmp"; "extraction_0"]) (λ _, None)
    (λ _ _, inr members) (λ _, inr members) (λ _ _ _, None) (λ _ _, None)
    (λ _, inr 4) flag.

Definition never : nat → bool := λ _, false.

(** A five-entry archive with a traversal entry, a name with two dots in
    it, and an entry above the size ceiling. *)
Definition sample_members : list Member :=
  [ mkMember "a.txt" 5 true;
    mkMember "../../etc/passwd" 7 true;
    mkMember "foo..bar" 1 true;
    mkMember "big.bin" (MAX_EXTRACT_SIZE + 1) true;
    mkMember "d" 0 false ].

End ExtractionSpec.

(** ** Comparison engine ([comparison_engine.py]) *)

Module Comparison.
Import PyStr PyPath.

Inductive ComparisonMode := QUICK | FULL | METADATA_ONLY | CHECKSUM_ONLY.

(** [ComparisonMode(value)] *)
Definition ComparisonMode_of_string (s : string) : exn + ComparisonMode :=
  if bool_decide (s = "quick") then inr QUICK
  else if bool_decide (s = "full") then inr FULL
  else if bool_decide (s = "metadata_only") then inr METADATA_ONLY
  else if bool_decide (s = "checksum_only") then inr CHECKSUM_ONLY
  else inl (Exn ValueError (s +:+ " is not a valid ComparisonMode")).

Definition mode_value (m : ComparisonMode) : string :=
  match m with
  | QUICK => "quick" | FULL => "full"
  | METADATA_ONLY => "metadata_only" | CHECKSUM_ONLY => "checksum_only"
  end.

Inductive DifferenceType :=
  | MISSING_SOURCE | MISSING_TARGET | SIZE_MISMATCH | CONTENT_MISMATCH
  | METADATA_MISMATCH | PERMISSION_MISMATCH | TIMESTAMP_MISMATCH | TYPE_MISMATCH.

#[export] Instance ComparisonMode_eq_dec : EqDecision ComparisonMode.
Proof. solve_decision. Defined.
#[export] Instance DifferenceType_eq_dec : EqDecision DifferenceType.
Proof. solve_decision. Defined.

Record FileMetadata := mkFileMetadata {
  path : Path;
  size : Z;
  mtime : Q;
  mode : Z;
  is_file : bool;
  is_dir : bool;
  is_symlink : bool;
  checksum : option string }.

Record FileDifference := mkDifference {
  diff_path : Path;
  difference_type : DifferenceType;
  source_metadata : option FileMetadata;
  target_metadata : option FileMetadata;
  details : string }.

Record ComparisonResult := mkComparisonResult {
  source_path : Path;
  target_path : Path;
  comparison_mode : ComparisonMode;
  total_files_processed : Z;
  total_directories_processed : Z;
  files_identical : Z;
  files_different : Z;
  files_missing_source : Z;
  files_missing_target : Z;
  differences : list FileDifference;
  total_bytes_processed : Z;
  excluded_patterns : list string;
  errors : list string }.

(** [a / b] on two [int]s: [None] is [ZeroDivisionError]. *)
Definition true_div (a b : Z) : option Q :=
  if b =? 0 then None else Some (inject_Z a / inject_Z b)%Q.

(** [ComparisonResult.success_rate]; [None] would be a division error. *)
Definition success_rate (r : ComparisonResult) : option Q :=
  if total_files_processed r =? 0 then Some 100%Q
  else q ← true_div (files_identical r) (total_files_processed r);
       Some (q * 100)%Q.

(** [has_differences] *)
Definition has_differences (r : ComparisonResult) : bool :=
  bool_decide (0 < length (differences r))%nat.

(** The engine's configuration ([__init__]). *)
Record Engine := mkEngine {
  max_workers : Z;
  chunk_size : Z;
  exclude_patterns : list string;
  follow_symlinks : bool;
  case_sensitive : bool }.

(** The file system as the engine observes it, and the library functions
    whose results depend on more than the model holds ([fnmatch], the
    printing of octal numbers and floats). *)
Record Fs := mkFs {
  fs_exists : Path → bool;
  fs_rglob : Path → exn + list Path;
  fs_is_symlink : Path → bool;
  fs_is_dir : Path → bool;
  fs_is_file : Path → bool;
  fs_stat : Path → exn + (Z * Q * Z);
  fs_sha256 : Path → exn + string;
  fnmatch : string → string → bool;
  fmt_oct : Z → string;
  fmt_float : Q → string }.

(** The order in which the runtime walks a [set] and in which the worker
    pool completes its tasks. *)
Record Runtime := mkRuntime {
  set_order : gset string → list string;
  completion_order : list string → list string }.

(** [calculate_checksum] *)
Definition calculate_checksum (fs : Fs) (file_path : Path) : exn + string :=
  match fs_sha256 fs file_path with
  | inr h => inr h
  | inl e => inl (Exn IOError ("Cannot calculate checksum for "
                               +:+ path_str file_path +:+ ": " +:+ str_exn e))
  end.

(** [get_file_metadata] *)
Definition get_file_metadata (fs : Fs) (file_path : Path) (include_checksum : bool)
  : exn + FileMetadata :=
  match fs_stat fs file_path with
  | inl e => inl e
  | inr (st_size, st_mtime, st_mode) =>
      let metadata :=
        mkFileMetadata file_path st_size st_mtime st_mode
          (fs_is_file fs file_path) (fs_is_dir fs file_path)
          (fs_is_symlink fs file_path) None in
      if include_checksum && is_file metadata && negb (is_symlink metadata) then
        match calculate_checksum fs file_path with
        | inl e => inl e
        | inr h =>
            inr (mkFileMetadata file_path st_size st_mtime st_mode
                   (is_file metadata) (is_dir metadata) (is_symlink metadata)
                   (Some h))
        end
      else inr metadata
  end.

(** [should_exclude] *)
Definition should_exclude (eng : Engine) (fs : Fs) (p : Path) : bool :=
  let path_str := if case_sensitive eng then path_str p else lower (path_str p) in
  existsb (λ pattern,
             let pattern := if case_sensitive eng then pattern else lower pattern in
             fnmatch fs path_str pattern)
          (exclude_patterns eng).

(** [collect_files]: a [dict]; a key met again takes the later item. *)
Definition collect_step (eng : Engine) (fs : Fs) (root_path : Path)
    (files : gmap string Path) (item : Path) : gmap string Path :=
  if should_exclude eng fs item then files
  else if negb (follow_symlinks eng) && fs_is_symlink fs item then files
  else match relative_to item root_path with
       | inr relative_path =>
           let key := path_str relative_path in
           let key := if case_sensitive eng then key else lower key in
           <[key := item]> files
       | inl _ => files
       end.

Definition collect_files (eng : Engine) (fs : Fs) (root_path : Path)
  : exn + gmap string Path :=
  match fs_rglob fs root_path with
  | inl e => inl e
  | inr items => inr (foldl (collect_step eng fs root_path) ∅ items)
  end.

(** [stat.S_IMODE] *)
Definition S_IMODE (mode : Z) : Z := Z.land mode 4095.

Definition kind_word (is_file : bool) : string := if is_file then "file" else "dir".

(** [compare_metadata] *)
Definition compare_metadata (fs : Fs) (sm tm : FileMetadata) (mode_ : ComparisonMode)
  : list FileDifference :=
  if negb (eqb (is_file sm) (is_file tm)) || negb (eqb (is_dir sm) (is_dir tm)) then
    [ mkDifference (path sm) TYPE_MISMATCH (Some sm) (Some tm)
        ("Type mismatch: source=" +:+ kind_word (is_file sm)
         +:+ ", target=" +:+ kind_word (is_file tm)) ]
  else
    (if negb (size sm =? size tm) then
       [ mkDifference (path sm) SIZE_MISMATCH (Some sm) (Some tm)
           ("Size mismatch: source=" +:+ str_int (size sm)
            +:+ ", target=" +:+ str_int (size tm)) ]
     else [])
    ++
    (if bool_decide (mode_ ∈ [FULL; CHECKSUM_ONLY])
        && is_file sm && is_file tm
        && match checksum sm, checksum tm with
           | Some cs, Some ct =>
               negb (bool_decide (cs = "")) && negb (bool_decide (ct = ""))
               && negb (bool_decide (cs = ct))
           | _, _ => false
           end
     then
       [ mkDifference (path sm) CONTENT_MISMATCH (Some sm) (Some tm)
           "Content mismatch: checksums differ" ]
     else [])
    ++
    (if bool_decide (mode_ = FULL) then
       (if negb (S_IMODE (mode sm) =? S_IMODE (mode tm)) then
          [ mkDifference (path sm) PERMISSION_MISMATCH (Some sm) (Some tm)
              ("Permission mismatch: source=" +:+ fmt_oct fs (S_IMODE (mode sm))
               +:+ ", target=" +:+ fmt_oct fs (S_IMODE (mode tm))) ]
        else [])
       ++
       (if negb (Qle_bool (Qabs (mtime sm - mtime tm)) 1) then
          [ mkDifference (path sm) TIMESTAMP_MISMATCH (Some sm) (Some tm)
              ("Timestamp mismatch: source=" +:+ fmt_float fs (mtime sm)
               +:+ ", target=" +:+ fmt_float fs (mtime tm)) ]
        else [])
     else []).

(** [compare_file_pair]: first the body of its [try], then the function
    with its [except Exception] handler.  When the handler runs,
    [differences] is still empty and [bytes_processed] still 0, because
    both are assigned after the last statement that can raise. *)
Definition compare_file_pair_body (fs : Fs) (source_file target_file : Path)
    (mode_ : ComparisonMode) : exn + (list FileDifference * Z) :=
  let include_checksum := bool_decide (mode_ ∈ [FULL; CHECKSUM_ONLY]) in
  match get_file_metadata fs source_file include_checksum with
  | inl e => inl e
  | inr sm =>
      match get_file_metadata fs target_file include_checksum with
      | inl e => inl e
      | inr tm =>
          inr (if negb (bool_decide (mode_ = QUICK)) || negb (size sm =? size tm)
               then compare_metadata fs sm tm mode_
               else [],
               size sm)
      end
  end.

Definition comparison_error_difference (relative_path : string) (e : exn)
  : FileDifference :=
  mkDifference (path_of_string relative_path) CONTENT_MISMATCH None None
    ("Comparison error: " +:+ str_exn e).

Definition compare_file_pair (fs : Fs) (relative_path : string)
    (source_file target_file : Path) (mode_ : ComparisonMode)
  : list FileDifference * Z :=
  match compare_file_pair_body fs source_file target_file mode_ with
  | inr r => r
  | inl e => ([] ++ [comparison_error_difference relative_path e], 0)
  end.

Definition initial_result (eng : Engine) (source_path extracted_path : Path)
    (mode_ : ComparisonMode) : ComparisonResult :=
  mkComparisonResult source_path extracted_path mode_ 0 0 0 0 0 0 [] 0
    (exclude_patterns eng) [].

Definition missing_difference (ty : DifferenceType) (text : string) (key : string)
  : FileDifference :=
  mkDifference (path_of_string key) ty None None text.

(** One turn of [for path in missing_in_target]. *)
Definition add_missing_target (r : ComparisonResult) (key : string) : ComparisonResult :=
  mkComparisonResult (source_path r) (target_path r) (comparison_mode r)
    (total_files_processed r) (total_directories_processed r)
    (files_identical r) (files_different r) (files_missing_source r)
    (files_missing_target r + 1)
    (differences r ++ [missing_difference MISSING_TARGET
                         "File exists in source but not in target" key])
    (total_bytes_processed r) (excluded_patterns r) (errors r).

(** One turn of [for path in missing_in_source]. *)
Definition add_missing_source (r : ComparisonResult) (key : string) : ComparisonResult :=
  mkComparisonResult (source_path r) (target_path r) (comparison_mode r)
    (total_files_processed r) (total_directories_processed r)
    (files_identical r) (files_different r) (files_missing_source r + 1)
    (files_missing_target r)
    (differences r ++ [missing_difference MISSING_SOURCE
                         "File exists in target but not in source" key])
    (total_bytes_processed r) (excluded_patterns r) (errors r).

(** [future.result()] of the task submitted for [relative_path]. *)
Definition future_result (fs : Fs) (mode_ : ComparisonMode)
    (source_files target_files : gmap string Path) (relative_path : string)
  : exn + (list FileDifference * Z) :=
  inr (compare_file_pair fs relative_path
         (source_files !!! relative_path) (target_files !!! relative_path) mode_).

(** One turn of [for future in as_completed(future_to_path)]. *)
Definition collect_future (fs : Fs) (mode_ : ComparisonMode)
    (source_files target_files : gmap string Path)
    (r : ComparisonResult) (relative_path : string) : ComparisonResult :=
  match future_result fs mode_ source_files target_files relative_path with
  | inr (diffs, bytes_processed) =>
      mkComparisonResult (source_path r) (target_path r) (comparison_mode r)
        (total_files_processed r) (total_directories_processed r)
        (if bool_decide (diffs = []) then files_identical r + 1 else files_identical r)
        (if bool_decide (diffs = []) then files_different r else files_different r + 1)
        (files_missing_source r) (files_missing_target r)
        (differences r ++ diffs)
        (total_bytes_processed r + bytes_processed)
        (excluded_patterns r) (errors r)
  | inl e =>
      mkComparisonResult (source_path r) (target_path r) (comparison_mode r)
        (total_files_processed r) (total_directories_processed r)
        (files_identical r) (files_different r)
        (files_missing_source r) (files_missing_target r)
        (differences r) (total_bytes_processed r) (excluded_patterns r)
        (errors r ++ ["Error processing " +:+ relative_path +:+ ": " +:+ str_exn e])
  end.

Definition count_dirs (fs : Fs) (files : gmap string Path) : Z :=
  Z.of_nat (length (filter (λ kv, fs_is_dir fs kv.2 = true) (map_to_list files))).

Definition set_final_statistics (r : ComparisonResult) (files dirs : Z)
  : ComparisonResult :=
  mkComparisonResult (source_path r) (target_path r) (comparison_mode r)
    files dirs
    (files_identical r) (files_different r)
    (files_missing_source r) (files_missing_target r)
    (differences r) (total_bytes_processed r) (excluded_patterns r) (errors r).

Definition add_result_error (r : ComparisonResult) (msg : string) : ComparisonResult :=
  mkComparisonResult (source_path r) (target_path r) (comparison_mode r)
    (total_files_processed r) (total_directories_processed r)
    (files_identical r) (files_different r)
    (files_missing_source r) (files_missing_target r)
    (differences r) (total_bytes_processed r) (excluded_patterns r)
    (errors r ++ [msg]).

(** The part of [content_comparison] after both trees were collected. *)
Definition compare_collected (fs : Fs) (rt : Runtime) (mode_ : ComparisonMode)
    (source_files target_files : gmap string Path) (result : ComparisonResult)
  : ComparisonResult :=
  let all_paths : gset string := dom source_files ∪ dom target_files in
  let missing_in_target : gset string := dom source_files ∖ dom target_files in
  let missing_in_source : gset string := dom target_files ∖ dom source_files in
  let common_paths : gset string := dom source_files ∩ dom target_files in
  let result := foldl add_missing_target result (set_order rt missing_in_target) in
  let result := foldl add_missing_source result (set_order rt missing_in_source) in
  let result :=
    if bool_decide (common_paths = ∅) then result
    else foldl (collect_future fs mode_ source_files target_files) result
           (completion_order rt (set_order rt common_paths)) in
  set_final_statistics result (Z.of_nat (base.size all_paths))
    (count_dirs fs source_files + count_dirs fs target_files).

(** The body of the [try] of [content_comparison]; everything that can
    raise does so before [result] is first changed. *)
Definition comparison_body (eng : Engine) (fs : Fs) (rt : Runtime)
    (source_path extracted_path : Path) (mode_ : ComparisonMode)
    (result : ComparisonResult) : exn + ComparisonResult :=
  if negb (fs_exists fs source_path) then
    inl (Exn FileNotFoundError
           ("Source path does not exist: " +:+ path_str source_path))
  else if negb (fs_exists fs extracted_path) then
    inl (Exn FileNotFoundError
           ("Target path does not exist: " +:+ path_str extracted_path))
  else
    match collect_files eng fs source_path with
    | inl e => inl e
    | inr source_files =>
        match collect_files eng fs extracted_path with
        | inl e => inl e
        | inr target_files =>
            inr (compare_collected fs rt mode_ source_files target_files result)
        end
    end.

(** [content_comparison]; only an invalid mode string raises to the caller. *)
Definition content_comparison (eng : Engine) (fs : Fs) (rt : Runtime)
    (source_path extracted_path : Path) (comparison_mode : string)
  : exn + ComparisonResult :=
  match ComparisonMode_of_string comparison_mode with
  | inl e => inl e
  | inr mode_ =>
      let result := initial_result eng source_path extracted_path mode_ in
      match comparison_body eng fs rt source_path extracted_path mode_ result with
      | inr r => inr r
      | inl e => inr (add_result_error result ("Comparison failed: " +:+ str_exn e))
      end
  end.

(** A runtime that walks sets in the order of [elements] and completes
    tasks in the order of submission. *)
Definition plain_runtime : Runtime := mkRuntime elements (λ l, l).

Definition default_engine : Engine := mkEngine 8 8192 [] false true.

End Comparison.

(** ** Progress tracker ([progress_tracker.py]) *)

Module Progress.

Inductive ProgressMode := CONSOLE | CALLBACK | SILENT.
Inductive ProgressUnit := ITEMS | BYTES | PERCENT.

Inductive ProgressReport := mkReport {
  operation_id : string;
  current : Z;
  total : Z;
  percentage : Q;
  elapsed_time : Q;
  eta : option Q;
  throughput : option Q;
  throughput_unit : string;
  custom_message : string;
  sub_operations : list (string * ProgressReport) }.

(** The tracker object.  Rendering (console output, the user callback, the
    re-rendering of the parent) only produces output and is not part of
    the state; [time.time()] is an argument of every operation that reads
    the clock. *)
Inductive ProgressTracker := mkTracker {
  t_operation_id : string;
  total_items : Z;
  mode : ProgressMode;
  update_interval : Q;
  unit_ : ProgressUnit;
  _current_item : Z;
  _start_time : option Q;
  _last_update_time : Q;
  _custom_message : string;
  _is_finished : bool;
  _sub_trackers : list (string * ProgressTracker);
  _throughput_samples : list (Q * Z) }.

Definition _max_samples : nat := 10.

(** [__init__] *)
Definition new_tracker (operation_id : string) (total_items : Z)
    (mode : ProgressMode) (update_interval : Q) (unit_ : ProgressUnit)
  : ProgressTracker :=
  mkTracker operation_id total_items mode update_interval unit_
    0 None 0%Q "" false [] [].

(** [start] *)
Definition start (now : Q) (t : ProgressTracker) : ProgressTracker :=
  match _start_time t with
  | Some _ => t
  | None =>
      mkTracker (t_operation_id t) (total_items t) (mode t) (update_interval t)
        (unit_ t) (_current_item t) (Some now) now (_custom_message t)
        (_is_finished t) (_sub_trackers t) [(now, 0)]
  end.

(** [samples.append(x)] followed by [if len(samples) > _max_samples:
    samples.pop(0)] *)
Definition push_sample (x : Q * Z) (samples : list (Q * Z)) : list (Q * Z) :=
  let samples := samples ++ [x] in
  if (_max_samples <? length samples)%nat then tail samples else samples.

(** The common part of [update] and [set_current] once the new position
    is known. *)
Definition record_progress (now : Q) (new_current : Z) (custom_message : string)
    (t : ProgressTracker) : ProgressTracker :=
  mkTracker (t_operation_id t) (total_items t) (mode t) (update_interval t)
    (unit_ t) new_current (_start_time t)
    (if Qle_bool (update_interval t) (now - _last_update_time t) then now
     else _last_update_time t)
    (if bool_decide (custom_message = "") then _custom_message t else custom_message)
    (_is_finished t) (_sub_trackers t)
    (push_sample (now, new_current) (_throughput_samples t)).

(** [update]; [t_start] is the clock as read by the implicit [start()],
    [now] as read by [update] itself. *)
Definition update (t_start now : Q) (items_processed : Z) (custom_message : string)
    (t : ProgressTracker) : ProgressTracker :=
  let t := match _start_time t with None => start t_start t | Some _ => t end in
  record_progress now (Z.min (_current_item t + items_processed) (total_items t))
    custom_message t.

(** [set_current] *)
Definition set_current (t_start now : Q) (current_item : Z) (custom_message : string)
    (t : ProgressTracker) : ProgressTracker :=
  let t := match _start_time t with None => start t_start t | Some _ => t end in
  record_progress now (Z.min (Z.max 0 current_item) (total_items t))
    custom_message t.

(** [finish] *)
Definition finish (custom_message : string) (t : ProgressTracker) : ProgressTracker :=
  if _is_finished t then t
  else
    mkTracker (t_operation_id t) (total_items t) (mode t) (update_interval t)
      (unit_ t) (total_items t) (_start_time t) (_last_update_time t)
      custom_message true (_sub_trackers t) (_throughput_samples t).

(** [d[k] = v] on a [dict] kept as an association list in insertion order *)
Fixpoint dict_set {V} (k : string) (v : V) (d : list (string * V)) : list (string * V) :=
  match d with
  | [] => [(k, v)]
  | (k', v') :: d' =>
      if bool_decide (k' = k) then (k, v) :: d' else (k', v') :: dict_set k v d'
  end.

(** [add_sub_operation]; [mode] is [None] when the keyword is not given. *)
Definition add_sub_operation (sub_id : string) (total_items_ : Z)
    (mode_ : option ProgressMode) (update_interval_ : Q) (unit__ : ProgressUnit)
    (t : ProgressTracker) : ProgressTracker :=
  let sub_tracker :=
    new_tracker (t_operation_id t +:+ "." +:+ sub_id) total_items_
      (default SILENT mode_) update_interval_ unit__ in
  mkTracker (t_operation_id t) (total_items t) (mode t) (update_interval t)
    (unit_ t) (_current_item t) (_start_time t) (_last_update_time t)
    (_custom_message t) (_is_finished t)
    (dict_set sub_id sub_tracker (_sub_trackers t)) (_throughput_samples t).

(** A method call on the sub-tracker registered under [sub_id]. *)
Definition on_sub (sub_id : string) (f : ProgressTracker → ProgressTracker)
    (t : ProgressTracker) : ProgressTracker :=
  mkTracker (t_operation_id t) (total_items t) (mode t) (update_interval t)
    (unit_ t) (_current_item t) (_start_time t) (_last_update_time t)
    (_custom_message t) (_is_finished t)
    (map (λ kv, if bool_decide (kv.1 = sub_id) then (kv.1, f kv.2) else kv)
         (_sub_trackers t))
    (_throughput_samples t).

(** [l[-n:]] *)
Definition last_n {A} (n : nat) (l : list A) : list A := drop (length l - n) l.

(** [_calculate_eta] *)
Definition _calculate_eta (t : ProgressTracker) : option Q :=
  if (length (_throughput_samples t) <? 2)%nat || (_current_item t =? 0) then None
  else
    let recent_samples := last_n 3 (_throughput_samples t) in
    if (length recent_samples <? 2)%nat then None
    else
      match head recent_samples, last recent_samples with
      | Some first, Some newest =>
          let time_diff := (newest.1 - first.1)%Q in
          let items_diff := newest.2 - first.2 in
          if Qle_bool time_diff 0 || (items_diff <=? 0) then None
          else
            let items_per_second := (inject_Z items_diff / time_diff)%Q in
            let remaining_items := total_items t - _current_item t in
            if negb (Qle_bool items_per_second 0)
            then Some (inject_Z remaining_items / items_per_second)%Q
            else None
      | _, _ => None
      end.

(** [_get_throughput_unit] *)
Definition _get_throughput_unit (t : ProgressTracker) : string :=
  match unit_ t with
  | BYTES => "bytes/sec"
  | ITEMS => "items/sec"
  | PERCENT => "units/sec"
  end.

(** [_calculate_throughput] *)
Definition _calculate_throughput (t : ProgressTracker) : option Q * string :=
  if (length (_throughput_samples t) <? 2)%nat then (None, _get_throughput_unit t)
  else
    let recent_samples := last_n 3 (_throughput_samples t) in
    if (length recent_samples <? 2)%nat then (None, _get_throughput_unit t)
    else
      match head recent_samples, last recent_samples with
      | Some first, Some newest =>
          let time_diff := (newest.1 - first.1)%Q in
          let items_diff := newest.2 - first.2 in
          if Qle_bool time_diff 0 then (None, _get_throughput_unit t)
          else (Some (inject_Z items_diff / time_diff)%Q, _get_throughput_unit t)
      | _, _ => (None, _get_throughput_unit t)
      end.

(** [get_report]; [now] is the clock as read by the call. *)
Fixpoint get_report (now : Q) (t : ProgressTracker) : ProgressReport :=
  let elapsed_time :=
    match _start_time t with
    | Some s => (now - s)%Q
    | None => 0%Q
    end in
  let percentage :=
    if 0 <? total_items t
    then (inject_Z (_current_item t) / inject_Z (total_items t) * 100)%Q
    else 0%Q in
  let eta := _calculate_eta t in
  let '(throughput, throughput_unit) := _calculate_throughput t in
  mkReport (t_operation_id t) (_current_item t) (total_items t) percentage
    elapsed_time eta throughput throughput_unit (_custom_message t)
    (map (λ '(sub_id, sub_tracker), (sub_id, get_report now sub_tracker))
         (_sub_trackers t)).

(** The methods a client can call on a tracker or on one of its
    sub-trackers. *)
Inductive Op :=
  | OpStart (now : Q)
  | OpUpdate (t_start now : Q) (items_processed : Z) (custom_message : string)
  | OpSetCurrent (t_start now : Q) (current_item : Z) (custom_message : string)
  | OpFinish (custom_message : string)
  | OpAddSub (sub_id : string) (total_items : Z) (mode : option ProgressMode)
             (update_interval : Q) (unit_ : ProgressUnit)
  | OpOnSub (sub_id : string) (op : Op).

Fixpoint apply_op (op : Op) (t : ProgressTracker) : ProgressTracker :=
  match op with
  | OpStart now => start now t
  | OpUpdate t_start now n msg => update t_start now n msg t
  | OpSetCurrent t_start now n msg => set_current t_start now n msg t
  | OpFinish msg => finish msg t
  | OpAddSub sub_id n m i u => add_sub_operation sub_id n m i u t
  | OpOnSub sub_id op' => on_sub sub_id (apply_op op') t
  end.

Definition run_ops (ops : list Op) (t : ProgressTracker) : ProgressTracker :=
  foldl (λ t op, apply_op op t) t ops.

(** The three states of the tracker's life cycle. *)
Inductive Phase := NotStarted | Running | Finished.

Definition phase (t : ProgressTracker) : Phase :=
  if _is_finished t then Finished
  else match _start_time t with
       | Some _ => Running
       | None => NotStarted
       end.

(** The rate the specification describes: between the oldest and the
    newest of all retained samples. *)
Definition oldest_newest_rate (t : ProgressTracker) : option Q :=
  match head (_throughput_samples t), last (_throughput_samples t) with
  | Some oldest, Some newest =>
      if (length (_throughput_samples t) <? 2)%nat then None
      else if Qle_bool (newest.1 - oldest.1) 0 then None
      else Some (inject_Z (newest.2 - oldest.2) / (newest.1 - oldest.1))%Q
  | _, _ => None
  end.

End Progress.

(** *** Vocabulary of the comparison properties *)

Module ComparisonSpec.
Import PyStr PyPath Comparison.

(** The runtime may walk a set and complete tasks in any order, but it
    visits every element and completes every task exactly once. *)
Definition runtime_ok (rt : Runtime) : Prop :=
  (∀ s : gset string, set_order rt s ≡ₚ elements s)
  ∧ (∀ l : list string, completion_order rt l ≡ₚ l).


(** The differences the task of [key] returns. *)
Definition pair_differences (fs : Fs) (mode_ : ComparisonMode)
    (source_files target_files : gmap string Path) (key : string)
  : list FileDifference :=
  (compare_file_pair fs key (source_files !!! key) (target_files !!! key) mode_).1.

(** The order in which the tasks of the common keys complete. *)
Definition common_order (rt : Runtime) (sf tf : gmap string Path) : list string :=
  completion_order rt (set_order rt (dom sf ∩ dom tf)).

(** Every entry of the collected tree can be read: [stat] and, for regular
    files, the checksum succeed. *)
Definition readable (fs : Fs) (files : gmap string Path) : Prop :=
  ∀ key item, files !! key = Some item →
    ∃ md, get_file_metadata fs item true = inr md.

(** A tree with the single file [f] under every root; [stat] and the
    checksum of the file answer as given. *)
Definition single_file_fs (stat_r : exn + (Z * Q * Z)) (sha_r : exn + string) : Fs :=
  mkFs (λ _, true) (λ root, inr [root ++ ["f"]]) (λ _, false) (λ _, false)
    (λ _, true) (λ _, stat_r) (λ _, sha_r) (λ _ _, false) (λ _, "") (λ _, "").

(** Every root exists and is empty. *)
Definition empty_fs : Fs :=
  mkFs (λ _, true) (λ _, inr []) (λ _, false) (λ _, false) (λ _, false)
    (λ _, inl (Exn FileNotFoundError "No such file or directory"))
    (λ _, inl (Exn FileNotFoundError "No such file or directory"))
    (λ _ _, false) (λ _, "") (λ _, "").

Definition permission_denied : exn := Exn IOError "Permission denied".

(** The round-trip property as the specification states it, for one tree. *)
Definition self_comparison_clean (fs : Fs) (root : Path) : Prop :=
  ∀ r, content_comparison default_engine fs plain_runtime root root "full" = inr r →
       differences r = [] ∧ same_rate (success_rate r) (Some 100%Q).


End ComparisonSpec.

(** *** A sample run of the tracker *)

Module ProgressSpec.
Import Progress.

(** Four calls on a tracker of 100 items: start at time 0, then 10, 10 and
    1 items at times 1, 2 and 3. *)
Definition sample_run : ProgressTracker :=
  run_ops [OpStart 0; OpUpdate 0 1 10 ""; OpUpdate 1 2 10 ""; OpUpdate 2 3 1 ""]
          (new_tracker "restore" 100 SILENT (1 # 10) ITEMS).

End ProgressSpec.

(** *** Teardown and the vocabulary of further extraction properties *)

Module ExtractionExtra.
Import PyStr PyPath Extraction ExtractionSpec.



(** The formats [_detect_format] can return. *)
Definition detectable_formats : list string :=
  ["tar"; "tar.gz"; "tar.bz2"; "tar.xz"; "zip"; "qdrant"].

(** A relative path, read component by component, climbs above the
    directory it starts from: [depth] is the number of directories entered
    so far. *)
Fixpoint climbs_above (depth : nat) (comps : list string) : bool :=
  match comps with
  | [] => false
  | comp :: rest =>
      if bool_decide (comp = "") || bool_decide (comp = ".") then
        climbs_above depth rest
      else if bool_decide (comp = "..") then
        match depth with
        | O => true
        | S d => climbs_above d rest
        end
      else climbs_above (S depth) rest
  end.



(** What one turn of the loop does to the counters: [c] calls of the
    archive library (0 or 1), [e] members counted as extracted, [errs] new
    error entries. *)
Definition counts_step (cb : option Callback) (m : option Member) (w w' : World)
    (c e : Z) (errs : list string) : Prop :=
  total_files (w_metadata w') = total_files (w_metadata w)
  ∧ total_size (w_metadata w') = total_size (w_metadata w)
  ∧ extracted_files (w_metadata w') = extracted_files (w_metadata w) + e
  ∧ errors (w_metadata w') = errors (w_metadata w) ++ errs
  ∧ 0 ≤ e ≤ c
  ∧ Z.of_nat (length errs) ≤ c
  ∧ c ≤ e + Z.of_nat (length errs)
  ∧ (cb = None → e + Z.of_nat (length errs) = c)
  ∧ (∀ m0, m = Some m0 →
       extracted_size (w_metadata w')
       = extracted_size (w_metadata w) + (if is_file m0 then e * size m0 else 0)).

(** The state after [k] polls that found the flag clear. *)
Definition polled (k : nat) (w : World) : World :=
  mkWorld (w_metadata w) (w_temp_dirs w) (w_polls w + k) (w_trace w).

(** No path exists. *)
Definition missing_env : Env :=
  mkEnv (λ _, false) (λ _, false)
    (λ _, inl (Exn FileNotFoundError "No such file or directory"))
    (λ _, inl (Exn FileNotFoundError "No such file or directory"))
    (λ _, "") (λ p, p) (inr ["/"; "tmp"; "extraction_0"]) (λ _, None)
    (λ _ _, inl (Exn FileNotFoundError "No such file or directory"))
    (λ _, inl (Exn FileNotFoundError "No such file or directory"))
    (λ _ _ _, None) (λ _ _, None)
    (λ _, inl (Exn FileNotFoundError "No such file or directory")) (λ _, false).

(** As [plain_env], but the library fails on the last member. *)
Definition failing_env (members : list Member) : Env :=
  mkEnv (λ _, true) (λ _, true) (λ _, inr "") (λ _, inr ["data"])
    (λ _, "0f3a") (λ p, p) (inr ["/"; "tmp"; "extraction_0"]) (λ _, None)
    (λ _ _, inr members) (λ _, inr members)
    (λ i _ _, if bool_decide (S i = length members)
              then Some (Exn IOError "No space left on device") else None)
    (λ _ _, None) (λ _, inr 4) (λ _, false).

(** A zip archive of [members], read in two chunks; it is not a tar
    archive, and the library never fails. *)
Definition zip_env (members : list Member) (flag : nat → bool) : Env :=
  mkEnv (λ _, true) (λ _, true) (λ _, inr "") (λ _, inr ["PK"; "data"])
    (λ _, "0f3a") (λ p, p) (inr ["/"; "tmp"; "extraction_0"]) (λ _, None)
    (λ _ _, inl (Exn LibraryError "not a tar archive")) (λ _, inr members)
    (λ _ _ _, None) (λ _ _, None) (λ _, inr 6) flag.

End ExtractionExtra.

(** *** Construction, the command line and the vocabulary of further
    comparison properties *)

Module ComparisonExtra.
Import PyStr PyPath Comparison ComparisonSpec.

(** [ComparisonEngine.__init__]: [max_workers or min(32, (os.cpu_count()
    or 1) + 4)]; [None] and [0] are both false. *)
Definition default_max_workers (cpu_count : option Z) : Z :=
  let cpus := match cpu_count with
              | Some n => if n =? 0 then 1 else n
              | None => 1
              end in
  Z.min 32 (cpus + 4).

Definition new_engine (max_workers : option Z) (cpu_count : option Z)
    (chunk_size : Z) (exclude_patterns : option (list string))
    (follow_symlinks case_sensitive : bool) : Engine :=
  mkEngine
    (match max_workers with
     | Some n => if n =? 0 then default_max_workers cpu_count else n
     | None => default_max_workers cpu_count
     end)
    chunk_size (default [] exclude_patterns) follow_symlinks case_sensitive.

(** The number of bytes the task of [key] reports as processed. *)
Definition pair_bytes (fs : Fs) (mode_ : ComparisonMode)
    (source_files target_files : gmap string Path) (key : string) : Z :=
  (compare_file_pair fs key (source_files !!! key) (target_files !!! key) mode_).2.

Definition sum_Z (l : list Z) : Z := foldr Z.add 0 l.

(** The kinds of difference a pair of existing files can show, in the
    order in which [compare_metadata] looks for them. *)
Definition pair_kinds : list DifferenceType :=
  [SIZE_MISMATCH; CONTENT_MISMATCH; PERMISSION_MISMATCH; TIMESTAMP_MISMATCH].

(** Two file systems that differ at most in the content of files. *)
Definition same_but_content (fs fs' : Fs) : Prop :=
  fs_exists fs' = fs_exists fs
  ∧ fs_rglob fs' = fs_rglob fs
  ∧ fs_is_symlink fs' = fs_is_symlink fs
  ∧ fs_is_dir fs' = fs_is_dir fs
  ∧ fs_is_file fs' = fs_is_file fs
  ∧ fs_stat fs' = fs_stat fs
  ∧ fnmatch fs' = fnmatch fs
  ∧ fmt_oct fs' = fmt_oct fs
  ∧ fmt_float fs' = fmt_float fs.

(** The two sides of a pair are of different type. *)
Definition type_differs (sm tm : FileMetadata) : bool :=
  negb (eqb (is_file sm) (is_file tm)) || negb (eqb (is_dir sm) (is_dir tm)).

(** Both checksums were computed and they differ. *)
Definition checksums_differ (sm tm : FileMetadata) : Prop :=
  ∃ cs ct, checksum sm = Some cs ∧ checksum tm = Some ct
           ∧ cs ≠ "" ∧ ct ≠ "" ∧ cs ≠ ct.

(** The identity of the run: roots, mode and exclusion patterns. *)
Definition same_run (r0 r : ComparisonResult) : Prop :=
  source_path r = source_path r0
  ∧ target_path r = target_path r0
  ∧ comparison_mode r = comparison_mode r0
  ∧ excluded_patterns r = excluded_patterns r0.

(** [include_checksum] of [compare_file_pair]. *)
Definition wants_checksum (mode_ : ComparisonMode) : bool :=
  bool_decide (mode_ ∈ [FULL; CHECKSUM_ONLY]).

(** What a pair of metadata records must satisfy to count as identical in
    each mode. *)
Definition identical_in (mode_ : ComparisonMode) (sm tm : FileMetadata) : Prop :=
  match mode_ with
  | QUICK => size sm = size tm
  | METADATA_ONLY => type_differs sm tm = false ∧ size sm = size tm
  | CHECKSUM_ONLY =>
      type_differs sm tm = false ∧ size sm = size tm
      ∧ ¬ (is_file sm = true ∧ is_file tm = true ∧ checksums_differ sm tm)
  | FULL =>
      type_differs sm tm = false ∧ size sm = size tm
      ∧ ¬ (is_file sm = true ∧ is_file tm = true ∧ checksums_differ sm tm)
      ∧ S_IMODE (mode sm) = S_IMODE (mode tm)
      ∧ (Qabs (mtime sm - mtime tm) <= 1)%Q
  end.

(** The differences of a completed run, in the order of [elements]. *)
Definition expected_differences (fs : Fs) (mode_ : ComparisonMode)
    (sf tf : gmap string Path) : list FileDifference :=
  map (missing_difference MISSING_TARGET "File exists in source but not in target")
      (elements (dom sf ∖ dom tf))
  ++ map (missing_difference MISSING_SOURCE "File exists in target but not in source")
         (elements (dom tf ∖ dom sf))
  ++ flat_map (pair_differences fs mode_ sf tf) (elements (dom sf ∩ dom tf)).

(** Both roots exist and both trees were collected. *)
Definition collected (eng : Engine) (fs : Fs) (source target : Path)
    (sf tf : gmap string Path) : Prop :=
  fs_exists fs source = true ∧ fs_exists fs target = true
  ∧ collect_files eng fs source = inr sf
  ∧ collect_files eng fs target = inr tf.

(** The exit status of the command line: [0 if not result.has_differences
    else 1]. *)
Definition exit_status (r : ComparisonResult) : Z :=
  if negb (has_differences r) then 0 else 1.



(** The module-level [content_comparison]: an engine with the given pool
    size and exclusion patterns and the defaults otherwise. *)
Definition content_comparison_function (fs : Fs) (rt : Runtime)
    (cpu_count : option Z) (source_path extracted_path : Path)
    (comparison_mode : string) (max_workers : option Z)
    (exclude_patterns : option (list string)) : exn + ComparisonResult :=
  content_comparison (new_engine max_workers cpu_count 8192 exclude_patterns false true)
    fs rt source_path extracted_path comparison_mode.

(** A tree with the files [a] and [c] under [/src] and [b] and [c] under
    [/dst]; every file has 5 bytes. *)
Definition two_sided_fs : Fs :=
  mkFs (λ _, true)
    (λ root, if bool_decide (root = ["/"; "src"])
             then inr [root ++ ["a"]; root ++ ["c"]]
             else inr [root ++ ["b"]; root ++ ["c"]])
    (λ _, false) (λ _, false) (λ _, true)
    (λ _, inr (5, 0%Q, 420)) (λ _, inr "ab12") (λ _ _, false) (λ _, "") (λ _, "").

(** The same tree with files whose content cannot be read. *)
Definition unreadable_two_sided_fs : Fs :=
  mkFs (fs_exists two_sided_fs) (fs_rglob two_sided_fs) (fs_is_symlink two_sided_fs)
    (fs_is_dir two_sided_fs) (fs_is_file two_sided_fs) (fs_stat two_sided_fs)
    (λ _, inl permission_denied) (fnmatch two_sided_fs) (fmt_oct two_sided_fs)
    (fmt_float two_sided_fs).

(** What [collect_files] finds under [/src] and [/dst] of that tree. *)
Definition two_sided_source : gmap string Path :=
  {[ "a" := ["/"; "src"; "a"]; "c" := ["/"; "src"; "c"] ]}.
Definition two_sided_target : gmap string Path :=
  {[ "b" := ["/"; "dst"; "b"]; "c" := ["/"; "dst"; "c"] ]}.

(** A runtime that walks sets and completes tasks in reverse order. *)
Definition reverse_runtime : Runtime :=
  mkRuntime (λ s, reverse (elements s)) reverse.

(** Nothing exists. *)
Definition absent_fs : Fs :=
  mkFs (λ _, false) (λ _, inl (Exn FileNotFoundError "No such file or directory"))
    (λ _, false) (λ _, false) (λ _, false)
    (λ _, inl (Exn FileNotFoundError "No such file or directory"))
    (λ _, inl (Exn FileNotFoundError "No such file or directory"))
    (λ _ _, false) (λ _, "") (λ _, "").

End ComparisonExtra.

(** *** The detailed report *)

Module ComparisonReport.
Import PyStr PyPath Comparison.

(** [DifferenceType.value] *)
Definition type_value (ty : DifferenceType) : string :=
  match ty with
  | MISSING_SOURCE => "missing_source"
  | MISSING_TARGET => "missing_target"
  | SIZE_MISMATCH => "size_mismatch"
  | CONTENT_MISMATCH => "content_mismatch"
  | METADATA_MISMATCH => "metadata_mismatch"
  | PERMISSION_MISMATCH => "permission_mismatch"
  | TIMESTAMP_MISMATCH => "timestamp_mismatch"
  | TYPE_MISMATCH => "type_mismatch"
  end.

(** [s.upper()] on the ASCII range *)
Definition upper_ascii (c : ascii) : ascii :=
  let n := nat_of_ascii c in
  if (97 <=? n)%nat && (n <=? 122)%nat then ascii_of_nat (n - 32) else c.

Fixpoint upper (s : string) : string :=
  match s with
  | EmptyString => EmptyString
  | String c s' => String (upper_ascii c) (upper s')
  end.

(** [s.replace(a, b)] for single characters *)
Fixpoint replace_char (a b : ascii) (s : string) : string :=
  match s with
  | EmptyString => EmptyString
  | String c s' => String (if Ascii.eqb c a then b else c) (replace_char a b s')
  end.

(** [c * n] for a one-character string *)
Fixpoint repeat_char (c : ascii) (n : nat) : string :=
  match n with
  | O => EmptyString
  | S n' => String c (repeat_char c n')
  end.

(** The [by_type] dictionary, in insertion order: one turn of the
    grouping loop. *)
Fixpoint by_type_append (by_type : list (DifferenceType * list FileDifference))
    (diff : FileDifference) : list (DifferenceType * list FileDifference) :=
  match by_type with
  | [] => [(difference_type diff, [diff])]
  | (ty, diffs) :: rest =>
      if bool_decide (ty = difference_type diff) then (ty, diffs ++ [diff]) :: rest
      else (ty, diffs) :: by_type_append rest diff
  end.

(** [by_type.get(diff_type)] *)
Fixpoint by_type_get (ty : DifferenceType)
    (by_type : list (DifferenceType * list FileDifference))
  : option (list FileDifference) :=
  match by_type with
  | [] => None
  | (ty', diffs) :: rest =>
      if bool_decide (ty' = ty) then Some diffs else by_type_get ty rest
  end.

Definition group_by_type (differences : list FileDifference)
  : list (DifferenceType * list FileDifference) :=
  foldl by_type_append [] differences.

(** The lines for one difference. *)
Definition entry_lines (diff : FileDifference) : list string :=
  ["  • " +:+ path_str (diff_path diff)]
  ++ (if bool_decide (details diff = "") then [] else ["    " +:+ details diff])
  ++ [""].

(** The lines for one type: a title with the number of files, the first
    10 differences, and a count of the others. *)
Definition group_lines (group : DifferenceType * list FileDifference) : list string :=
  let '(diff_type, diffs) := group in
  [replace_char "_" " " (upper (type_value diff_type))
   +:+ " (" +:+ str_int (Z.of_nat (length diffs)) +:+ " files):"; ""]
  ++ flat_map entry_lines (take 10 diffs)
  ++ (if (10 <? length diffs)%nat
      then ["  ... and " +:+ str_int (Z.of_nat (length diffs) - 10) +:+ " more files"; ""]
      else []).

(** The part of [generate_detailed_report] between the summary and the
    closing rule. *)
Definition difference_lines (differences : list FileDifference) : list string :=
  match differences with
  | [] => []
  | _ =>
      ["DIFFERENCES FOUND:"; repeat_char "-" 40; ""]
      ++ flat_map group_lines (group_by_type differences)
  end.

Definition error_lines (errors : list string) : list string :=
  match errors with
  | [] => []
  | _ =>
      ["ERRORS ENCOUNTERED:"; repeat_char "-" 40; ""]
      ++ map (λ error, "  • " +:+ error) errors ++ [""]
  end.

Definition report_body (r : ComparisonResult) : list string :=
  difference_lines (differences r) ++ error_lines (errors r).

(** The differences the report lists and the number of those it only
    counts. *)
Definition listed (differences : list FileDifference) : list FileDifference :=
  flat_map (λ group, take 10 group.2) (group_by_type differences).

Definition counted_only (differences : list FileDifference) : nat :=
  sum_list_with (λ group, length group.2 - 10)%nat (group_by_type differences).

Definition of_type (ty : DifferenceType) (differences : list FileDifference)
  : list FileDifference :=
  filter (λ d, difference_type d = ty) differences.

End ComparisonReport.

(** *** Reports, notifications and the context managers of the tracker *)

Module ProgressExtra.
Import Progress.

(** [ProgressReport.is_complete] *)
Definition is_complete (r : ProgressReport) : bool := total r <=? current r.

(** [ProgressReport.remaining_items] *)
Definition remaining_items (r : ProgressReport) : Z := Z.max 0 (total r - current r).

(** The times at which [start] calls [_notify_update]. *)
Definition start_notices (now : Q) (t : ProgressTracker) : list Q :=
  match _start_time t with
  | Some _ => []
  | None => [now]
  end.

(** The times at which [update] and [set_current] call [_notify_update],
    the implicit [start()] included. *)
Definition progress_notices (t_start now : Q) (t : ProgressTracker) : list Q :=
  start_notices t_start t
  ++ (let t := match _start_time t with None => start t_start t | Some _ => t end in
      if Qle_bool (update_interval t) (now - _last_update_time t) then [now] else []).

(** The timed notifications of a call on the tracker itself. *)
Definition op_notices (op : Op) (t : ProgressTracker) : list Q :=
  match op with
  | OpStart now => start_notices now t
  | OpUpdate t_start now _ _ => progress_notices t_start now t
  | OpSetCurrent t_start now _ _ => progress_notices t_start now t
  | _ => []
  end.

Fixpoint run_notices (ops : list Op) (t : ProgressTracker) : list Q :=
  match ops with
  | [] => []
  | op :: ops => op_notices op t ++ run_notices ops (apply_op op t)
  end.

(** Consecutive entries of [l] are at least [d] apart, the first one at
    least [d] after [prev]. *)
Fixpoint spaced_from (d prev : Q) (l : list Q) : Prop :=
  match l with
  | [] => True
  | x :: l' => (d <= x - prev)%Q ∧ spaced_from d x l'
  end.

Definition spaced (d : Q) (l : list Q) : Prop :=
  match l with
  | [] => True
  | x :: l' => spaced_from d x l'
  end.

(** The clock value a call stores as start time when the tracker was not
    started before. *)
Definition clock_of_start (op : Op) : option Q :=
  match op with
  | OpStart now => Some now
  | OpUpdate t_start _ _ _ => Some t_start
  | OpSetCurrent t_start _ _ _ => Some t_start
  | _ => None
  end.

(** A call that does not move the position backwards by itself. *)
Definition forward (op : Op) : Prop :=
  match op with
  | OpUpdate _ _ items_processed _ => 0 ≤ items_processed
  | _ => True
  end.

(** A call of [finish] on the tracker itself. *)
Definition is_finish (op : Op) : Prop :=
  match op with
  | OpFinish _ => True
  | _ => False
  end.

(** [operation_context]: [body] is what the [with] block does to the
    tracker, and the exception it ends with, if any. *)
Definition operation_context (now : Q)
    (body : ProgressTracker → ProgressTracker * option exn) (t : ProgressTracker)
  : ProgressTracker * option exn :=
  let '(t, outcome) := body (start now t) in
  (if negb (_is_finished t) then finish "Complete" t else t, outcome).

(** [track_operation] *)
Definition track_operation (now : Q) (operation_id : string) (total_items : Z)
    (mode : ProgressMode) (update_interval : Q) (unit_ : ProgressUnit)
  : ProgressTracker :=
  start now (new_tracker operation_id total_items mode update_interval unit_).

(** [progress_context] *)
Definition progress_context (now : Q) (operation_id : string) (total_items : Z)
    (mode : ProgressMode) (update_interval : Q) (unit_ : ProgressUnit)
    (body : ProgressTracker → ProgressTracker * option exn)
  : ProgressTracker * option exn :=
  operation_context now body
    (new_tracker operation_id total_items mode update_interval unit_).

(** A [with] block that makes the calls [ops] and then ends with [outcome]. *)
Definition block (ops : list Op) (outcome : option exn)
  : ProgressTracker → ProgressTracker * option exn :=
  λ t, (run_ops ops t, outcome).

(** [d.get(k)] on a [dict] kept as an association list *)
Fixpoint dict_get {V} (k : string) (d : list (string * V)) : option V :=
  match d with
  | [] => None
  | (k', v) :: d' => if bool_decide (k' = k) then Some v else dict_get k d'
  end.

(** What a report says about the operation itself, its sub-operations
    apart. *)
Definition own_report (r : ProgressReport)
  : string * Z * Z * Q * Q * option Q * option Q * string * string :=
  (operation_id r, current r, total r, percentage r, elapsed_time r, eta r,
   throughput r, throughput_unit r, custom_message r).

(** [_format_bytes]: the loop that picks the unit, and the number it has
    arrived at when it returns.  Dividing a finite binary floating-point
    number of at least 1024 by 1024 is exact, so the rationals follow the
    floats here. *)
Fixpoint scale_bytes (units : list string) (bytes_count : Q) : Q * string :=
  match units with
  | [] => (bytes_count, "PB")
  | unit :: rest =>
      if negb (Qle_bool 1024 bytes_count) then (bytes_count, unit)
      else scale_bytes rest (bytes_count / 1024)
  end.

Definition byte_units : list string := ["B"; "KB"; "MB"; "GB"; "TB"].

(** [fmt_1f] is the format [:.1f]. *)
Definition _format_bytes (fmt_1f : Q → string) (bytes_count : Q) : string :=
  let '(x, unit) := scale_bytes byte_units bytes_count in
  fmt_1f x +:+ unit.

End ProgressExtra.

(** * Properties of the extraction engine *)

Module ExtractionProofs.
Import PyStr PyPath Extraction ExtractionSpec.

(** *** Strings *)


Lemma contains_of_startswith p s : startswith p s = true → contains p s = true.
Proof. destruct s; simpl; intros ->; done. Qed.

Lemma contains_cons p c s : contains p s = true → contains p (String c s) = true.
Proof. simpl. intros ->. by rewrite orb_true_r. Qed.


(** *** Paths *)

Lemma relative_to_inr self other rest :
  relative_to self other = inr rest ↔ self = other ++ rest.
Proof.
  revert self. induction other as [|o other IH]; intros self.
  - simpl. split; congruence.
  - destruct self as [|s self]; simpl.
    + split; [done | intros [=]].
    + case_bool_decide as Ho.
      * subst. rewrite IH. split; [by intros -> | by intros [= ->]].
      * split; [done | intros [= -> ->]; done].
Qed.

Lemma relative_to_prefix self other :
  (∃ rest, relative_to self other = inr rest) ↔ other `prefix_of` self.
Proof.
  split.
  - intros [rest ?%relative_to_inr]. by exists rest.
  - intros [rest ->]. exists rest. by apply relative_to_inr.
Qed.

(** *** The validator *)

Lemma validate_true_iff E member_path extraction_dir :
  _validate_path_security E member_path extraction_dir = true ↔
  contains ".." (normpath member_path) = false
  ∧ startswith "/" (normpath member_path) = false
  ∧ resolved_inside E extraction_dir member_path.
Proof.
  unfold _validate_path_security, resolved_inside.
  destruct (contains ".." (normpath member_path)); cbn [orb].
  { split; [done | by intros (? & _)]. }
  destruct (startswith "/" (normpath member_path)); cbn [orb].
  { split; [done | by intros (_ & ? & _)]. }
  destruct (relative_to _ _) as [e|rest] eqn:Hrel.
  - split; [done|]. intros (_ & _ & Hpre).
    apply relative_to_prefix in Hpre as [rest Hrest]. congruence.
  - split; [|done]. intros _. split_and!; [done..|].
    apply relative_to_prefix. eauto.
Qed.


Lemma validate_rejects_dotdot E member_path extraction_dir :
  contains ".." (normpath member_path) = true →
  _validate_path_security E member_path extraction_dir = false.
Proof. intros H. unfold _validate_path_security. by rewrite H. Qed.

(** *** One turn of the member loop *)

Ltac unfold_M :=
  unfold mbind, M_bind, bind, mret, M_ret, ret, raise, lift, lift_unit,
    modify_metadata, emit, try_except, _check_interrupted.

Lemma extract_member_interrupted E cb dir n i m w :
  interrupted E (w_polls w) = true →
  extract_member E cb dir n i m w = (poll_world w, inl interrupted_exn).
Proof.
  intros Hint. unfold extract_member. unfold_M. by rewrite Hint.
Qed.

Lemma extract_member_rejected E cb dir n i m w :
  interrupted E (w_polls w) = false →
  accepted E dir m = false →
  ∃ msg, member_warning E dir m = [msg]
         ∧ extract_member E cb dir n i m w = (skip_world w msg, inr tt).
Proof.
  intros Hint Hacc. unfold accepted in Hacc. unfold member_warning, extract_member.
  unfold_M. rewrite Hint.
  destruct (_validate_path_security E (name m) dir); cbn [negb andb] in *.
  - destruct (MAX_EXTRACT_SIZE <? size m); [|done]. eauto.
  - eauto.
Qed.

Lemma extract_member_accepted E cb dir n i m w :
  interrupted E (w_polls w) = false →
  accepted E dir m = true →
  ∃ w' tl,
    extract_member E cb dir n i m w = (w', inr tt)
    ∧ w_polls w' = S (w_polls w)
    ∧ w_temp_dirs w' = w_temp_dirs w
    ∧ warnings (w_metadata w') = warnings (w_metadata w)
    ∧ w_trace w' = w_trace w ++ LibExtract i m dir :: tl
    ∧ lib_calls tl = [].
Proof.
  intros Hint Hacc. unfold accepted in Hacc.
  apply andb_true_iff in Hacc as [Hval Hsize]. apply negb_true_iff in Hsize.
  unfold extract_member. unfold_M. rewrite Hint, Hval, Hsize. cbn [negb].
  destruct (lib_extract E i m dir) as [e|].
  { eexists _, []. cbn. split_and!; done. }
  unfold call_progress.
  destruct (is_file m), cb as [f|]; unfold_M; cbn;
    try (eexists _, []; cbn; split_and!; done);
    destruct (f _ _); eexists _, [_]; cbn; rewrite <- ?app_assoc; cbn;
    split_and!; done.
Qed.

(** The expected calls of a concatenation. *)
Lemma accepted_calls_app E dir i l1 l2 :
  accepted_calls E dir i (l1 ++ l2)
  = accepted_calls E dir i l1 ++ accepted_calls E dir (i + length l1) l2.
Proof.
  revert i. induction l1 as [|m l1 IH]; intros i; cbn.
  - by rewrite Nat.add_0_r.
  - rewrite IH, <- app_assoc. do 3 f_equal. lia.
Qed.

Lemma lib_calls_app tr1 tr2 : lib_calls (tr1 ++ tr2) = lib_calls tr1 ++ lib_calls tr2.
Proof. apply omap_app. Qed.

(** What a run of the member loop does: it handles the first [k] members
    in order and stops early only when the interruption flag is found
    set. *)
Lemma extract_members_run E cb dir n members : ∀ i w w' r,
  extract_members E cb dir n i members w = (w', r) →
  ∃ (k : nat) (new : list Event),
    (k ≤ length members)%nat
    ∧ (∀ j, (j < k)%nat → interrupted E (w_polls w + j) = false)
    ∧ match r with
      | inr _ => k = length members ∧ w_polls w' = (w_polls w + k)%nat
      | inl e => e = interrupted_exn ∧ (k < length members)%nat
                 ∧ interrupted E (w_polls w + k) = true
                 ∧ w_polls w' = S (w_polls w + k)
      end
    ∧ w_temp_dirs w' = w_temp_dirs w
    ∧ warnings (w_metadata w')
      = warnings (w_metadata w) ++ flat_map (member_warning E dir) (take k members)
    ∧ w_trace w' = w_trace w ++ new
    ∧ lib_calls new = accepted_calls E dir i (take k members).
Proof.
  induction members as [|m members IH]; intros i w w' r Hrun.
  - cbn in Hrun. injection Hrun as <- <-. exists 0%nat, [].
    cbn. rewrite !app_nil_r, Nat.add_0_r. split_and!; try done. intros; lia.
  - cbn [extract_members] in Hrun. unfold mbind, M_bind, bind in Hrun.
    destruct (interrupted E (w_polls w)) eqn:Hint.
    { rewrite (extract_member_interrupted _ _ _ _ _ _ _ Hint) in Hrun.
      injection Hrun as <- <-. exists 0%nat, []. cbn.
      rewrite !app_nil_r, Nat.add_0_r. split_and!; try done; try lia. }
    destruct (accepted E dir m) eqn:Hacc.
    + destruct (extract_member_accepted E cb dir n i m w Hint Hacc)
        as (w1 & tl & Hstep & Hp & Ht & Hw & Htr & Htl).
      rewrite Hstep in Hrun.
      apply IH in Hrun as (k & new & Hk & Hno & Hr & Ht' & Hw' & Htr' & Hcalls).
      exists (S k), (LibExtract i m dir :: tl ++ new). split_and!.
      * cbn. lia.
      * intros [|j] ?; [by rewrite Nat.add_0_r|].
        replace (w_polls w + S j)%nat with (w_polls w1 + j)%nat by lia.
        apply Hno. lia.
      * replace (w_polls w + S k)%nat with (w_polls w1 + k)%nat by lia.
        destruct r as [e|u]; cbn [length]; [|destruct Hr as [-> ->]; done].
        destruct Hr as (-> & ? & ? & ->). split_and!; [done|lia|done..].
      * congruence.
      * rewrite Hw', Hw. cbn [take flat_map]. unfold member_warning at 2.
        unfold accepted in Hacc. apply andb_true_iff in Hacc as [-> Hs].
        apply negb_true_iff in Hs. rewrite Hs. done.
      * rewrite Htr', Htr, <- app_assoc. done.
      * cbn [take accepted_calls]. rewrite Hacc.
        change (LibExtract i m dir :: tl ++ new)
          with ([LibExtract i m dir] ++ tl ++ new).
        rewrite !lib_calls_app, Htl, Hcalls. done.
    + destruct (extract_member_rejected E cb dir n i m w Hint Hacc)
        as (msg & Hmsg & Hstep).
      rewrite Hstep in Hrun.
      apply IH in Hrun as (k & new & Hk & Hno & Hr & Ht' & Hw' & Htr' & Hcalls).
      exists (S k), new. split_and!.
      * cbn. lia.
      * intros [|j] ?; [by rewrite Nat.add_0_r|].
        replace (w_polls w + S j)%nat with (w_polls (skip_world w msg) + j)%nat
          by (cbn; lia).
        apply Hno. lia.
      * replace (w_polls w + S k)%nat with (w_polls (skip_world w msg) + k)%nat
          by (cbn; lia).
        destruct r as [e|u]; cbn [length]; [|destruct Hr as [-> ->]; done].
        destruct Hr as (-> & ? & ? & ->). split_and!; [done|lia|done..].
      * done.
      * rewrite Hw'. cbn [take flat_map]. rewrite Hmsg. cbn. by rewrite <- app_assoc.
      * done.
      * cbn [take accepted_calls]. rewrite Hacc. done.
Qed.

Lemma lib_calls_elem j m d tr :
  (j, m, d) ∈ lib_calls tr ↔ LibExtract j m d ∈ tr.
Proof.
  unfold lib_calls. rewrite list_elem_of_omap. split.
  - intros ([] & Hin & Heq); simplify_eq. done.
  - intros Hin. by exists (LibExtract j m d).
Qed.

Lemma accepted_calls_elem E dir i members j m d :
  (j, m, d) ∈ accepted_calls E dir i members ↔
  d = dir ∧ (i ≤ j)%nat ∧ members !! (j - i)%nat = Some m ∧ accepted E dir m = true.
Proof.
  revert i. induction members as [|m0 members IH]; intros i; cbn [accepted_calls].
  - rewrite elem_of_nil, lookup_nil. split; [done | by intros (_ & _ & ? & _)].
  - rewrite elem_of_app, IH. split.
    + intros [Hhd|(-> & Hle & Hlk & Hacc)].
      * destruct (accepted E dir m0) eqn:Hacc; [|by apply elem_of_nil in Hhd].
        apply list_elem_of_singleton in Hhd. simplify_eq.
        rewrite Nat.sub_diag. done.
      * split_and!; [done|lia| |done].
        replace (j - i)%nat with (S (j - S i)) by lia. done.
    + intros (-> & Hle & Hlk & Hacc).
      destruct (decide (j = i)) as [->|Hne].
      * left. rewrite Nat.sub_diag in Hlk. cbn in Hlk. simplify_eq.
        rewrite Hacc. by apply list_elem_of_singleton.
      * right. split_and!; [done|lia| |done].
        replace (j - i)%nat with (S (j - S i)) in Hlk by lia. done.
Qed.




Lemma extract_member_unsafe E cb dir n i m w :
  interrupted E (w_polls w) = false →
  _validate_path_security E (name m) dir = false →
  extract_member E cb dir n i m w
  = (skip_world w ("Skipped unsafe path: " +:+ name m), inr tt).
Proof.
  intros Hint Hval.
  destruct (extract_member_rejected E cb dir n i m w Hint) as (msg & Hmsg & ->).
  { unfold accepted. by rewrite Hval. }
  unfold member_warning in Hmsg. rewrite Hval in Hmsg. by simplify_eq/=.
Qed.

(** A run that is never interrupted handles every member. *)
Lemma extract_members_complete E cb dir n i members w w' r :
  extract_members E cb dir n i members w = (w', r) →
  (∀ j, (j < length members)%nat → interrupted E (w_polls w + j) = false) →
  r = inr tt
  ∧ warnings (w_metadata w')
    = warnings (w_metadata w) ++ flat_map (member_warning E dir) members
  ∧ ∃ new, w_trace w' = w_trace w ++ new
           ∧ lib_calls new = accepted_calls E dir i members.
Proof.
  intros (k & new & Hk & Hno & Hr & _ & Hw & Htr & Hcalls)%extract_members_run Hnever.
  destruct r as [e|[]].
  - destruct Hr as (_ & Hlt & Hi & _). rewrite Hnever in Hi; done.
  - destruct Hr as [-> _]. rewrite firstn_all in Hw, Hcalls. eauto.
Qed.

(** [_extract_tar] and [_extract_zip] are the member loop started at index
    0 on the members the library lists, after the totals were recorded. *)
Lemma extract_tar_members E cb backup_path dir members w :
  tar_open E backup_path (tar_mode backup_path) = inr members →
  _extract_tar E cb backup_path dir w
  = extract_members E cb dir (length members) 0 members
      (with_metadata w (set_totals (Z.of_nat (length members)) (sum_sizes members)
                          (w_metadata w))).
Proof.
  intros Hopen. unfold _extract_tar, extract_archive. unfold_M. by rewrite Hopen.
Qed.

Lemma extract_zip_members E cb backup_path dir members w :
  zip_open E backup_path = inr members →
  _extract_zip E cb backup_path dir w
  = extract_members E cb dir (length members) 0 members
      (with_metadata w (set_totals (Z.of_nat (length members)) (sum_sizes members)
                          (w_metadata w))).
Proof.
  intros Hopen. unfold _extract_zip, extract_archive. unfold_M. by rewrite Hopen.
Qed.

(** *** The properties *)





(** C10. The validator looks for the two characters [..] anywhere in the
    normalised path, not for a parent-directory component: every such
    member is rejected, also a name like [foo..bar], which has no parent
    segment, is not absolute and resolves inside the destination root.
    When the loop reaches such a member it skips it with a warning, and it
    never hands one to the archive library. *)
Theorem dotdot_substring_rejected E cb dir n :
  (∀ p, contains ".." (normpath p) = true → _validate_path_security E p dir = false)
  ∧ (normpath "foo..bar" = "foo..bar"
     ∧ ¬ has_parent_segment (normpath "foo..bar")
     ∧ ¬ is_absolute (normpath "foo..bar")
     ∧ (resolve E (resolve E dir ++ ["foo..bar"]) = resolve E dir ++ ["foo..bar"] →
        ¬ unsafe_member E dir "foo..bar")
     ∧ _validate_path_security E "foo..bar" dir = false)
  ∧ (∀ i m w, contains ".." (normpath (name m)) = true →
       interrupted E (w_polls w) = false →
       extract_member E cb dir n i m w
       = (skip_world w ("Skipped unsafe path: " +:+ name m), inr tt))
  ∧ (∀ i members w w' r, extract_members E cb dir n i members w = (w', r) →
       ∃ new, w_trace w' = w_trace w ++ new
         ∧ ∀ j m d, LibExtract j m d ∈ new → contains ".." (normpath (name m)) = false).
Proof.
  split; [|split; [|split]].
  - intros p. apply validate_rejects_dotdot.
  - split_and!.
    + reflexivity.
    + unfold has_parent_segment. vm_compute. by intros ?%list_elem_of_singleton.
    + unfold is_absolute. vm_compute. done.
    + intros Hres [Hseg|[Habs|Hout]].
      * revert Hseg. unfold has_parent_segment. vm_compute.
        by intros ?%list_elem_of_singleton.
      * revert Habs. unfold is_absolute. vm_compute. done.
      * apply Hout. unfold resolved_inside.
        change (truediv (resolve E dir) (normpath "foo..bar"))
          with (resolve E dir ++ ["foo..bar"]).
        rewrite Hres. by apply prefix_app_r.
    + by apply validate_rejects_dotdot.
  - intros i m w Hdots Hint. apply extract_member_unsafe; [done|].
    by apply validate_rejects_dotdot.
  - intros i members w w' r Hrun.
    destruct (extract_members_run _ _ _ _ _ _ _ _ _ Hrun)
      as (k0 & new & _ & _ & _ & _ & _ & Htr & Hcalls).
    exists new. split; [done|]. intros j m d Hin.
    apply lib_calls_elem in Hin. rewrite Hcalls in Hin.
    apply accepted_calls_elem in Hin as (_ & _ & _ & Hacc).
    apply andb_true_iff in Hacc as [Hval _].
    apply validate_true_iff in Hval. tauto.
Qed.

Lemma dotdot_substring_rejected_witness :
  let E := plain_env sample_members never in
  extract_member E None ["/"; "restore"] 5 2 (mkMember "foo..bar" 1 true) initial_world
  = (skip_world initial_world "Skipped unsafe path: foo..bar", inr tt)
  ∧ ¬ unsafe_member E ["/"; "restore"] "foo..bar".
Proof.
  intros E.
  pose proof (dotdot_substring_rejected E None ["/"; "restore"] 5%nat)
    as (_ & (_ & _ & _ & Hsafe & _) & Hskip & _).
  split.
  - apply (Hskip 2%nat (mkMember "foo..bar" 1 true) initial_world); reflexivity.
  - apply Hsafe. reflexivity.
Defined.

(** *** The result of [test_extraction] *)

(** Whatever happens, the result carries the final metadata and its
    counters; a failed result carries the message of the exception, which
    is also the last entry of [errors]. *)
Lemma test_extraction_result_shape E backup_path extraction_dir cb w :
  let '(w', r) := test_extraction E backup_path extraction_dir cb w in
  metadata r = w_metadata w'
  ∧ file_count r = extracted_files (metadata r)
  ∧ result_total_size r = extracted_size (metadata r)
  ∧ (success r = true → error_message r = None)
  ∧ (success r = false →
       ∃ msg, error_message r = Some msg ∧ last (errors (metadata r)) = Some msg).
Proof.
  unfold test_extraction.
  destruct (preflight_and_detect E backup_path _) as [w1 [e|fmt]].
  { cbn. split_and!; try done. intros _. eexists. split; [done|]. apply last_snoc. }
  destruct extraction_dir as [d|].
  - destruct (mkdir E d) as [e|].
    { cbn. split_and!; try done. intros _. eexists. split; [done|]. apply last_snoc. }
    destruct (checksum_and_extract E cb fmt backup_path d w1) as [w3 [e|c]].
    { cbn. split_and!; try done. intros _. eexists. split; [done|]. apply last_snoc. }
    cbn. split_and!; done.
  - destruct (_create_secure_temp_dir E w1) as [w2 [e|p]].
    { cbn. split_and!; try done. intros _. eexists. split; [done|]. apply last_snoc. }
    cbn. destruct (checksum_and_extract E cb fmt backup_path p w2) as [w3 [e|c]].
    { cbn. split_and!; try done. intros _. eexists. split; [done|]. apply last_snoc. }
    cbn. split_and!; done.
Qed.

(** C4, at the input on which the code departs from it.  A Qdrant
    snapshot that is a readable tar archive is being extracted; the
    interruption flag is found set at the first member.  [_extract_tar]
    raises the interruption error, but the handler of
    [_extract_qdrant_snapshot] catches it like a tar failure and copies the
    file: the result reports success, no error message, no error entry and
    one file.  The same archive under a [.tar] name yields the failed
    result the specification describes. *)
Theorem qdrant_interruption_swallowed :
  let E := plain_env sample_members (λ k, (1 <=? k)%nat) in
  let dest := ["/"; "restore"] in
  let polled := mkWorld fresh_metadata [] 1 [] in
  let r := (test_extraction E ["/"; "backups"; "db.snapshot"] (Some dest) None
              initial_world).2 in
  let r_tar := (test_extraction E ["/"; "backups"; "db.tar"] (Some dest) None
                  initial_world).2 in
  (_extract_tar E None ["/"; "backups"; "db.snapshot"] dest polled).2
  = inl interrupted_exn
  ∧ format_detected r = "qdrant"
  ∧ success r = true
  ∧ error_message r = None
  ∧ errors (metadata r) = []
  ∧ file_count r = 1
  ∧ success r_tar = false
  ∧ error_message r_tar = Some "Extraction interrupted by user"
  ∧ file_count r_tar = 0.
Proof. vm_compute. split_and!; reflexivity. Qed.

End ExtractionProofs.

(** * Properties of the comparison engine *)

Module ComparisonProofs.
Import PyStr PyPath Comparison ComparisonSpec.

(** *** The three accumulation loops *)

Lemma foldl_add_missing_target r l :
  let r' := foldl add_missing_target r l in
  files_missing_target r' = files_missing_target r + Z.of_nat (length l)
  ∧ files_missing_source r' = files_missing_source r
  ∧ files_identical r' = files_identical r
  ∧ files_different r' = files_different r
  ∧ errors r' = errors r
  ∧ differences r'
    = differences r
      ++ map (missing_difference MISSING_TARGET
                "File exists in source but not in target") l.
Proof.
  revert r. induction l as [|k l IH]; intros r; cbn [foldl length map].
  - rewrite app_nil_r. split_and!; try done. lia.
  - destruct (IH (add_missing_target r k)) as (H1 & H2 & H3 & H4 & H5 & H6).
    cbn zeta in *. rewrite H1, H2, H3, H4, H5, H6. cbn.
    rewrite <- app_assoc. split_and!; try done. lia.
Qed.

Lemma foldl_add_missing_source r l :
  let r' := foldl add_missing_source r l in
  files_missing_source r' = files_missing_source r + Z.of_nat (length l)
  ∧ files_missing_target r' = files_missing_target r
  ∧ files_identical r' = files_identical r
  ∧ files_different r' = files_different r
  ∧ errors r' = errors r
  ∧ differences r'
    = differences r
      ++ map (missing_difference MISSING_SOURCE
                "File exists in target but not in source") l.
Proof.
  revert r. induction l as [|k l IH]; intros r; cbn [foldl length map].
  - rewrite app_nil_r. split_and!; try done. lia.
  - destruct (IH (add_missing_source r k)) as (H1 & H2 & H3 & H4 & H5 & H6).
    cbn zeta in *. rewrite H1, H2, H3, H4, H5, H6. cbn.
    rewrite <- app_assoc. split_and!; try done. lia.
Qed.

Lemma collect_future_step fs mode_ sf tf r k :
  let c := collect_future fs mode_ sf tf r k in
  let d := pair_differences fs mode_ sf tf k in
  files_identical c = files_identical r + (if decide (d = []) then 1 else 0)
  ∧ files_different c = files_different r + (if decide (d = []) then 0 else 1)
  ∧ files_missing_source c = files_missing_source r
  ∧ files_missing_target c = files_missing_target r
  ∧ errors c = errors r
  ∧ differences c = differences r ++ d.
Proof.
  unfold collect_future, future_result, pair_differences.
  destruct (compare_file_pair fs k (sf !!! k) (tf !!! k) mode_) as [diffs bytes].
  cbn. destruct (decide (diffs = [])) as [->|Hne].
  - rewrite bool_decide_eq_true_2 by done. split_and!; try done; lia.
  - rewrite bool_decide_eq_false_2 by done. split_and!; try done; lia.
Qed.

Lemma foldl_collect_future fs mode_ sf tf r l :
  let r' := foldl (collect_future fs mode_ sf tf) r l in
  files_identical r'
  = files_identical r
    + Z.of_nat (length (filter (λ k, pair_differences fs mode_ sf tf k = []) l))
  ∧ files_identical r' + files_different r'
    = files_identical r + files_different r + Z.of_nat (length l)
  ∧ files_missing_source r' = files_missing_source r
  ∧ files_missing_target r' = files_missing_target r
  ∧ errors r' = errors r
  ∧ differences r'
    = differences r ++ flat_map (pair_differences fs mode_ sf tf) l.
Proof.
  revert r. induction l as [|k l IH]; intros r; cbn [foldl length flat_map].
  - rewrite app_nil_r. cbn. split_and!; try done; lia.
  - destruct (IH (collect_future fs mode_ sf tf r k)) as (H1 & H2 & H3 & H4 & H5 & H6).
    destruct (collect_future_step fs mode_ sf tf r k) as (S1 & S2 & S3 & S4 & S5 & S6).
    cbn zeta in *. rewrite filter_cons.
    split_and!.
    + rewrite H1, S1. destruct (decide (pair_differences fs mode_ sf tf k = []));
        cbn [length]; lia.
    + rewrite H2, S1, S2. destruct (decide (pair_differences fs mode_ sf tf k = []));
        lia.
    + congruence.
    + congruence.
    + congruence.
    + rewrite H6, S6, <- app_assoc. done.
Qed.

(** *** Sizes of the key sets *)

Lemma length_set_order rt (s : gset string) :
  runtime_ok rt → length (set_order rt s) = base.size s.
Proof. intros [Hs _]. by rewrite (Hs s). Qed.

Lemma length_completion_order rt (l : list string) :
  runtime_ok rt → length (completion_order rt l) = length l.
Proof. intros [_ Hc]. by rewrite (Hc l). Qed.

Lemma size_union_three (A B : gset string) :
  base.size (A ∪ B)
  = (base.size (A ∖ B) + base.size (B ∖ A) + base.size (A ∩ B))%nat.
Proof.
  assert (A ∪ B = (A ∖ B) ∪ ((B ∖ A) ∪ (A ∩ B))) as ->.
  { apply set_eq. intros x. destruct (decide (x ∈ A)), (decide (x ∈ B)); set_solver. }
  rewrite size_union by set_solver.
  rewrite (size_union (B ∖ A) (A ∩ B)) by set_solver. lia.
Qed.

(** *** What [compare_collected] computes *)

Lemma common_order_elem rt (sf tf : gmap string Path) key :
  runtime_ok rt → key ∈ common_order rt sf tf ↔ key ∈ dom sf ∩ dom tf.
Proof.
  intros [Hs Hc]. unfold common_order. rewrite (Hc _), (Hs _). apply elem_of_elements.
Qed.

Lemma compare_collected_spec fs rt mode_ sf tf r0 :
  runtime_ok rt →
  let r := compare_collected fs rt mode_ sf tf r0 in
  total_files_processed r = Z.of_nat (base.size (dom sf ∪ dom tf))
  ∧ files_missing_target r
    = files_missing_target r0 + Z.of_nat (base.size (dom sf ∖ dom tf))
  ∧ files_missing_source r
    = files_missing_source r0 + Z.of_nat (base.size (dom tf ∖ dom sf))
  ∧ files_identical r + files_different r
    = files_identical r0 + files_different r0
      + Z.of_nat (base.size (dom sf ∩ dom tf))
  ∧ files_identical r
    = files_identical r0
      + Z.of_nat (length (filter (λ k, pair_differences fs mode_ sf tf k = [])
                            (common_order rt sf tf)))
  ∧ errors r = errors r0
  ∧ differences r
    = differences r0
      ++ map (missing_difference MISSING_TARGET
                "File exists in source but not in target")
             (set_order rt (dom sf ∖ dom tf))
      ++ map (missing_difference MISSING_SOURCE
                "File exists in target but not in source")
             (set_order rt (dom tf ∖ dom sf))
      ++ flat_map (pair_differences fs mode_ sf tf) (common_order rt sf tf).
Proof.
  intros Hrt. unfold compare_collected.
  set (r1 := foldl add_missing_target r0 _).
  set (r2 := foldl add_missing_source r1 _).
  assert ((if bool_decide (dom sf ∩ dom tf = ∅) then r2
           else foldl (collect_future fs mode_ sf tf) r2 (common_order rt sf tf))
          = foldl (collect_future fs mode_ sf tf) r2 (common_order rt sf tf)) as Hif.
  { case_bool_decide as Hempty; [|done].
    assert (common_order rt sf tf = []) as ->; [|done].
    apply length_zero_iff_nil. unfold common_order.
    rewrite length_completion_order, length_set_order, Hempty by done.
    apply size_empty. }
  fold (common_order rt sf tf). rewrite Hif. clear Hif.
  set (r3 := foldl (collect_future fs mode_ sf tf) r2 _).
  destruct (foldl_add_missing_target r0 (set_order rt (dom sf ∖ dom tf)))
    as (A1 & A2 & A3 & A4 & A5 & A6).
  destruct (foldl_add_missing_source r1 (set_order rt (dom tf ∖ dom sf)))
    as (B1 & B2 & B3 & B4 & B5 & B6).
  destruct (foldl_collect_future fs mode_ sf tf r2 (common_order rt sf tf))
    as (C1 & C2 & C3 & C4 & C5 & C6).
  cbn zeta in *. fold r1 in A1, A2, A3, A4, A5, A6.
  fold r2 in B1, B2, B3, B4, B5, B6. fold r3 in C1, C2, C3, C4, C5, C6.
  rewrite length_set_order in A1, B1 by done.
  assert (length (common_order rt sf tf) = base.size (dom sf ∩ dom tf)) as Hlen.
  { unfold common_order. by rewrite length_completion_order, length_set_order. }
  cbn [set_final_statistics total_files_processed files_missing_target
         files_missing_source files_identical files_different errors differences].
  split_and!; try congruence; try lia.
  rewrite C6, B6, A6, <- !app_assoc. done.
Qed.

(** *** The top-level function *)

Lemma content_comparison_inv eng fs rt source target mode_name r :
  content_comparison eng fs rt source target mode_name = inr r →
  ∃ mode_, ComparisonMode_of_string mode_name = inr mode_
    ∧ ((∃ e, comparison_body eng fs rt source target mode_
               (initial_result eng source target mode_) = inl e
             ∧ r = add_result_error (initial_result eng source target mode_)
                     ("Comparison failed: " +:+ str_exn e))
       ∨ (∃ sf tf, fs_exists fs source = true ∧ fs_exists fs target = true
             ∧ collect_files eng fs source = inr sf
             ∧ collect_files eng fs target = inr tf
             ∧ r = compare_collected fs rt mode_ sf tf
                     (initial_result eng source target mode_))).
Proof.
  unfold content_comparison.
  destruct (ComparisonMode_of_string mode_name) as [e|mode_]; [done|].
  intros Hr. exists mode_. split; [done|].
  destruct (comparison_body _ _ _ _ _ _ _) as [e|r'] eqn:Hbody.
  - left. exists e. split; [done|]. congruence.
  - right. unfold comparison_body in Hbody.
    destruct (fs_exists fs source); [|done].
    destruct (fs_exists fs target); [|done]. cbn [negb] in Hbody.
    destruct (collect_files eng fs source) as [?|sf]; [done|].
    destruct (collect_files eng fs target) as [?|tf]; [done|].
    exists sf, tf. split_and!; try done. congruence.
Qed.



(** C5. [success_rate] never divides by zero: it is 100 when nothing was
    processed and [files_identical / total_files_processed * 100]
    otherwise; two empty trees give [total_files_processed = 0] and a
    success rate of 100. *)
Theorem success_rate_guarded :
  (∀ r, total_files_processed r = 0 → success_rate r = Some 100%Q)
  ∧ (∀ r, total_files_processed r ≠ 0 →
       success_rate r
       = Some (inject_Z (files_identical r) / inject_Z (total_files_processed r)
               * 100)%Q)
  ∧ (∀ r, ∃ q, success_rate r = Some q)
  ∧ (∀ eng fs rt source target mode_name mode_,
       ComparisonMode_of_string mode_name = inr mode_ →
       fs_exists fs source = true → fs_exists fs target = true →
       fs_rglob fs source = inr [] → fs_rglob fs target = inr [] →
       ∃ r, content_comparison eng fs rt source target mode_name = inr r
            ∧ total_files_processed r = 0
            ∧ success_rate r = Some 100%Q).
Proof.
  assert (∀ r, total_files_processed r = 0 → success_rate r = Some 100%Q) as H0.
  { intros r Hz. unfold success_rate. by rewrite Hz. }
  assert (∀ r, total_files_processed r ≠ 0 →
            success_rate r
            = Some (inject_Z (files_identical r) / inject_Z (total_files_processed r)
                    * 100)%Q) as H1.
  { intros r Hnz. unfold success_rate, true_div.
    apply Z.eqb_neq in Hnz. by rewrite Hnz. }
  split_and!; [done..| |].
  - intros r. destruct (decide (total_files_processed r = 0)); eauto.
  - intros eng fs rt source target mode_name mode_ Hmode Hs Ht Hrs Hrt.
    unfold content_comparison, comparison_body, collect_files.
    rewrite Hmode, Hs, Ht, Hrs, Hrt. cbn [negb foldl].
    eexists. split; [done|]. split; [|apply H0]; cbn;
      by rewrite dom_empty_L, union_empty_r_L, size_empty.
Qed.

Lemma success_rate_guarded_witness :
  ∃ r, content_comparison default_engine empty_fs plain_runtime
         ["/"; "src"] ["/"; "dst"] "full" = inr r
       ∧ total_files_processed r = 0
       ∧ success_rate r = Some 100%Q.
Proof.
  refine (proj2 (proj2 (proj2 success_rate_guarded))
            default_engine empty_fs plain_runtime ["/"; "src"] ["/"; "dst"]
            "full" FULL _ _ _ _ _); reflexivity.
Defined.

(** *** Comparing a tree with itself *)

Lemma flat_map_all_nil {A B} (f : A → list B) (l : list A) :
  (∀ x, x ∈ l → f x = []) → flat_map f l = [].
Proof.
  induction l as [|x l IH]; intros Hall; [done|]. cbn.
  rewrite Hall by (by left). apply IH. intros y Hy. apply Hall. by right.
Qed.

Lemma filter_all_keep {A} (P : A → Prop) `{∀ x, Decision (P x)} (l : list A) :
  (∀ x, x ∈ l → P x) → filter P l = l.
Proof.
  induction l as [|x l IH]; intros Hall; [done|].
  rewrite filter_cons_True by (apply Hall; by left).
  f_equal. apply IH. intros y Hy. apply Hall. by right.
Qed.

Lemma compare_metadata_self fs md mode_ : compare_metadata fs md md mode_ = [].
Proof.
  unfold compare_metadata.
  rewrite !eqb_reflx, !Z.eqb_refl. cbn [negb orb].
  assert (match checksum md, checksum md with
          | Some cs, Some ct =>
              negb (bool_decide (cs = "")) && negb (bool_decide (ct = ""))
              && negb (bool_decide (cs = ct))
          | _, _ => false
          end = false) as ->.
  { destruct (checksum md) as [cs|]; [|done].
    rewrite (bool_decide_eq_true_2 (cs = cs)) by done. apply andb_false_r. }
  rewrite andb_false_r.
  assert (Qle_bool (Qabs (mtime md - mtime md)) 1 = true) as ->.
  { apply Qle_bool_iff. assert (mtime md - mtime md == 0)%Q as -> by ring. done. }
  cbn [negb app]. by destruct (bool_decide (mode_ = FULL)).
Qed.

Lemma pair_differences_self fs (files : gmap string Path) key :
  readable fs files → key ∈ dom files →
  pair_differences fs FULL files files key = [].
Proof.
  intros Hread [item Hitem]%elem_of_dom.
  destruct (Hread key item Hitem) as [md Hmd].
  unfold pair_differences, compare_file_pair, compare_file_pair_body.
  rewrite (lookup_total_correct _ _ _ Hitem).
  rewrite (bool_decide_eq_true_2 (FULL ∈ [FULL; CHECKSUM_ONLY])) by set_solver.
  rewrite Hmd. cbn [fst]. rewrite compare_metadata_self. by destruct (_ || _).
Qed.

Lemma set_order_empty rt : runtime_ok rt → set_order rt ∅ = [].
Proof.
  intros [Hs _]. apply Permutation_nil_r. by rewrite (Hs ∅), elements_empty.
Qed.

(** C6, as the code has it.  Comparing a tree with itself in [full] mode
    yields no difference and a success rate of 100 provided every entry of
    the tree can be read ([stat] and checksum succeed). *)
Theorem self_comparison_of_readable_tree eng fs rt root r :
  runtime_ok rt →
  content_comparison eng fs rt root root "full" = inr r →
  (∀ files, collect_files eng fs root = inr files → readable fs files) →
  differences r = [] ∧ same_rate (success_rate r) (Some 100%Q).
Proof.
  intros Hrt (mode_ & Hmode & [(e & Hbody & ->)|(sf & tf & _ & _ & Hsf & Htf & ->)])
    %content_comparison_inv Hread.
  { cbn. split; [done|]. reflexivity. }
  assert (mode_ = FULL) as -> by (vm_compute in Hmode; congruence).
  assert (tf = sf) as -> by congruence.
  specialize (Hread sf Hsf).
  destruct (compare_collected_spec fs rt FULL sf sf
              (initial_result eng root root FULL) Hrt)
    as (T & _ & _ & Sum & Id & _ & D).
  cbn [initial_result files_identical files_different differences] in *.
  assert (dom sf ∖ dom sf = (∅ : gset string)) as Hdiff by set_solver.
  assert (∀ key, key ∈ common_order rt sf sf →
                 pair_differences fs FULL sf sf key = []) as Hnone.
  { intros key Hin%common_order_elem; [|done].
    apply pair_differences_self; [done|set_solver]. }
  split.
  - rewrite D, Hdiff, set_order_empty by done. cbn.
    by apply flat_map_all_nil.
  - assert (files_identical (compare_collected fs rt FULL sf sf
                               (initial_result eng root root FULL))
            = total_files_processed (compare_collected fs rt FULL sf sf
                                       (initial_result eng root root FULL)))
      as Hall.
    { rewrite Id, T, filter_all_keep by done. unfold common_order.
      rewrite length_completion_order, length_set_order by done.
      assert (dom sf ∩ dom sf = dom sf ∪ dom sf) as -> by set_solver. lia. }
    unfold success_rate, true_div. rewrite Hall.
    destruct (total_files_processed _ =? 0) eqn:Hz; cbn; [reflexivity|].
    apply Z.eqb_neq in Hz. field. intros Heq.
    apply Hz. unfold Qeq in Heq. cbn in Heq. lia.
Qed.

Lemma self_comparison_of_readable_tree_witness :
  let fs := single_file_fs (inr (5, 0%Q, 420)) (inr "ab12") in
  ∃ r, content_comparison default_engine fs plain_runtime ["/"; "data"] ["/"; "data"]
         "full" = inr r
       ∧ differences r = [] ∧ same_rate (success_rate r) (Some 100%Q).
Proof.
  intros fs. eexists. split; [vm_compute; reflexivity|].
  eapply (self_comparison_of_readable_tree default_engine fs plain_runtime
            ["/"; "data"]).
  - split; intros; reflexivity.
  - vm_compute. reflexivity.
  - intros files _ key item _. eexists. vm_compute. reflexivity.
Defined.

(** C6 as stated fails on a tree that holds a file whose content cannot be
    read: both sides of the pair raise, the handler turns the exception
    into a content-mismatch difference, and the success rate is 0. *)
Lemma self_comparison_unreadable_file :
  ¬ self_comparison_clean
      (single_file_fs (inr (5, 0%Q, 420)) (inl permission_denied)) ["/"; "data"].
Proof.
  intros Hclean. edestruct Hclean as [Hdiffs _]; [vm_compute; reflexivity|].
  discriminate Hdiffs.
Qed.

(** *** A pair whose comparison raises *)





End ComparisonProofs.

(** * Properties of the progress tracker *)

Module ProgressProofs.
Import Progress ProgressSpec.

(** *** Reports *)

Lemma get_report_rates now t :
  throughput (get_report now t) = (_calculate_throughput t).1
  ∧ eta (get_report now t) = _calculate_eta t
  ∧ current (get_report now t) = _current_item t
  ∧ total (get_report now t) = total_items t.
Proof.
  destruct t. cbn [get_report]. destruct (_calculate_throughput _). done.
Qed.

(** *** The window of samples *)

Lemma last_n_window {A} (l : list A) :
  (2 ≤ length l)%nat →
  head (last_n 3 l) = l !! (length l - 3)%nat
  ∧ last (last_n 3 l) = l !! (length l - 1)%nat
  ∧ (2 ≤ length (last_n 3 l))%nat.
Proof.
  intros Hlen. unfold last_n. split_and!.
  - rewrite head_lookup, lookup_drop. f_equal. lia.
  - rewrite last_lookup, lookup_drop, length_drop. f_equal. lia.
  - rewrite length_drop. lia.
Qed.

Lemma push_sample_length x samples :
  (length samples ≤ _max_samples)%nat →
  (length (push_sample x samples) ≤ _max_samples)%nat.
Proof.
  intros Hlen. unfold push_sample.
  destruct (_max_samples <? length (samples ++ [x]))%nat eqn:Hfull.
  - destruct samples as [|s samples]; [done|].
    cbn in *. rewrite length_app. cbn. lia.
  - apply Nat.ltb_ge in Hfull. done.
Qed.

(** The buffer holds the last ten samples pushed. *)
Lemma push_sample_last_n x samples :
  (length samples ≤ _max_samples)%nat →
  push_sample x samples = last_n _max_samples (samples ++ [x]).
Proof.
  intros Hlen. unfold push_sample, last_n.
  destruct (_max_samples <? length (samples ++ [x]))%nat eqn:Hfull.
  - apply Nat.ltb_lt in Hfull. rewrite length_app in *. cbn in *.
    replace (length samples + 1 - _max_samples)%nat with 1%nat by lia.
    by destruct samples.
  - apply Nat.ltb_ge in Hfull.
    replace (length (samples ++ [x]) - _max_samples)%nat with 0%nat by lia. done.
Qed.

Lemma start_samples_length now t :
  (length (_throughput_samples t) ≤ _max_samples)%nat →
  (length (_throughput_samples (start now t)) ≤ _max_samples)%nat.
Proof.
  unfold start. destruct (_start_time t); [done|]. cbn. unfold _max_samples. lia.
Qed.

Lemma apply_op_samples_length op t :
  (length (_throughput_samples t) ≤ _max_samples)%nat →
  (length (_throughput_samples (apply_op op t)) ≤ _max_samples)%nat.
Proof.
  intros Hlen. destruct op; cbn [apply_op].
  - by apply start_samples_length.
  - unfold update, record_progress. cbn [_throughput_samples].
    apply push_sample_length. destruct (_start_time t); [done|].
    by apply start_samples_length.
  - unfold set_current, record_progress. cbn [_throughput_samples].
    apply push_sample_length. destruct (_start_time t); [done|].
    by apply start_samples_length.
  - unfold finish. by destruct (_is_finished t).
  - done.
  - done.
Qed.

Lemma run_ops_samples_length ops t :
  (length (_throughput_samples t) ≤ _max_samples)%nat →
  (length (_throughput_samples (run_ops ops t)) ≤ _max_samples)%nat.
Proof.
  revert t. induction ops as [|op ops IH]; intros t Hlen; [done|].
  cbn. apply IH. by apply apply_op_samples_length.
Qed.

(** *** Rates *)

Lemma rate_positive (d : Z) (td : Q) :
  0 < d → Qle_bool td 0 = false → Qle_bool (inject_Z d / td) 0 = false.
Proof.
  intros Hd Htd. apply not_true_is_false. intros Hle%Qle_bool_iff.
  assert (0 < td)%Q as Hpos.
  { apply Qnot_le_lt. intros H%Qle_bool_iff. congruence. }
  apply (Qlt_not_le _ _ (Qlt_shift_div_l 0 (inject_Z d) td Hpos
           ltac:(rewrite Qmult_0_l; unfold Qlt; cbn; lia))).
  exact Hle.
Qed.

Lemma calculate_throughput_window t first newest :
  (2 ≤ length (_throughput_samples t))%nat →
  _throughput_samples t !! (length (_throughput_samples t) - 3)%nat = Some first →
  _throughput_samples t !! (length (_throughput_samples t) - 1)%nat = Some newest →
  (_calculate_throughput t).1
  = if Qle_bool (newest.1 - first.1) 0 then None
    else Some (inject_Z (newest.2 - first.2) / (newest.1 - first.1))%Q.
Proof.
  intros Hlen Hfirst Hnewest. unfold _calculate_throughput.
  destruct (last_n_window (_throughput_samples t) Hlen) as (Hh & Hl & Hn).
  rewrite (proj2 (Nat.ltb_ge _ _) Hlen), (proj2 (Nat.ltb_ge _ _) Hn).
  rewrite Hh, Hl, Hfirst, Hnewest.
  by destruct (Qle_bool (newest.1 - first.1) 0).
Qed.

Lemma calculate_eta_window t first newest :
  (2 ≤ length (_throughput_samples t))%nat →
  _throughput_samples t !! (length (_throughput_samples t) - 3)%nat = Some first →
  _throughput_samples t !! (length (_throughput_samples t) - 1)%nat = Some newest →
  _calculate_eta t
  = if (_current_item t =? 0) || Qle_bool (newest.1 - first.1) 0
       || (newest.2 - first.2 <=? 0)
    then None
    else Some (inject_Z (total_items t - _current_item t)
               / (inject_Z (newest.2 - first.2) / (newest.1 - first.1)))%Q.
Proof.
  intros Hlen Hfirst Hnewest. unfold _calculate_eta.
  destruct (last_n_window (_throughput_samples t) Hlen) as (Hh & Hl & Hn).
  rewrite (proj2 (Nat.ltb_ge _ _) Hlen), (proj2 (Nat.ltb_ge _ _) Hn).
  rewrite Hh, Hl, Hfirst, Hnewest. cbn [orb].
  destruct (_current_item t =? 0); [done|]. cbn [orb].
  destruct (Qle_bool (newest.1 - first.1) 0) eqn:Htd; [done|]. cbn [orb].
  destruct (newest.2 - first.2 <=? 0) eqn:Hd; [done|].
  apply Z.leb_gt in Hd. by rewrite rate_positive.
Qed.

Lemma few_samples_no_rate t :
  (length (_throughput_samples t) < 2)%nat →
  (_calculate_throughput t).1 = None ∧ _calculate_eta t = None.
Proof.
  intros Hlen%Nat.ltb_lt. unfold _calculate_throughput, _calculate_eta.
  by rewrite Hlen.
Qed.

(** C3, as the code has it.  The throughput and the ETA of a report are a
    two-point rate between the third-last retained sample (the first one
    when there are only two) and the last one; the buffer retains the last
    10 samples; the ETA is [None] when there are fewer than 2 samples and
    when the rate is not positive. *)
Theorem rates_use_three_most_recent_samples now t :
  let samples := _throughput_samples t in
  let n := length samples in
  ((n < 2)%nat →
     throughput (get_report now t) = None ∧ eta (get_report now t) = None)
  ∧ ((2 ≤ n)%nat →
     ∃ first newest,
       samples !! (n - 3)%nat = Some first
       ∧ samples !! (n - 1)%nat = Some newest
       ∧ throughput (get_report now t)
         = (if Qle_bool (newest.1 - first.1) 0 then None
            else Some (inject_Z (newest.2 - first.2) / (newest.1 - first.1))%Q)
       ∧ eta (get_report now t)
         = (if (_current_item t =? 0) || Qle_bool (newest.1 - first.1) 0
               || (newest.2 - first.2 <=? 0)
            then None
            else Some (inject_Z (total_items t - _current_item t)
                       / (inject_Z (newest.2 - first.2) / (newest.1 - first.1)))%Q))
  ∧ (∀ rate, throughput (get_report now t) = Some rate → (rate <= 0)%Q →
       eta (get_report now t) = None)
  ∧ (∀ x, (n ≤ _max_samples)%nat →
       push_sample x samples = last_n _max_samples (samples ++ [x]))
  ∧ (∀ ops, (n ≤ _max_samples)%nat →
       (length (_throughput_samples (run_ops ops t)) ≤ _max_samples)%nat).
Proof.
  intros samples n. subst samples n.
  destruct (get_report_rates now t) as (-> & -> & _ & _).
  pose (samples := _throughput_samples t).
  change (_throughput_samples t) with samples.
  assert ((2 ≤ length samples)%nat →
          ∃ first newest,
            samples !! (length samples - 3)%nat = Some first
            ∧ samples !! (length samples - 1)%nat = Some newest)
    as Hwin.
  { intros Hn.
    destruct (lookup_lt_is_Some_2 samples (length samples - 3)%nat)
      as [first Hf]; [lia|].
    destruct (lookup_lt_is_Some_2 samples (length samples - 1)%nat)
      as [newest Hl]; [lia|].
    eauto. }
  split_and!.
  - apply few_samples_no_rate.
  - intros Hn. destruct (Hwin Hn) as (first & newest & Hf & Hl).
    exists first, newest. split_and!; [done..| |].
    + by apply calculate_throughput_window.
    + by apply calculate_eta_window.
  - intros rate Hrate Hle.
    destruct (decide (length samples < 2)%nat) as [Hn|Hn].
    { destruct (few_samples_no_rate t Hn) as [Hnone _]. congruence. }
    destruct (Hwin ltac:(lia)) as (first & newest & Hf & Hl).
    assert (2 ≤ length (_throughput_samples t))%nat as Hn2 by (fold samples; lia).
    rewrite (calculate_throughput_window t first newest) in Hrate by done.
    rewrite (calculate_eta_window t first newest) by done.
    destruct (Qle_bool (newest.1 - first.1) 0) eqn:Htd; [done|].
    injection Hrate as <-.
    destruct (newest.2 - first.2 <=? 0) eqn:Hd; [by rewrite !orb_true_r|].
    apply Z.leb_gt in Hd. apply Qle_bool_iff in Hle.
    by rewrite rate_positive in Hle.
  - intros x. apply push_sample_last_n.
  - intros ops. apply run_ops_samples_length.
Qed.

Lemma rates_use_three_most_recent_samples_witness :
  same_rate (throughput (get_report 3 sample_run)) (Some (11 # 2)%Q)
  ∧ ∃ first newest,
      _throughput_samples sample_run !! 1%nat = Some first
      ∧ _throughput_samples sample_run !! 3%nat = Some newest
      ∧ throughput (get_report 3 sample_run)
        = (if Qle_bool (newest.1 - first.1) 0 then None
           else Some (inject_Z (newest.2 - first.2) / (newest.1 - first.1))%Q).
Proof.
  split; [vm_compute; reflexivity|].
  destruct (proj1 (proj2 (rates_use_three_most_recent_samples 3 sample_run)))
    as (first & newest & Hf & Hl & Hthr & _).
  { vm_compute. lia. }
  exists first, newest. split_and!; [exact Hf | exact Hl | exact Hthr].
Defined.

(** C3 as stated fails: with four retained samples the reported rate is
    taken between the second and the fourth, 11/2 items per second, not
    between the oldest and the newest, 7 items per second. *)
Lemma throughput_ignores_oldest_sample :
  ¬ same_rate (throughput (get_report 3 sample_run)) (oldest_newest_rate sample_run).
Proof. vm_compute. discriminate. Qed.

(** *** The life cycle *)


Lemma start_is_finished now t : _is_finished (start now t) = _is_finished t.
Proof. unfold start. by destruct (_start_time t). Qed.





End ProgressProofs.

(** * Further properties of the extraction engine *)

Module ExtractionExtraProofs.
Import PyStr PyPath Extraction ExtractionSpec ExtractionExtra ExtractionProofs.

Ltac unfold_monad :=
  unfold mbind, M_bind, bind, mret, M_ret, ret, raise, lift, lift_unit,
    modify_metadata, emit, try_except, _check_interrupted, track_temp_dir.

(** *** Format detection *)

Lemma startswith_both a b s :
  startswith a s = true → startswith b s = true →
  startswith a b = true ∨ startswith b a = true.
Proof.
  revert a b. induction s as [|c s IH]; intros [|x a] [|y b]; cbn; auto; try done.
  intros [Hx Ha]%andb_true_iff [Hy Hb]%andb_true_iff.
  apply Ascii.eqb_eq in Hx, Hy. subst. rewrite Ascii.eqb_refl. cbn. auto.
Qed.

Lemma supported_formats_detectable :
  Forall (λ p : string * string, p.2 ∈ detectable_formats) SUPPORTED_FORMATS.
Proof. refine (bool_decide_unpack _ _). vm_compute. exact I. Qed.

Lemma magic_formats_detectable :
  Forall (λ p : string * string, format_of_magic p.2 ∈ detectable_formats)
         MAGIC_BYTES.
Proof. refine (bool_decide_unpack _ _). vm_compute. exact I. Qed.

(** No extension of the table is the end of another one with a different
    format. *)
Lemma supported_extensions_unambiguous :
  Forall (λ p : string * string,
            Forall (λ q : string * string,
                      endswith (lower p.1) (lower q.1) = true → p.2 = q.2)
                   SUPPORTED_FORMATS)
         SUPPORTED_FORMATS.
Proof. refine (bool_decide_unpack _ _). vm_compute. exact I. Qed.

Lemma find_extension_Some p :
  ∀ ext fmt,
    List.find (λ '(ext, _), endswith (lower ext) (lower (path_name p)))
              SUPPORTED_FORMATS = Some (ext, fmt) →
    (ext, fmt) ∈ SUPPORTED_FORMATS
    ∧ endswith (lower ext) (lower (path_name p)) = true.
Proof.
  intros ext fmt [Hin Hends]%List.find_some. split; [by apply list_elem_of_In|done].
Qed.

Lemma detect_format_range_core E backup_path w w' r :
  _detect_format E backup_path w = (w', r) →
  w' = w
  ∧ match r with
    | inr f => f ∈ detectable_formats
    | inl e =>
        e = Exn ExtractionError
              ("Unsupported or unrecognized format: " +:+ path_str backup_path)
    end.
Proof.
  unfold _detect_format. intros Hrun.
  destruct (List.find _ SUPPORTED_FORMATS) as [[ext fmt]|] eqn:Hext.
  - injection Hrun as <- <-. split; [done|].
    apply find_extension_Some in Hext as [Hin _].
    by pose proof (proj1 (Forall_forall _ _) supported_formats_detectable _ Hin).
  - destruct (read_header E backup_path) as [e|header].
    { injection Hrun as <- <-. done. }
    destruct (List.find _ MAGIC_BYTES) as [[magic fmt]|] eqn:Hmagic.
    + injection Hrun as <- <-. split; [done|].
      apply List.find_some in Hmagic as [Hin%list_elem_of_In _].
      by pose proof (proj1 (Forall_forall _ _) magic_formats_detectable _ Hin).
    + injection Hrun as <- <-. done.
Qed.

Lemma detect_format_extension_first E backup_path ext fmt w :
  (ext, fmt) ∈ SUPPORTED_FORMATS →
  endswith (lower ext) (lower (path_name backup_path)) = true →
  _detect_format E backup_path w = (w, inr fmt).
Proof.
  intros Hin Hends. unfold _detect_format.
  destruct (List.find _ SUPPORTED_FORMATS) as [[ext' fmt']|] eqn:Hfind.
  - apply find_extension_Some in Hfind as [Hin' Hends'].
    assert (fmt' = fmt) as ->; [|done].
    unfold endswith in Hends, Hends'.
    pose proof supported_extensions_unambiguous as Htab.
    rewrite Forall_forall in Htab.
    destruct (startswith_both _ _ _ Hends Hends') as [H|H].
    + symmetry. pose proof (Htab _ Hin) as Hrow. rewrite Forall_forall in Hrow.
      by apply (Hrow _ Hin').
    + pose proof (Htab _ Hin') as Hrow. rewrite Forall_forall in Hrow.
      by apply (Hrow _ Hin).
  - exfalso. apply list_elem_of_In in Hin.
    pose proof (List.find_none _ _ Hfind _ Hin) as Hno. cbn in Hno. congruence.
Qed.

(** X1.  A file whose name ends, in any letter case, with an extension of the
    table gets the format of that extension, whatever the file contains:
    the header is not consulted.  In every case the format found is one of
    the six the dispatcher knows, so the [Unsupported format] branch of
    [test_extraction] cannot be reached through detection; detection
    changes nothing, and when it fails, it fails with the one
    [ExtractionError] of [_detect_format], also when the header could not
    be read. *)
Theorem detect_format_range E cb backup_path extraction_path w :
  (∀ ext fmt,
     (ext, fmt) ∈ SUPPORTED_FORMATS →
     endswith (lower ext) (lower (path_name backup_path)) = true →
     _detect_format E backup_path w = (w, inr fmt))
  ∧ (∀ w' r,
       _detect_format E backup_path w = (w', r) →
       w' = w
       ∧ match r with
         | inr f =>
             f ∈ detectable_formats
             ∧ extract_by_format E cb f backup_path extraction_path
               = (if bool_decide (f = "zip")
                  then _extract_zip E cb backup_path extraction_path
                  else if bool_decide (f = "qdrant")
                       then _extract_qdrant_snapshot E cb backup_path extraction_path
                       else _extract_tar E cb backup_path extraction_path)
         | inl e =>
             e = Exn ExtractionError
                   ("Unsupported or unrecognized format: " +:+ path_str backup_path)
         end).
Proof.
  split; [intros ext fmt; apply detect_format_extension_first|].
  intros w' r [-> Hr]%detect_format_range_core. split; [done|].
  destruct r as [e|f]; [done|]. split; [done|].
  unfold detectable_formats in Hr.
  repeat (apply elem_of_cons in Hr as [->|Hr]; [reflexivity|]).
  by apply elem_of_nil in Hr.
Qed.

Lemma detect_format_range_witness :
  let E := plain_env sample_members never in
  _detect_format E ["/"; "backups"; "Site.Tar.BZ2"] initial_world
  = (initial_world, inr "tar.bz2")
  ∧ "tar.bz2" ∈ detectable_formats.
Proof.
  intros E.
  destruct (detect_format_range E None ["/"; "backups"; "Site.Tar.BZ2"]
              ["/"; "restore"] initial_world) as [Hext Hrange].
  assert (_detect_format E ["/"; "backups"; "Site.Tar.BZ2"] initial_world
          = (initial_world, inr "tar.bz2")) as Hrun.
  { apply (Hext ".tar.bz2" "tar.bz2").
    - unfold SUPPORTED_FORMATS. set_solver.
    - vm_compute. reflexivity. }
  split; [exact Hrun|].
  destruct (Hrange _ _ Hrun) as [_ [Hin _]]. exact Hin.
Defined.

(** *** The checksum pass *)

Lemma poll_chunks_clear E chunks : ∀ w,
  (∀ j, (j < length chunks)%nat → interrupted E (w_polls w + j) = false) →
  poll_chunks E chunks w = (polled (length chunks) w, inr tt).
Proof.
  induction chunks as [|c chunks IH]; intros w Hclear.
  - cbn. unfold polled. rewrite Nat.add_0_r. by destruct w.
  - cbn [poll_chunks]. unfold_monad.
    pose proof (Hclear 0%nat ltac:(cbn; lia)) as H0.
    rewrite Nat.add_0_r in H0. rewrite H0.
    rewrite (IH (mkWorld (w_metadata w) (w_temp_dirs w) (S (w_polls w)) (w_trace w))).
    + unfold polled. cbn. do 3 f_equal. lia.
    + intros j Hj. cbn [w_polls].
      replace (S (w_polls w) + j)%nat with (w_polls w + S j)%nat by lia.
      apply Hclear. cbn. lia.
Qed.

Lemma poll_chunks_interrupted E chunks : ∀ w k,
  (k < length chunks)%nat →
  (∀ j, (j < k)%nat → interrupted E (w_polls w + j) = false) →
  interrupted E (w_polls w + k) = true →
  poll_chunks E chunks w = (polled (S k) w, inl interrupted_exn).
Proof.
  induction chunks as [|c chunks IH]; intros w k Hk Hclear Hset; [cbn in Hk; lia|].
  cbn [poll_chunks]. unfold_monad. destruct k as [|k].
  - rewrite Nat.add_0_r in Hset. rewrite Hset. unfold polled. do 3 f_equal. lia.
  - pose proof (Hclear 0%nat ltac:(lia)) as H0.
    rewrite Nat.add_0_r in H0. rewrite H0.
    rewrite (IH (mkWorld (w_metadata w) (w_temp_dirs w) (S (w_polls w)) (w_trace w)) k).
    + unfold polled. cbn. do 3 f_equal. lia.
    + cbn in Hk. lia.
    + intros j Hj. cbn [w_polls].
      replace (S (w_polls w) + j)%nat with (w_polls w + S j)%nat by lia.
      apply Hclear. lia.
    + cbn [w_polls]. by replace (S (w_polls w) + k)%nat with (w_polls w + S k)%nat by lia.
Qed.

Lemma calculate_checksum_polls_core E file_path chunks w :
  read_chunks E file_path = inr chunks →
  ((∀ j, (j < length chunks)%nat → interrupted E (w_polls w + j) = false) →
     _calculate_checksum E file_path w
     = (polled (length chunks) w, inr (sha256_hex E chunks)))
  ∧ (∀ k, (k < length chunks)%nat →
       (∀ j, (j < k)%nat → interrupted E (w_polls w + j) = false) →
       interrupted E (w_polls w + k) = true →
       _calculate_checksum E file_path w = (polled (S k) w, inl interrupted_exn)).
Proof.
  intros Hread. unfold _calculate_checksum. unfold_monad. rewrite Hread.
  split.
  - intros Hclear. by rewrite poll_chunks_clear.
  - intros k Hk Hclear Hset. by rewrite (poll_chunks_interrupted E chunks w k).
Qed.

(** X2.  [_calculate_checksum] polls the interruption flag once after every
    chunk it has read: with the flag clear throughout it returns the hash
    of the chunks and changes nothing but the poll count; if the flag is
    first found set after chunk [k], it raises there; an empty file is
    hashed without a single poll, so a flag that is already set goes
    unnoticed. *)
Theorem calculate_checksum_polls_per_chunk E file_path chunks w :
  read_chunks E file_path = inr chunks →
  ((∀ j, (j < length chunks)%nat → interrupted E (w_polls w + j) = false) →
     _calculate_checksum E file_path w
     = (polled (length chunks) w, inr (sha256_hex E chunks)))
  ∧ (∀ k, (k < length chunks)%nat →
       (∀ j, (j < k)%nat → interrupted E (w_polls w + j) = false) →
       interrupted E (w_polls w + k) = true →
       _calculate_checksum E file_path w = (polled (S k) w, inl interrupted_exn))
  ∧ (chunks = [] →
       _calculate_checksum E file_path w = (w, inr (sha256_hex E []))).
Proof.
  intros Hread.
  destruct (calculate_checksum_polls_core E file_path chunks w Hread) as [H1 H2].
  split; [done|]. split; [done|].
  intros ->. rewrite H1 by (cbn; lia). unfold polled. cbn.
  rewrite Nat.add_0_r. by destruct w.
Qed.

Lemma calculate_checksum_polls_per_chunk_witness :
  let E := zip_env sample_members (λ k, (1 <=? k)%nat) in
  _calculate_checksum E ["/"; "backups"; "site.zip"] initial_world
  = (polled 2 initial_world, inl interrupted_exn).
Proof.
  intros E.
  refine (proj1 (proj2 (calculate_checksum_polls_per_chunk E
            ["/"; "backups"; "site.zip"] ["PK"; "data"] initial_world _))
            1%nat _ _ _).
  - reflexivity.
  - cbn. lia.
  - intros j Hj. assert (j = 0%nat) as -> by lia. reflexivity.
  - reflexivity.
Defined.

(** *** Counters of the member loop *)

Lemma extract_member_counts E cb dir n i m w w' r :
  extract_member E cb dir n i m w = (w', r) →
  ∃ new c e errs,
    w_trace w' = w_trace w ++ new
    ∧ Z.of_nat (length (lib_calls new)) = c
    ∧ 0 ≤ c ≤ 1
    ∧ counts_step cb (Some m) w w' c e errs.
Proof.
  unfold extract_member. unfold_monad. unfold counts_step.
  destruct (interrupted E (w_polls w)).
  { intros [= <- <-]. exists [], 0, 0, []. cbn. rewrite !app_nil_r.
    split_and!; try done; try lia. intros m0 [= <-]. destruct (is_file m); lia. }
  destruct (_validate_path_security E (name m) dir); cbn [negb].
  2:{ intros [= <- <-]. exists [], 0, 0, []. cbn. rewrite !app_nil_r.
      split_and!; try done; try lia. intros m0 [= <-]. destruct (is_file m); lia. }
  destruct (MAX_EXTRACT_SIZE <? size m).
  { intros [= <- <-]. exists [], 0, 0, []. cbn. rewrite !app_nil_r.
    split_and!; try done; try lia. intros m0 [= <-]. destruct (is_file m); lia. }
  destruct (lib_extract E i m dir) as [e|].
  { intros [= <- <-]. eexists [LibExtract i m dir], 1, 0, [_]. cbn.
    split_and!; try done; try lia. intros m0 [= <-]. destruct (is_file m); lia. }
  unfold call_progress.
  destruct (is_file m) eqn:Hfile, cb as [f|]; unfold_monad; cbn.
  - destruct (f _ _); intros [= <- <-]; cbn.
    + eexists [LibExtract i m dir; Progress _ _], 1, 1, [_]. cbn.
      rewrite <- !app_assoc. cbn.
      split_and!; try done; try lia. intros m0 [= <-]. rewrite Hfile. lia.
    + eexists [LibExtract i m dir; Progress _ _], 1, 1, []. cbn.
      rewrite <- !app_assoc, app_nil_r. cbn.
      split_and!; try done; try lia. intros m0 [= <-]. rewrite Hfile. lia.
  - intros [= <- <-]. eexists [LibExtract i m dir], 1, 1, []. cbn.
    rewrite app_nil_r.
    split_and!; try done; try lia. intros m0 [= <-]. rewrite Hfile. lia.
  - destruct (f _ _); intros [= <- <-]; cbn.
    + eexists [LibExtract i m dir; Progress _ _], 1, 1, [_]. cbn.
      rewrite <- !app_assoc. cbn.
      split_and!; try done; try lia. intros m0 [= <-]. rewrite Hfile. lia.
    + eexists [LibExtract i m dir; Progress _ _], 1, 1, []. cbn.
      rewrite <- !app_assoc, app_nil_r. cbn.
      split_and!; try done; try lia. intros m0 [= <-]. rewrite Hfile. lia.
  - intros [= <- <-]. eexists [LibExtract i m dir], 1, 1, []. cbn.
    rewrite app_nil_r.
    split_and!; try done; try lia. intros m0 [= <-]. rewrite Hfile. lia.
Qed.

Lemma extract_members_counts E cb dir n members : ∀ i w w' r,
  extract_members E cb dir n i members w = (w', r) →
  ∃ new c e errs,
    w_trace w' = w_trace w ++ new
    ∧ Z.of_nat (length (lib_calls new)) = c
    ∧ 0 ≤ c ≤ Z.of_nat (length members)
    ∧ counts_step cb None w w' c e errs.
Proof.
  induction members as [|m members IH]; intros i w w' r Hrun.
  - cbn in Hrun. injection Hrun as <- <-. exists [], 0, 0, []. unfold counts_step.
    cbn. rewrite !app_nil_r. split_and!; try done; lia.
  - cbn [extract_members] in Hrun. unfold mbind, M_bind, bind in Hrun.
    destruct (extract_member E cb dir n i m w) as [w1 [e1|[]]] eqn:Hstep.
    + injection Hrun as <- <-.
      apply extract_member_counts in Hstep
        as (new & c & e & errs & Htr & Hc & Hc1 & H1 & H2 & H3 & H4 & H5 & H6 & H7 & H8 & _).
      exists new, c, e, errs. unfold counts_step. cbn [length].
      split_and!; try done; lia.
    + apply extract_member_counts in Hstep
        as (new1 & c1 & e1 & errs1 & Htr1 & Hc1 & Hb1
            & A1 & A2 & A3 & A4 & A5 & A6 & A7 & A8 & _).
      apply IH in Hrun
        as (new2 & c2 & e2 & errs2 & Htr2 & Hc2 & Hb2
            & B1 & B2 & B3 & B4 & B5 & B6 & B7 & B8 & _).
      exists (new1 ++ new2), (c1 + c2), (e1 + e2), (errs1 ++ errs2).
      unfold counts_step. cbn [length].
      rewrite lib_calls_app, !length_app.
      split_and!; try done; try lia.
      * rewrite Htr2, Htr1. by rewrite app_assoc.
      * rewrite B4, A4. by rewrite app_assoc.
      * intros Hcb. specialize (A8 Hcb). specialize (B8 Hcb). lia.
Qed.

(** *** Nothing recorded is lost *)


























Lemma detect_format_keeps_world E p w w' r :
  _detect_format E p w = (w', r) → w' = w.
Proof.
  unfold _detect_format.
  destruct (List.find _ SUPPORTED_FORMATS) as [[ext fmt]|]; [by intros [= <- <-]|].
  destruct (read_header E p) as [e|header]; [by intros [= <- <-]|].
  destruct (List.find _ MAGIC_BYTES) as [[magic fmt]|]; by intros [= <- <-].
Qed.

Lemma preflight_keeps_world E p w w' r :
  preflight_and_detect E p w = (w', r) → w' = w.
Proof.
  unfold preflight_and_detect. unfold raise.
  destruct (negb (path_exists E p)); [by intros [= <- <-]|].
  destruct (negb (path_is_file E p)); [by intros [= <- <-]|].
  apply detect_format_keeps_world.
Qed.

(** *** Pre-flight failures *)

(** X3.  When the archive is missing, is not a regular file or has no
    detectable format, [test_extraction] returns a failed result that
    names the cause; no directory was created, nothing was hashed or
    written: apart from the fresh metadata holding the message, the state
    is the one before the call. *)
Theorem preflight_failure_touches_nothing E backup_path extraction_dir cb w w1 e :
  preflight_and_detect E backup_path (with_metadata w fresh_metadata) = (w1, inl e) →
  test_extraction E backup_path extraction_dir cb w
  = (with_metadata w (add_error (str_exn e) fresh_metadata),
     mkResult false [] (add_error (str_exn e) fresh_metadata) "unknown" 0 0 None
       (Some (str_exn e)))
  ∧ str_exn e
    = (if negb (path_exists E backup_path)
       then "Backup file not found: " +:+ path_str backup_path
       else if negb (path_is_file E backup_path)
            then "Path is not a file: " +:+ path_str backup_path
            else "Unsupported or unrecognized format: " +:+ path_str backup_path).
Proof.
  intros Hpre. pose proof (preflight_keeps_world _ _ _ _ _ Hpre) as ->.
  split.
  - unfold test_extraction. rewrite Hpre. reflexivity.
  - unfold preflight_and_detect, raise in Hpre.
    destruct (negb (path_exists E backup_path)); [by injection Hpre as <-|].
    destruct (negb (path_is_file E backup_path)); [by injection Hpre as <-|].
    apply (detect_format_range_core E backup_path) in Hpre as [_ ->]. done.
Qed.

Lemma preflight_failure_touches_nothing_witness :
  let E := missing_env in
  (test_extraction E ["/"; "backups"; "gone.zip"] None None initial_world).1
  = with_metadata initial_world
      (add_error "Backup file not found: /backups/gone.zip" fresh_metadata).
Proof.
  intros E.
  destruct (preflight_failure_touches_nothing E ["/"; "backups"; "gone.zip"] None None
              initial_world (with_metadata initial_world fresh_metadata)
              (Exn ExtractionError "Backup file not found: /backups/gone.zip")
              ltac:(reflexivity)) as [-> _].
  reflexivity.
Defined.

(** *** Temporary directories *)




(** *** Counters after a run of the loop *)

Lemma percent_bounds (e t : Z) :
  0 ≤ e ≤ t → 0 < t → (0 <= inject_Z e / inject_Z t * 100 <= 100)%Q.
Proof.
  intros He Ht. destruct t as [|p|p]; try lia.
  unfold Qle, Qdiv, Qmult, Qinv, inject_Z. cbn. split; nia.
Qed.

(** X6.  After [_extract_tar] or [_extract_zip] started with fresh counters,
    [total_files] is the number of members listed, [extracted_files] lies
    between 0 and [total_files] (so [progress_percent] lies between 0 and
    100), and every member handed to the archive library is accounted for:
    it was counted as extracted or left an error entry; without a progress
    callback never both. *)
Theorem extracted_count_bounded E cb dir members w w' r :
  extract_archive E cb dir members w = (w', r) →
  extracted_files (w_metadata w) = 0 →
  total_files (w_metadata w') = Z.of_nat (length members)
  ∧ total_size (w_metadata w') = sum_sizes members
  ∧ 0 ≤ extracted_files (w_metadata w') ≤ total_files (w_metadata w')
  ∧ (0 <= progress_percent (w_metadata w') <= 100)%Q
  ∧ ∃ new errs,
      w_trace w' = w_trace w ++ new
      ∧ errors (w_metadata w') = errors (w_metadata w) ++ errs
      ∧ extracted_files (w_metadata w') ≤ Z.of_nat (length (lib_calls new))
      ∧ (length errs ≤ length (lib_calls new))%nat
      ∧ Z.of_nat (length (lib_calls new))
        ≤ extracted_files (w_metadata w') + Z.of_nat (length errs)
      ∧ (cb = None →
         extracted_files (w_metadata w') + Z.of_nat (length errs)
         = Z.of_nat (length (lib_calls new))).
Proof.
  intros Hrun Hzero. unfold extract_archive in Hrun.
  unfold mbind, M_bind, bind, modify_metadata in Hrun.
  apply extract_members_counts in Hrun
    as (new & c & e & errs & Htr & Hc & Hb & T1 & T2 & X & Er & He & Hl & Hs & Hn & _).
  cbn in *. rewrite Hzero in X.
  assert (0 ≤ extracted_files (w_metadata w') ≤ total_files (w_metadata w')) as Hbound
    by lia.
  split; [done|]. split; [done|]. split; [lia|]. split.
  - unfold progress_percent. destruct (total_files (w_metadata w') =? 0) eqn:Hz.
    + split; done.
    + apply Z.eqb_neq in Hz. apply percent_bounds; lia.
  - exists new, errs. split_and!; try done; try lia.
    intros Hcb. specialize (Hn Hcb). lia.
Qed.

Lemma extracted_count_bounded_witness :
  let E := failing_env sample_members in
  let run := extract_archive E None ["/"; "restore"] sample_members initial_world in
  extracted_files (w_metadata run.1) = 1
  ∧ length (errors (w_metadata run.1)) = 1%nat
  ∧ 0 ≤ extracted_files (w_metadata run.1) ≤ total_files (w_metadata run.1).
Proof.
  intros E run. split; [vm_compute; reflexivity|]. split; [vm_compute; reflexivity|].
  refine (proj1 (proj2 (proj2 (extracted_count_bounded E None ["/"; "restore"]
            sample_members initial_world run.1 run.2 _ _)))).
  - vm_compute. reflexivity.
  - reflexivity.
Defined.

(** *** The Qdrant fallback *)



(** *** A complete run *)

Lemma accepted_calls_length E dir members : ∀ i,
  length (accepted_calls E dir i members)
  = length (filter (λ m, accepted E dir m = true) members).
Proof.
  induction members as [|m members IH]; intros i; [done|].
  cbn [accepted_calls]. rewrite length_app, IH, filter_cons.
  destruct (accepted E dir m) eqn:Hacc.
  - by rewrite decide_True by done.
  - by rewrite decide_False by done.
Qed.

(** X8.  A zip archive that passes the pre-flight checks, extracted into a
    given directory without interruption and without progress callback:
    the result reports success, carries the hash of the archive file, one
    warning per rejected member in archive order, and every member that
    passed both checks was handed to the library and is either counted in
    [file_count] or named in [errors]. *)
Theorem zip_extraction_succeeds E backup_path d w w0 chunks members :
  preflight_and_detect E backup_path (with_metadata w fresh_metadata)
  = (w0, inr "zip") →
  mkdir E d = None →
  read_chunks E backup_path = inr chunks →
  zip_open E backup_path = inr members →
  (∀ j, (j < length chunks + length members)%nat →
        interrupted E (w_polls w + j) = false) →
  ∃ w' r,
    test_extraction E backup_path (Some d) None w = (w', r)
    ∧ success r = true
    ∧ error_message r = None
    ∧ format_detected r = "zip"
    ∧ extraction_path r = d
    ∧ checksum r = Some (sha256_hex E chunks)
    ∧ total_files (metadata r) = Z.of_nat (length members)
    ∧ warnings (metadata r) = flat_map (member_warning E d) members
    ∧ file_count r + Z.of_nat (length (errors (metadata r)))
      = Z.of_nat (length (filter (λ m, accepted E d m = true) members))
    ∧ (∀ k m, members !! k = Some m → accepted E d m = true →
         LibExtract k m d ∈ w_trace w').
Proof.
  intros Hpre Hmk Hread Hopen Hclear.
  pose proof (preflight_keeps_world _ _ _ _ _ Hpre) as ->.
  unfold test_extraction. rewrite Hpre, Hmk.
  unfold checksum_and_extract, call_progress.
  destruct (calculate_checksum_polls_core E backup_path chunks
              (with_metadata w fresh_metadata) Hread) as [Hsum _].
  unfold mbind at 1 2, M_bind at 1 2, bind at 1 2, mret at 1, M_ret at 1, ret at 1.
  rewrite Hsum by (intros j Hj; apply Hclear; lia).
  unfold mbind at 1, M_bind at 1, bind at 1, mret at 1, M_ret at 1, ret at 1.
  change (extract_by_format E None "zip" backup_path d)
    with (_extract_zip E None backup_path d).
  unfold mbind at 1, M_bind at 1, bind at 1.
  rewrite (extract_zip_members E None backup_path d members _ Hopen).
  destruct (extract_members E None d (length members) 0 members _)
    as [w3 r3] eqn:Hloop.
  pose proof (extract_members_counts _ _ _ _ _ _ _ _ _ Hloop)
    as (new' & c & e & errs & Htr' & Hc & _ & T1 & _ & X & Er & _ & _ & _ & Hn & _).
  apply extract_members_complete in Hloop as (-> & Hw & new & Htr & Hcalls).
  2:{ intros j Hj. cbn. replace (w_polls w + length chunks + j)%nat
        with (w_polls w + (length chunks + j))%nat by lia.
      apply Hclear. lia. }
  cbn in Htr, Htr', Hw, T1, X, Er.
  assert (new' = new) as ->.
  { rewrite Htr in Htr'. by apply app_inv_head in Htr'. }
  eexists _, _. split; [reflexivity|]. cbn.
  split_and!; try done.
  - rewrite X, Er. cbn. specialize (Hn eq_refl).
    rewrite <- (accepted_calls_length E d members 0).
    rewrite <- Hcalls. lia.
  - intros k m Hk Hacc. rewrite Htr. apply elem_of_app; right.
    apply lib_calls_elem. rewrite Hcalls.
    apply accepted_calls_elem. split_and!; [done|lia| |done].
    by rewrite Nat.sub_0_r.
Qed.

Lemma zip_extraction_succeeds_witness :
  let E := zip_env sample_members never in
  ∃ w' r,
    test_extraction E ["/"; "backups"; "site.zip"] (Some ["/"; "restore"]) None
      initial_world = (w', r)
    ∧ success r = true
    ∧ checksum r = Some "0f3a"
    ∧ warnings (metadata r)
      = flat_map (member_warning E ["/"; "restore"]) sample_members.
Proof.
  intros E.
  destruct (zip_extraction_succeeds E ["/"; "backups"; "site.zip"] ["/"; "restore"]
              initial_world (with_metadata initial_world fresh_metadata)
              ["PK"; "data"] sample_members)
    as (w' & r & Hrun & Hs & _ & _ & _ & Hc & _ & Hw & _); try reflexivity.
  exists w', r. split_and!; [exact Hrun | exact Hs | exact Hc | exact Hw].
Defined.

(** *** An interrupted run *)

(** X9.  A tar or zip archive that passes the pre-flight checks is extracted
    into a given directory, without progress callback; the checksum pass
    completes and the interruption flag is first found set at the poll of
    member [k].  The result reports failure with the interruption message
    and no checksum; the members before [k] were treated as in a complete
    run (the accepted ones handed to the library, the others warned
    about), no member from [k] on was touched, and [file_count] counts
    only members extracted before the interruption. *)
Theorem interrupted_extraction_fails E backup_path d w w0 f chunks members k :
  preflight_and_detect E backup_path (with_metadata w fresh_metadata) = (w0, inr f) →
  mkdir E d = None →
  read_chunks E backup_path = inr chunks →
  (f ∈ ["tar"; "tar.gz"; "tar.bz2"; "tar.xz"]
   ∧ tar_open E backup_path (tar_mode backup_path) = inr members)
  ∨ (f = "zip" ∧ zip_open E backup_path = inr members) →
  (k < length members)%nat →
  (∀ j, (j < length chunks + k)%nat → interrupted E (w_polls w + j) = false) →
  interrupted E (w_polls w + (length chunks + k)) = true →
  ∃ w' r new,
    test_extraction E backup_path (Some d) None w = (w', r)
    ∧ success r = false
    ∧ error_message r = Some "Extraction interrupted by user"
    ∧ errors (metadata r) ≠ []
    ∧ last (errors (metadata r)) = Some "Extraction interrupted by user"
    ∧ checksum r = None
    ∧ format_detected r = f
    ∧ extraction_path r = d
    ∧ total_files (metadata r) = Z.of_nat (length members)
    ∧ warnings (metadata r) = flat_map (member_warning E d) (take k members)
    ∧ w_trace w' = w_trace w ++ new
    ∧ lib_calls new = accepted_calls E d 0 (take k members)
    ∧ 0 ≤ file_count r ≤ Z.of_nat (length (lib_calls new)).
Proof.
  intros Hpre Hmk Hread Hfmt Hk Hclear Hset.
  pose proof (preflight_keeps_world _ _ _ _ _ Hpre) as ->.
  unfold test_extraction. rewrite Hpre, Hmk.
  unfold checksum_and_extract, call_progress.
  destruct (calculate_checksum_polls_core E backup_path chunks
              (with_metadata w fresh_metadata) Hread) as [Hsum _].
  unfold mbind at 1 2, M_bind at 1 2, bind at 1 2, mret at 1, M_ret at 1, ret at 1.
  rewrite Hsum by (intros j Hj; apply Hclear; lia).
  unfold mbind at 1, M_bind at 1, bind at 1, mret at 1, M_ret at 1, ret at 1.
  assert (∀ w2, extract_by_format E None f backup_path d w2
                = extract_members E None d (length members) 0 members
                    (with_metadata w2
                       (set_totals (Z.of_nat (length members)) (sum_sizes members)
                          (w_metadata w2)))) as Hext.
  { intros w2. unfold extract_by_format. destruct Hfmt as [[Hin Hopen]|[-> Hopen]].
    - rewrite bool_decide_eq_true_2 by done. by apply extract_tar_members.
    - rewrite bool_decide_eq_false_2
        by (intros Hin; repeat (apply elem_of_cons in Hin as [?|Hin]; [done|]);
            by apply elem_of_nil in Hin).
      rewrite bool_decide_eq_true_2 by done. by apply extract_zip_members. }
  unfold mbind at 1, M_bind at 1, bind at 1. rewrite Hext.
  destruct (extract_members E None d (length members) 0 members _)
    as [w3 r3] eqn:Hloop.
  pose proof (extract_members_counts _ _ _ _ _ _ _ _ _ Hloop)
    as (new' & c & e & errs & Htr' & Hc & _ & T1 & _ & X & Er & He & _).
  apply extract_members_run in Hloop
    as (k' & new & Hk' & Hno & Hr & _ & Hw & Htr & Hcalls).
  cbn in Hno, Hr, Hw, Htr, Htr', T1, X, Er.
  assert (new' = new) as ->.
  { rewrite Htr in Htr'. by apply app_inv_head in Htr'. }
  destruct r3 as [e3|[]].
  - destruct Hr as (-> & Hlt & Hi & _).
    assert (k' = k) as ->.
    { destruct (Nat.lt_trichotomy k' k) as [Hlt'|[->|Hgt]]; [|done|].
      - rewrite <- Nat.add_assoc in Hi.
        rewrite Hclear in Hi by lia. done.
      - specialize (Hno k Hgt). rewrite <- Nat.add_assoc in Hno. congruence. }
    eexists _, _, new. split; [reflexivity|]. cbn.
    split_and!; try done.
    + by intros [? ?]%app_eq_nil.
    + apply last_snoc.
    + lia.
    + lia.
  - destruct Hr as [-> _]. exfalso.
    specialize (Hno k Hk). rewrite <- Nat.add_assoc in Hno. congruence.
Qed.

Lemma interrupted_extraction_fails_witness :
  let E := zip_env sample_members (λ j, (3 <=? j)%nat) in
  ∃ w' r,
    test_extraction E ["/"; "backups"; "site.zip"] (Some ["/"; "restore"]) None
      initial_world = (w', r)
    ∧ success r = false
    ∧ error_message r = Some "Extraction interrupted by user"
    ∧ warnings (metadata r)
      = flat_map (member_warning E ["/"; "restore"]) (take 1 sample_members).
Proof.
  intros E.
  destruct (interrupted_extraction_fails E ["/"; "backups"; "site.zip"]
              ["/"; "restore"] initial_world
              (with_metadata initial_world fresh_metadata) "zip"
              ["PK"; "data"] sample_members 1)
    as (w' & r & new & Hrun & Hs & Hm & _ & _ & _ & _ & _ & _ & Hw & _).
  - reflexivity.
  - reflexivity.
  - reflexivity.
  - right. split; reflexivity.
  - vm_compute. lia.
  - intros j Hj. cbn in Hj.
    do 3 (destruct j as [|j]; [reflexivity|]). lia.
  - reflexivity.
  - exists w', r. split_and!; [exact Hrun | exact Hs | exact Hm | exact Hw].
Defined.

(** *** Names that leave the destination *)

Lemma startswith_app p s : startswith p (p +:+ s) = true.
Proof.
  induction p as [|c p IH]; [done|].
  change (String c p +:+ s) with (String c (p +:+ s)). cbn.
  by rewrite Ascii.eqb_refl.
Qed.

Lemma startswith_refl p : startswith p p = true.
Proof. induction p as [|c p IH]; cbn; [done|]. by rewrite Ascii.eqb_refl. Qed.

Lemma contains_app_r x t s : contains x s = true → contains x (t +:+ s) = true.
Proof.
  intros Hs. induction t as [|c t IH]; [done|].
  change (String c t +:+ s) with (String c (t +:+ s)). by apply contains_cons.
Qed.

Lemma contains_join x sep l : x ∈ l → contains x (join sep l) = true.
Proof.
  induction l as [|y l IH]; [by intros ?%elem_of_nil|].
  intros [->|Hin]%elem_of_cons.
  - destruct l as [|z l]; cbn [join].
    + apply contains_of_startswith, startswith_refl.
    + apply contains_of_startswith, startswith_app.
  - destruct l as [|z l]; [by apply elem_of_nil in Hin|].
    cbn [join]. do 2 apply contains_app_r. by apply IH.
Qed.

Lemma normpath_keeps_root p :
  startswith "/" p = true → startswith "/" (normpath p) = true.
Proof.
  intros Habs. unfold normpath.
  rewrite bool_decide_eq_false_2 by (by intros ->).
  rewrite Habs.
  destruct (startswith "//" p && negb (startswith "///" p));
    (rewrite bool_decide_eq_false_2 by done); done.
Qed.

(** On a relative path the loop of [normpath] never pops a [..] it has
    kept: when it already holds one, or when the components still to come
    climb above the directories entered so far, its result holds one. *)
Lemma normpath_loop_climbs comps : ∀ k normals,
  ".." ∉ normals →
  (0 < k)%nat ∨ climbs_above (length normals) comps = true →
  ".." ∈ fold_left (normpath_step 0) comps (replicate k ".." ++ normals).
Proof.
  induction comps as [|comp comps IH]; intros k normals Hnormals Hclimb.
  - cbn. destruct Hclimb as [Hk|?]; [|done].
    destruct k; [lia|]. cbn. by left.
  - cbn [fold_left climbs_above] in *. unfold normpath_step at 2.
    destruct (bool_decide (comp = "") || bool_decide (comp = ".")) eqn:Hskip.
    { by apply IH. }
    destruct (decide (comp = "..")) as [->|Hcomp].
    + rewrite (bool_decide_eq_true_2 (".." = "..")) in * by done. cbn [negb orb].
      destruct normals as [|x normals _] using rev_ind.
      * rewrite app_nil_r.
        assert (bool_decide (0 = 0)%nat && bool_decide (replicate k ".." = [])
                || negb (bool_decide (replicate k ".." = []))
                   && bool_decide (last (replicate k ".." : list string) = Some "..")
                = true) as ->.
        { destruct k as [|k]; [done|].
          rewrite (bool_decide_eq_false_2 (replicate (S k) ".." = [])) by done.
          rewrite (bool_decide_eq_true_2 (last _ = Some "..")).
          - by rewrite andb_false_r.
          - replace (S k) with (k + 1)%nat by lia.
            rewrite replicate_add. cbn. by rewrite last_snoc. }
        replace (replicate k ".." ++ [".."]) with (replicate (S k) ".." ++ @nil string).
        2:{ rewrite app_nil_r. replace (S k) with (k + 1)%nat by lia.
            by rewrite replicate_add. }
        apply IH; [by intros ?%elem_of_nil|left; lia].
      * assert (x ≠ "..") as Hx by (intros ->; apply Hnormals; set_solver).
        rewrite app_assoc.
        rewrite (bool_decide_eq_false_2 (_ ++ [x] = [])) by (by intros [? ?]%app_eq_nil).
        rewrite last_snoc.
        rewrite (bool_decide_eq_false_2 (Some x = Some "..")) by congruence.
        cbn [andb orb negb]. rewrite List.removelast_last.
        rewrite length_app in Hclimb. cbn [length] in Hclimb.
        replace (length normals + 1)%nat with (S (length normals)) in Hclimb by lia.
        apply IH; [set_solver|done].
    + rewrite (bool_decide_eq_false_2 (comp = "..")) in * by done. cbn [negb orb].
      rewrite <- app_assoc.
      apply IH.
      * intros [?|?%list_elem_of_singleton]%elem_of_app; [done|congruence].
      * destruct Hclimb as [?|Hclimb]; [by left|right].
        rewrite length_app. cbn [length].
        by replace (length normals + 1)%nat with (S (length normals)) by lia.
Qed.

Lemma normpath_climbing_has_dotdot p :
  startswith "/" p = false → climbs_above 0 (split "/" p) = true →
  contains ".." (normpath p) = true.
Proof.
  intros Hrel Hclimb. unfold normpath.
  destruct (decide (p = "")) as [->|Hp]; [done|].
  rewrite bool_decide_eq_false_2 by done. rewrite Hrel.
  pose proof (normpath_loop_climbs (split "/" p) 0 [] ltac:(by intros ?%elem_of_nil)
                (or_intror Hclimb)) as Hin.
  cbn [replicate app] in Hin.
  pose proof (contains_join _ "/" _ Hin) as Hc.
  case_bool_decide as Hempty; [|done].
  rewrite Hempty in Hc. done.
Qed.

(** X10.  A member whose name starts with [/], or whose relative name read
    component by component climbs above the directory it starts from, is
    rejected by the validator whatever the file system looks like, and is
    never handed to the archive library. *)
Theorem absolute_and_climbing_names_rejected E cb dir n :
  (∀ p, startswith "/" p = true → _validate_path_security E p dir = false)
  ∧ (∀ p, startswith "/" p = false → climbs_above 0 (split "/" p) = true →
       _validate_path_security E p dir = false)
  ∧ (∀ i members w w' r, extract_members E cb dir n i members w = (w', r) →
       ∃ new, w_trace w' = w_trace w ++ new
         ∧ ∀ j m d, LibExtract j m d ∈ new →
             startswith "/" (name m) = false
             ∧ climbs_above 0 (split "/" (name m)) = false).
Proof.
  assert (∀ p, startswith "/" p = true → _validate_path_security E p dir = false) as Habs.
  { intros p Hp. unfold _validate_path_security.
    by rewrite (normpath_keeps_root p Hp), orb_true_r. }
  assert (∀ p, startswith "/" p = false → climbs_above 0 (split "/" p) = true →
            _validate_path_security E p dir = false) as Hclimb.
  { intros p Hrel Hc. apply validate_rejects_dotdot.
    by apply normpath_climbing_has_dotdot. }
  split; [done|]. split; [done|].
  intros i members w w' r Hrun.
  destruct (extract_members_run _ _ _ _ _ _ _ _ _ Hrun)
    as (k0 & new & _ & _ & _ & _ & _ & Htr & Hcalls).
  exists new. split; [done|]. intros j m d Hin.
  apply lib_calls_elem in Hin. rewrite Hcalls in Hin.
  apply accepted_calls_elem in Hin as (_ & _ & _ & Hacc).
  apply andb_true_iff in Hacc as [Hval _].
  destruct (startswith "/" (name m)) eqn:Hs.
  { rewrite Habs in Hval; done. }
  split; [done|]. apply not_true_is_false. intros Hc.
  rewrite Hclimb in Hval; done.
Qed.

Lemma absolute_and_climbing_names_rejected_witness :
  let E := plain_env sample_members never in
  _validate_path_security E "/etc/passwd" ["/"; "restore"] = false
  ∧ _validate_path_security E "docs/../../.ssh/authorized_keys" ["/"; "restore"] = false.
Proof.
  intros E.
  destruct (absolute_and_climbing_names_rejected E None ["/"; "restore"] 0%nat)
    as (Habs & Hclimb & _).
  split; [apply Habs|apply Hclimb]; reflexivity.
Defined.

End ExtractionExtraProofs.

(** * Further properties of the comparison engine *)

Module ComparisonExtraProofs.
Import PyStr PyPath Comparison ComparisonSpec ComparisonExtra ComparisonProofs.

(** *** What the accumulation loops leave alone *)

Lemma foldl_invariant {A B} (f : A → B → A) (P : A → Prop) l : ∀ a,
  (∀ a b, P a → P (f a b)) → P a → P (foldl f a l).
Proof. induction l as [|b l IH]; intros a Hf Ha; [done|]. cbn. apply IH; auto. Qed.

Lemma compare_collected_same_run fs rt mode_ sf tf r0 :
  same_run r0 (compare_collected fs rt mode_ sf tf r0).
Proof.
  unfold compare_collected.
  assert (∀ l r, same_run r0 r → same_run r0 (foldl add_missing_target r l)) as H1.
  { intros l r. apply foldl_invariant. by intros a b (?&?&?&?). }
  assert (∀ l r, same_run r0 r → same_run r0 (foldl add_missing_source r l)) as H2.
  { intros l r. apply foldl_invariant. by intros a b (?&?&?&?). }
  assert (∀ l r, same_run r0 r →
            same_run r0 (foldl (collect_future fs mode_ sf tf) r l)) as H3.
  { intros l r. apply foldl_invariant. intros a b (?&?&?&?).
    unfold collect_future, future_result. by destruct (compare_file_pair _ _ _ _ _). }
  assert (same_run r0 r0) as H0 by done.
  apply H1 with (l := set_order rt (dom sf ∖ dom tf)) in H0.
  apply H2 with (l := set_order rt (dom tf ∖ dom sf)) in H0.
  case_bool_decide.
  - destruct H0 as (?&?&?&?). done.
  - apply H3 with (l := completion_order rt (set_order rt (dom sf ∩ dom tf))) in H0.
    destruct H0 as (?&?&?&?). done.
Qed.

(** *** Modes *)

(** X11.  Every mode is written as one of the four mode strings and read back
    from it; any other string makes [content_comparison] raise
    [ValueError], and nothing else makes it raise. *)
Theorem mode_strings_round_trip eng fs rt source target :
  (∀ m, ComparisonMode_of_string (mode_value m) = inr m)
  ∧ (∀ s m, ComparisonMode_of_string s = inr m → s = mode_value m)
  ∧ (∀ s, (∃ r, content_comparison eng fs rt source target s = inr r
                ∧ ∃ m, s = mode_value m ∧ comparison_mode r = m)
          ∨ (content_comparison eng fs rt source target s
             = inl (Exn ValueError (s +:+ " is not a valid ComparisonMode"))
             ∧ ∀ m, s ≠ mode_value m)).
Proof.
  assert (∀ s m, ComparisonMode_of_string s = inr m → s = mode_value m) as Hinv.
  { intros s m. unfold ComparisonMode_of_string.
    repeat case_bool_decide; intros [= <-]; by subst. }
  split; [by intros []|]. split; [done|].
  intros s. unfold content_comparison.
  destruct (ComparisonMode_of_string s) as [e|m] eqn:Hmode.
  - right. unfold ComparisonMode_of_string in Hmode.
    repeat case_bool_decide; try done. injection Hmode as <-.
    split; [done|]. by intros [].
  - left. apply Hinv in Hmode as ->.
    destruct (comparison_body _ _ _ _ _ _ _) as [e|r] eqn:Hbody.
    + eexists. split; [done|]. by exists m.
    + eexists. split; [done|]. exists m. split; [done|].
      unfold comparison_body in Hbody.
      destruct (negb (fs_exists fs source)); [done|].
      destruct (negb (fs_exists fs target)); [done|].
      destruct (collect_files eng fs source) as [?|sf]; [done|].
      destruct (collect_files eng fs target) as [?|tf]; [done|].
      injection Hbody as <-.
      by destruct (compare_collected_same_run fs rt m sf tf
                     (initial_result eng source target m)) as (_ & _ & -> & _).
Qed.

(** *** Differences of a pair *)

Ltac not_in :=
  let H := fresh in
  intros H; repeat (apply elem_of_cons in H as [H|H]; [discriminate H|]);
  by apply elem_of_nil in H.

Ltac sublist_by_order :=
  solve [repeat first [apply sublist_nil | apply sublist_skip | apply sublist_cons]].

(** X12.  [compare_metadata] reports a type mismatch alone; otherwise it reports
    each of size, content, permission and timestamp mismatch at most once
    and in that order, permission and timestamp only in [full] mode,
    content only in [full] and [checksum_only] mode; it never reports a
    missing file, and every difference carries the source path and both
    metadata records. *)
Theorem compare_metadata_kinds fs sm tm mode_ :
  let ds := compare_metadata fs sm tm mode_ in
  let kinds := map difference_type ds in
  (type_differs sm tm = true → kinds = [TYPE_MISMATCH])
  ∧ (type_differs sm tm = false → kinds `sublist_of` pair_kinds)
  ∧ (mode_ ≠ FULL → (PERMISSION_MISMATCH ∉ kinds) ∧ (TIMESTAMP_MISMATCH ∉ kinds))
  ∧ (mode_ = QUICK ∨ mode_ = METADATA_ONLY → CONTENT_MISMATCH ∉ kinds)
  ∧ (MISSING_SOURCE ∉ kinds) ∧ (MISSING_TARGET ∉ kinds)
  ∧ (METADATA_MISMATCH ∉ kinds)
  ∧ (∀ d, d ∈ ds →
       diff_path d = path sm ∧ source_metadata d = Some sm
       ∧ target_metadata d = Some tm).
Proof.
  cbn zeta. unfold type_differs, compare_metadata, pair_kinds.
  destruct (negb (eqb (is_file sm) (is_file tm)) || negb (eqb (is_dir sm) (is_dir tm))).
  { cbn. split_and!; try done; try not_in.
    - intros _. split; not_in.
    - intros _. not_in.
    - by intros d ->%list_elem_of_singleton. }
  destruct (negb (size sm =? size tm));
  destruct (bool_decide (mode_ ∈ [FULL; CHECKSUM_ONLY]) && is_file sm && is_file tm && _)
    eqn:Hcontent;
  destruct (negb (S_IMODE (mode sm) =? S_IMODE (mode tm)));
  destruct (negb (Qle_bool (Qabs (mtime sm - mtime tm)) 1));
  destruct mode_;
  try (exfalso; revert Hcontent; clear;
       rewrite (bool_decide_eq_false_2 (_ ∈ [FULL; CHECKSUM_ONLY])) by not_in;
       discriminate);
  rewrite ?(bool_decide_eq_true_2 (FULL = FULL)) by done;
  rewrite ?(bool_decide_eq_false_2 (_ = FULL)) by done;
  cbn; (split; [done|]); (split; [intros _; sublist_by_order|]);
  (split; [first [by intros [] | intros _; split; not_in]|]);
  (split; [first [by intros [[=]|[=]] | intros _; not_in]|]);
  (split; [not_in|]); (split; [not_in|]); (split; [not_in|]);
  intros d Hd; repeat (apply elem_of_cons in Hd as [->|Hd]; [done|]);
  by apply elem_of_nil in Hd.
Qed.

Lemma content_cond_spec sm tm :
  match checksum sm, checksum tm with
  | Some cs, Some ct =>
      negb (bool_decide (cs = "")) && negb (bool_decide (ct = ""))
      && negb (bool_decide (cs = ct))
  | _, _ => false
  end = true ↔ checksums_differ sm tm.
Proof.
  unfold checksums_differ. destruct (checksum sm) as [cs|], (checksum tm) as [ct|].
  - rewrite !andb_true_iff, !negb_true_iff, !bool_decide_eq_false. split.
    + intros [[? ?] ?]. by exists cs, ct.
    + by intros (cs' & ct' & [= <-] & [= <-] & ? & ? & ?).
  - split; [done|]. by intros (?&?&?&?&_).
  - split; [done|]. by intros (?&?&?&_).
  - split; [done|]. by intros (?&?&?&_).
Qed.

Lemma if_singleton_nil {A} (b : bool) (x : A) :
  (if b then [x] else []) = [] ↔ b = false.
Proof. by destruct b. Qed.

Lemma compare_metadata_nil_iff fs sm tm mode_ :
  compare_metadata fs sm tm mode_ = [] ↔
    type_differs sm tm = false ∧ size sm = size tm
    ∧ (wants_checksum mode_ = true →
       ¬ (is_file sm = true ∧ is_file tm = true ∧ checksums_differ sm tm))
    ∧ (mode_ = FULL →
       S_IMODE (mode sm) = S_IMODE (mode tm)
       ∧ (Qabs (mtime sm - mtime tm) <= 1)%Q).
Proof.
  unfold compare_metadata, type_differs, wants_checksum.
  destruct (negb _ || negb _); [split; [done | by intros [? _]]|].
  rewrite !app_nil, !if_singleton_nil, negb_false_iff, Z.eqb_eq.
  rewrite <- not_true_iff_false, !andb_true_iff, content_cond_spec.
  assert ((if bool_decide (mode_ = FULL)
           then (if negb (S_IMODE (mode sm) =? S_IMODE (mode tm)) then _ else [])
                ++ (if negb (Qle_bool (Qabs (mtime sm - mtime tm)) 1) then _ else [])
           else []) = []
          ↔ (mode_ = FULL →
             S_IMODE (mode sm) = S_IMODE (mode tm)
             ∧ (Qabs (mtime sm - mtime tm) <= 1)%Q)) as ->.
  { case_bool_decide as Hfull; [|done].
    rewrite app_nil, !if_singleton_nil, !negb_false_iff, Z.eqb_eq, Qle_bool_iff.
    naive_solver. }
  naive_solver.
Qed.

Lemma pair_result_nil_iff fs sm tm mode_ :
  (if negb (bool_decide (mode_ = QUICK)) || negb (size sm =? size tm)
   then compare_metadata fs sm tm mode_ else []) = []
  ↔ identical_in mode_ sm tm.
Proof.
  destruct mode_; cbn [identical_in];
    rewrite ?(bool_decide_eq_true_2 (QUICK = QUICK)) by done;
    rewrite ?(bool_decide_eq_false_2 (_ = QUICK)) by done; cbn [negb orb].
  - destruct (size sm =? size tm) eqn:Hsize; cbn [negb].
    + by apply Z.eqb_eq in Hsize.
    + apply Z.eqb_neq in Hsize. rewrite compare_metadata_nil_iff. naive_solver.
  - rewrite compare_metadata_nil_iff. unfold wants_checksum.
    rewrite bool_decide_eq_true_2 by set_solver. naive_solver.
  - rewrite compare_metadata_nil_iff. unfold wants_checksum.
    rewrite bool_decide_eq_false_2 by not_in. naive_solver.
  - rewrite compare_metadata_nil_iff. unfold wants_checksum.
    rewrite bool_decide_eq_true_2 by set_solver. naive_solver.
Qed.


(** *** Completed runs

    [ThreadPoolExecutor] refuses a pool size that is not positive, so the
    statements about runs that reach the worker pool are made for engines
    with [0 < max_workers]. *)

Lemma reverse_runtime_ok : runtime_ok reverse_runtime.
Proof. split; intros; apply reverse_Permutation. Qed.

Lemma plain_runtime_ok : runtime_ok plain_runtime.
Proof. split; intros; reflexivity. Qed.

Lemma two_sided_collected :
  collected default_engine two_sided_fs ["/"; "src"] ["/"; "dst"]
    two_sided_source two_sided_target.
Proof. split_and!; vm_compute; reflexivity. Qed.

Lemma sum_Z_perm l1 l2 : l1 ≡ₚ l2 → sum_Z l1 = sum_Z l2.
Proof. unfold sum_Z. induction 1; cbn; lia. Qed.

Lemma foldl_collect_future_bytes fs mode_ sf tf l : ∀ r,
  total_bytes_processed (foldl (collect_future fs mode_ sf tf) r l)
  = total_bytes_processed r + sum_Z (map (pair_bytes fs mode_ sf tf) l).
Proof.
  induction l as [|k l IH]; intros r; cbn [foldl map]; [unfold sum_Z; cbn; lia|].
  rewrite IH.
  assert (total_bytes_processed (collect_future fs mode_ sf tf r k)
          = total_bytes_processed r + pair_bytes fs mode_ sf tf k) as ->.
  { unfold collect_future, future_result, pair_bytes.
    by destruct (compare_file_pair fs k (sf !!! k) (tf !!! k) mode_) as [d b]. }
  unfold sum_Z. cbn [foldr]. lia.
Qed.

Lemma compare_collected_bytes fs rt mode_ sf tf r0 :
  runtime_ok rt →
  let r := compare_collected fs rt mode_ sf tf r0 in
  total_bytes_processed r
  = total_bytes_processed r0
    + sum_Z (map (pair_bytes fs mode_ sf tf) (elements (dom sf ∩ dom tf)))
  ∧ total_directories_processed r = count_dirs fs sf + count_dirs fs tf.
Proof.
  intros [Hs Hc]. cbn zeta. unfold compare_collected.
  cbn [set_final_statistics total_bytes_processed total_directories_processed].
  split; [|done].
  set (r1 := foldl add_missing_target r0 _).
  set (r2 := foldl add_missing_source r1 _).
  assert (total_bytes_processed r2 = total_bytes_processed r0) as H2.
  { subst r2. apply foldl_invariant; [by intros a b <-|].
    subst r1. by apply foldl_invariant; [intros a b <-|]. }
  case_bool_decide as Hempty.
  - rewrite Hempty, elements_empty, H2. unfold sum_Z. cbn. lia.
  - rewrite foldl_collect_future_bytes, H2. f_equal. apply sum_Z_perm.
    apply Permutation_map. by rewrite (Hc _), (Hs _).
Qed.

Lemma compare_collected_differences fs rt mode_ sf tf eng source target :
  runtime_ok rt →
  differences (compare_collected fs rt mode_ sf tf
                 (initial_result eng source target mode_))
  ≡ₚ expected_differences fs mode_ sf tf.
Proof.
  intros Hrt.
  destruct (compare_collected_spec fs rt mode_ sf tf
              (initial_result eng source target mode_) Hrt)
    as (_ & _ & _ & _ & _ & _ & ->).
  destruct Hrt as [Hs Hc]. cbn [initial_result differences app].
  unfold expected_differences, common_order.
  repeat apply Permutation_app.
  - apply Permutation_map, Hs.
  - apply Permutation_map, Hs.
  - apply Permutation_flat_map. by rewrite (Hc _), (Hs _).
Qed.

Lemma collected_run eng fs rt source target mode_name mode_ sf tf :
  ComparisonMode_of_string mode_name = inr mode_ →
  collected eng fs source target sf tf →
  content_comparison eng fs rt source target mode_name
  = inr (compare_collected fs rt mode_ sf tf
           (initial_result eng source target mode_)).
Proof.
  intros Hmode (Hs & Ht & Hsf & Htf).
  unfold content_comparison, comparison_body.
  by rewrite Hmode, Hs, Ht, Hsf, Htf.
Qed.

Lemma compare_metadata_not_missing fs sm tm mode_ d :
  d ∈ compare_metadata fs sm tm mode_ →
  difference_type d ≠ MISSING_TARGET ∧ difference_type d ≠ MISSING_SOURCE.
Proof.
  unfold compare_metadata. intros Hd.
  repeat match type of Hd with
         | _ ∈ (if ?b then _ else _) => destruct b
         | _ ∈ _ ++ _ => apply elem_of_app in Hd as [Hd|Hd]
         | _ ∈ [_] => apply list_elem_of_singleton in Hd as ->
         | _ ∈ [] => by apply elem_of_nil in Hd
         end; done.
Qed.

Lemma pair_differences_not_missing fs mode_ sf tf key d :
  d ∈ pair_differences fs mode_ sf tf key →
  difference_type d ≠ MISSING_TARGET ∧ difference_type d ≠ MISSING_SOURCE.
Proof.
  unfold pair_differences, compare_file_pair, compare_file_pair_body.
  destruct (get_file_metadata fs (sf !!! key) _) as [e|sm].
  { by intros ->%list_elem_of_singleton. }
  destruct (get_file_metadata fs (tf !!! key) _) as [e|tm].
  { by intros ->%list_elem_of_singleton. }
  cbn [fst]. destruct (_ || _).
  - apply compare_metadata_not_missing.
  - by intros ?%elem_of_nil.
Qed.

Lemma filter_none {A} (P : A → Prop) `{∀ x, Decision (P x)} (l : list A) :
  (∀ x, x ∈ l → ¬ P x) → filter P l = [].
Proof.
  induction l as [|x l IH]; intros Hall; [done|].
  rewrite filter_cons_False by (apply Hall; by left).
  apply IH. intros y Hy. apply Hall. by right.
Qed.

(** X14.  In a completed run the files found on one side only are reported once
    each, whatever the order of iteration: the differences of kind
    [MISSING_TARGET] are those of the keys of the source tree that are not
    keys of the target tree, and conversely; they carry the key as path and
    no metadata, and the two counters count them. *)
Theorem missing_files_reported_once
    eng fs rt source target mode_name r (sf tf : gmap string Path) :
  runtime_ok rt → 0 < max_workers eng →
  content_comparison eng fs rt source target mode_name = inr r →
  collected eng fs source target sf tf →
  filter (λ d, difference_type d = MISSING_TARGET) (differences r)
  ≡ₚ map (missing_difference MISSING_TARGET "File exists in source but not in target")
         (elements (dom sf ∖ dom tf))
  ∧ filter (λ d, difference_type d = MISSING_SOURCE) (differences r)
    ≡ₚ map (missing_difference MISSING_SOURCE "File exists in target but not in source")
           (elements (dom tf ∖ dom sf))
  ∧ files_missing_target r
    = Z.of_nat (length (filter (λ d, difference_type d = MISSING_TARGET)
                          (differences r)))
  ∧ files_missing_source r
    = Z.of_nat (length (filter (λ d, difference_type d = MISSING_SOURCE)
                          (differences r))).
Proof.
  intros Hrt _ Hr Hcol.
  destruct (content_comparison_inv _ _ _ _ _ _ _ Hr) as (mode_ & Hmode & _).
  rewrite (collected_run _ _ _ _ _ _ _ _ _ Hmode Hcol) in Hr.
  injection Hr as <-.
  pose proof (compare_collected_differences fs rt mode_ sf tf eng source target Hrt)
    as Hd.
  destruct (compare_collected_spec fs rt mode_ sf tf
              (initial_result eng source target mode_) Hrt)
    as (_ & Hmt & Hms & _).
  cbn [initial_result files_missing_target files_missing_source] in Hmt, Hms.
  assert (filter (λ d, difference_type d = MISSING_TARGET)
            (expected_differences fs mode_ sf tf)
          = map (missing_difference MISSING_TARGET
                   "File exists in source but not in target")
                (elements (dom sf ∖ dom tf))) as Ht.
  { unfold expected_differences. rewrite !filter_app.
    rewrite filter_all_keep, (filter_none _ (map _ (elements (dom tf ∖ dom sf)))),
      (filter_none _ (flat_map _ _)), !app_nil_r; [done| | |].
    - intros d (k & _ & Hk)%list_elem_of_In%in_flat_map.
      apply list_elem_of_In in Hk. by apply pair_differences_not_missing in Hk as [? _].
    - by intros d (k & <- & _)%list_elem_of_In%in_map_iff.
    - by intros d (k & <- & _)%list_elem_of_In%in_map_iff. }
  assert (filter (λ d, difference_type d = MISSING_SOURCE)
            (expected_differences fs mode_ sf tf)
          = map (missing_difference MISSING_SOURCE
                   "File exists in target but not in source")
                (elements (dom tf ∖ dom sf))) as Hs.
  { unfold expected_differences. rewrite !filter_app.
    rewrite (filter_none _ (map _ (elements (dom sf ∖ dom tf)))), filter_all_keep,
      (filter_none _ (flat_map _ _)), !app_nil_r; [done| | |].
    - intros d (k & _ & Hk)%list_elem_of_In%in_flat_map.
      apply list_elem_of_In in Hk. by apply pair_differences_not_missing in Hk as [_ ?].
    - by intros d (k & <- & _)%list_elem_of_In%in_map_iff.
    - by intros d (k & <- & _)%list_elem_of_In%in_map_iff. }
  rewrite Hd, Ht, Hs, !length_map. split_and!; try done; lia.
Qed.

Lemma missing_files_reported_once_witness :
  ∃ r, content_comparison default_engine two_sided_fs reverse_runtime
         ["/"; "src"] ["/"; "dst"] "quick" = inr r
       ∧ filter (λ d, difference_type d = MISSING_TARGET) (differences r)
         ≡ₚ map (missing_difference MISSING_TARGET
                   "File exists in source but not in target")
                (elements (dom two_sided_source ∖ dom two_sided_target)).
Proof.
  destruct (content_comparison default_engine two_sided_fs reverse_runtime
              ["/"; "src"] ["/"; "dst"] "quick") as [e|r] eqn:Hrun;
    [vm_compute in Hrun; discriminate Hrun|].
  exists r. split; [reflexivity|].
  refine (proj1 (missing_files_reported_once default_engine two_sided_fs
                   reverse_runtime ["/"; "src"] ["/"; "dst"] "quick" r
                   two_sided_source two_sided_target _ _ Hrun _)).
  - exact reverse_runtime_ok.
  - reflexivity.
  - exact two_sided_collected.
Defined.

Lemma comparison_body_failure eng fs rt rt' source target mode_ r0 r0' e :
  comparison_body eng fs rt source target mode_ r0 = inl e →
  comparison_body eng fs rt' source target mode_ r0' = inl e.
Proof.
  unfold comparison_body.
  destruct (negb (fs_exists fs source)); [done|].
  destruct (negb (fs_exists fs target)); [done|].
  destruct (collect_files eng fs source) as [?|sf]; [done|].
  by destruct (collect_files eng fs target) as [?|tf].
Qed.

Lemma identical_count_perm fs mode_ sf tf (l1 l2 : list string) :
  l1 ≡ₚ l2 →
  length (filter (λ k, pair_differences fs mode_ sf tf k = []) l1)
  = length (filter (λ k, pair_differences fs mode_ sf tf k = []) l2).
Proof. intros Hp. by rewrite Hp. Qed.

Lemma common_order_perm rt (sf tf : gmap string Path) :
  runtime_ok rt → common_order rt sf tf ≡ₚ elements (dom sf ∩ dom tf).
Proof. intros [Hs Hc]. unfold common_order. by rewrite (Hc _), (Hs _). Qed.

(** X15.  The order in which the runtime walks the sets of keys and in which the
    worker pool completes its tasks does not show in the result: two runs
    on the same trees agree on every counter, on the errors and on the
    success rate, and report the same differences up to their order. *)
Theorem result_independent_of_schedule
    eng fs rt1 rt2 source target mode_name r1 r2 :
  runtime_ok rt1 → runtime_ok rt2 → 0 < max_workers eng →
  content_comparison eng fs rt1 source target mode_name = inr r1 →
  content_comparison eng fs rt2 source target mode_name = inr r2 →
  total_files_processed r1 = total_files_processed r2
  ∧ total_directories_processed r1 = total_directories_processed r2
  ∧ files_identical r1 = files_identical r2
  ∧ files_different r1 = files_different r2
  ∧ files_missing_source r1 = files_missing_source r2
  ∧ files_missing_target r1 = files_missing_target r2
  ∧ total_bytes_processed r1 = total_bytes_processed r2
  ∧ errors r1 = errors r2
  ∧ differences r1 ≡ₚ differences r2
  ∧ success_rate r1 = success_rate r2
  ∧ has_differences r1 = has_differences r2.
Proof.
  intros Hrt1 Hrt2 _ H1 H2.
  apply content_comparison_inv in H1 as (m1 & Hm1 & H1).
  apply content_comparison_inv in H2 as (m2 & Hm2 & H2).
  assert (m2 = m1) as -> by congruence.
  destruct H1 as [(e1 & Hb1 & ->)|(sf & tf & Hs & Ht & Hsf & Htf & ->)].
  - destruct H2 as [(e2 & Hb2 & ->)|(sf & tf & Hs & Ht & Hsf & Htf & ->)].
    + rewrite (comparison_body_failure _ _ _ rt2 _ _ _ _
                 (initial_result eng source target m1) _ Hb1) in Hb2.
      injection Hb2 as <-. done.
    + exfalso. unfold comparison_body in Hb1.
      by rewrite Hs, Ht, Hsf, Htf in Hb1.
  - destruct H2 as [(e2 & Hb2 & ->)|(sf' & tf' & _ & _ & Hsf' & Htf' & ->)].
    { exfalso. unfold comparison_body in Hb2.
      by rewrite Hs, Ht, Hsf, Htf in Hb2. }
    assert (sf' = sf) as -> by congruence.
    assert (tf' = tf) as -> by congruence.
    set (r0 := initial_result eng source target m1).
    destruct (compare_collected_spec fs rt1 m1 sf tf r0 Hrt1)
      as (T1 & MT1 & MS1 & Sum1 & I1 & E1 & _).
    destruct (compare_collected_spec fs rt2 m1 sf tf r0 Hrt2)
      as (T2 & MT2 & MS2 & Sum2 & I2 & E2 & _).
    destruct (compare_collected_bytes fs rt1 m1 sf tf r0 Hrt1) as [B1 D1].
    destruct (compare_collected_bytes fs rt2 m1 sf tf r0 Hrt2) as [B2 D2].
    pose proof (compare_collected_differences fs rt1 m1 sf tf eng source target Hrt1)
      as P1.
    pose proof (compare_collected_differences fs rt2 m1 sf tf eng source target Hrt2)
      as P2.
    fold r0 in P1, P2. cbn zeta in *.
    assert (files_identical (compare_collected fs rt1 m1 sf tf r0)
            = files_identical (compare_collected fs rt2 m1 sf tf r0)) as HI.
    { rewrite I1, I2. f_equal. f_equal. apply identical_count_perm.
      by rewrite !common_order_perm. }
    assert (differences (compare_collected fs rt1 m1 sf tf r0)
            ≡ₚ differences (compare_collected fs rt2 m1 sf tf r0)) as HD.
    { by rewrite P1, P2. }
    split_and!; try congruence; try lia; try done.
    + unfold success_rate. by rewrite T1, T2, HI.
    + unfold has_differences. by rewrite (Permutation_length HD).
Qed.

Lemma result_independent_of_schedule_witness :
  ∃ r1 r2,
    content_comparison default_engine two_sided_fs plain_runtime
      ["/"; "src"] ["/"; "dst"] "full" = inr r1
    ∧ content_comparison default_engine two_sided_fs reverse_runtime
        ["/"; "src"] ["/"; "dst"] "full" = inr r2
    ∧ files_identical r1 = files_identical r2
    ∧ differences r1 ≡ₚ differences r2.
Proof.
  destruct (content_comparison default_engine two_sided_fs plain_runtime
              ["/"; "src"] ["/"; "dst"] "full") as [e|r1] eqn:Hrun1;
    [vm_compute in Hrun1; discriminate Hrun1|].
  destruct (content_comparison default_engine two_sided_fs reverse_runtime
              ["/"; "src"] ["/"; "dst"] "full") as [e|r2] eqn:Hrun2;
    [vm_compute in Hrun2; discriminate Hrun2|].
  exists r1, r2. split; [reflexivity|]. split; [reflexivity|].
  destruct (result_independent_of_schedule default_engine two_sided_fs
              plain_runtime reverse_runtime ["/"; "src"] ["/"; "dst"] "full" r1 r2
              plain_runtime_ok reverse_runtime_ok eq_refl Hrun1 Hrun2)
    as (_ & _ & Hid & _ & _ & _ & _ & _ & Hdiff & _).
  split; [exact Hid|exact Hdiff].
Defined.

(** X16.  A comparison whose source or target root does not exist does not
    raise: it returns a result with one error message, no difference and
    every counter at 0, so that its success rate is 100 and the command
    line exits with status 0. *)
Theorem missing_root_exits_clean eng fs rt source target mode_name mode_ :
  ComparisonMode_of_string mode_name = inr mode_ →
  fs_exists fs source = false ∨ fs_exists fs target = false →
  ∃ r, content_comparison eng fs rt source target mode_name = inr r
       ∧ errors r
         = ["Comparison failed: "
            +:+ (if fs_exists fs source
                 then "Target path does not exist: " +:+ path_str target
                 else "Source path does not exist: " +:+ path_str source)]
       ∧ differences r = []
       ∧ total_files_processed r = 0
       ∧ files_identical r = 0
       ∧ success_rate r = Some 100%Q
       ∧ exit_status r = 0.
Proof.
  intros Hmode Hmissing. unfold content_comparison, comparison_body.
  rewrite Hmode.
  destruct (fs_exists fs source) eqn:Hs; cbn [negb].
  - destruct Hmissing as [?|Ht]; [done|]. rewrite Ht. cbn [negb].
    eexists. split; [done|]. by split_and!.
  - eexists. split; [done|]. by split_and!.
Qed.

Lemma missing_root_exits_clean_witness :
  ∃ r, content_comparison default_engine absent_fs plain_runtime
         ["/"; "src"] ["/"; "dst"] "full" = inr r
       ∧ errors r = ["Comparison failed: Source path does not exist: /src"]
       ∧ exit_status r = 0.
Proof.
  destruct (missing_root_exits_clean default_engine absent_fs plain_runtime
              ["/"; "src"] ["/"; "dst"] "full" FULL eq_refl (or_introl eq_refl))
    as (r & Hrun & Herr & _ & _ & _ & _ & Hexit).
  exists r. split; [exact Hrun|]. split; [exact Herr|exact Hexit].
Defined.

(** *** No difference and the success rate *)

Lemma filter_length_all {A} (P : A → Prop) {Hdec : ∀ x, Decision (P x)}
    (l : list A) :
  length (filter P l) = length l → ∀ x, x ∈ l → P x.
Proof.
  intros Hlen x Hx. destruct (decide (P x)) as [|Hn]; [done|].
  pose proof (length_filter_lt P (H:=Hdec) l x Hx Hn). lia.
Qed.

Lemma rate_is_100 (a b : Z) :
  0 < b → (inject_Z a / inject_Z b * 100 == 100)%Q ↔ a = b.
Proof.
  intros Hb. destruct b as [|p|p]; try lia.
  unfold Qeq, Qdiv, Qmult, Qinv, inject_Z. cbn. lia.
Qed.

Lemma compare_collected_clean fs rt mode_ sf tf eng source target :
  runtime_ok rt →
  let r := compare_collected fs rt mode_ sf tf
             (initial_result eng source target mode_) in
  (differences r = [] ↔ files_identical r = total_files_processed r)
  ∧ 0 ≤ files_identical r ≤ total_files_processed r.
Proof.
  intros Hrt. cbn zeta.
  destruct (compare_collected_spec fs rt mode_ sf tf
              (initial_result eng source target mode_) Hrt)
    as (T & _ & _ & _ & I & _ & D).
  cbn [initial_result files_identical differences app] in I, D.
  pose proof (size_union_three (dom sf) (dom tf)) as Hsize.
  pose proof (length_filter (λ k, pair_differences fs mode_ sf tf k = [])
                (common_order rt sf tf)) as Hle.
  assert (length (common_order rt sf tf) = base.size (dom sf ∩ dom tf)) as Hlen.
  { unfold common_order. by rewrite length_completion_order, length_set_order. }
  split; [|lia]. rewrite T, I, D. split.
  - intros (Ht%(f_equal length) & (Hs%(f_equal length) & Hp)%app_nil)%app_nil.
    rewrite length_map, length_set_order in Ht, Hs by done. cbn in Ht, Hs.
    rewrite filter_all_keep; [lia|].
    intros k Hk. destruct (pair_differences fs mode_ sf tf k) as [|d ds] eqn:Hd; [done|].
    exfalso. assert (d ∈ flat_map (pair_differences fs mode_ sf tf)
                           (common_order rt sf tf)) as Hin.
    { apply list_elem_of_In, in_flat_map. exists k.
      split; apply list_elem_of_In; [done|]. rewrite Hd. by left. }
    rewrite Hp in Hin. by apply elem_of_nil in Hin.
  - intros Heq.
    assert (base.size (dom sf ∖ dom tf) = 0%nat) as Ht by lia.
    assert (base.size (dom tf ∖ dom sf) = 0%nat) as Hs by lia.
    assert (length (filter (λ k, pair_differences fs mode_ sf tf k = [])
                      (common_order rt sf tf))
            = length (common_order rt sf tf)) as Hall by lia.
    rewrite <- (length_set_order rt) in Ht, Hs by done.
    apply length_zero_iff_nil in Ht, Hs. rewrite Ht, Hs. cbn [map app].
    apply flat_map_all_nil.
    exact (filter_length_all (λ k, pair_differences fs mode_ sf tf k = []) _ Hall).
Qed.

(** X17.  A run reports no difference exactly when its success rate is 100: in
    a completed run both say that every key is common to the two trees and
    every pair is identical, and a failed run has neither differences nor
    processed files. *)
Theorem no_difference_iff_full_success_rate
    eng fs rt source target mode_name r :
  runtime_ok rt → 0 < max_workers eng →
  content_comparison eng fs rt source target mode_name = inr r →
  (has_differences r = false ↔ same_rate (success_rate r) (Some 100%Q))
  ∧ (has_differences r = false ↔ files_identical r = total_files_processed r)
  ∧ (has_differences r = false ↔ exit_status r = 0).
Proof.
  intros Hrt _ (mode_ & _ & [(e & _ & ->)|(sf & tf & _ & _ & _ & _ & ->)])
    %content_comparison_inv.
  { by cbn. }
  destruct (compare_collected_clean fs rt mode_ sf tf eng source target Hrt)
    as [Hiff Hrange].
  set (r := compare_collected _ _ _ _ _ _) in *.
  assert (has_differences r = false ↔ differences r = []) as Hhas.
  { unfold has_differences. rewrite bool_decide_eq_false.
    destruct (differences r); cbn; split; try done; lia. }
  split_and!.
  - rewrite Hhas, Hiff. unfold success_rate, true_div.
    destruct (total_files_processed r =? 0) eqn:Hz.
    + apply Z.eqb_eq in Hz. unfold same_rate. split; [done|]. lia.
    + apply Z.eqb_neq in Hz. cbn [mbind option_bind same_rate].
      rewrite rate_is_100 by lia. done.
  - by rewrite Hhas.
  - unfold exit_status. by destruct (has_differences r).
Qed.

Lemma no_difference_iff_full_success_rate_witness :
  ∃ r, content_comparison default_engine two_sided_fs plain_runtime
         ["/"; "src"] ["/"; "dst"] "full" = inr r
       ∧ (has_differences r = false ↔ same_rate (success_rate r) (Some 100%Q)).
Proof.
  destruct (content_comparison default_engine two_sided_fs plain_runtime
              ["/"; "src"] ["/"; "dst"] "full") as [e|r] eqn:Hrun;
    [vm_compute in Hrun; discriminate Hrun|].
  exists r. split; [reflexivity|].
  exact (proj1 (no_difference_iff_full_success_rate default_engine two_sided_fs
                  plain_runtime ["/"; "src"] ["/"; "dst"] "full" r
                  plain_runtime_ok eq_refl Hrun)).
Defined.

(** *** Exchanging the two sides *)

Lemma type_differs_sym sm tm : type_differs sm tm = type_differs tm sm.
Proof.
  unfold type_differs.
  by destruct (is_file sm), (is_file tm), (is_dir sm), (is_dir tm).
Qed.

Lemma checksums_differ_sym sm tm : checksums_differ sm tm → checksums_differ tm sm.
Proof. intros (cs & ct & ? & ? & ? & ? & ?). exists ct, cs. by split_and!. Qed.

Lemma identical_in_sym mode_ sm tm : identical_in mode_ sm tm → identical_in mode_ tm sm.
Proof.
  assert (∀ a b, ¬ (is_file a = true ∧ is_file b = true ∧ checksums_differ a b) →
                 ¬ (is_file b = true ∧ is_file a = true ∧ checksums_differ b a)) as Hc.
  { intros a b Hn (? & ? & ?%checksums_differ_sym). by apply Hn. }
  destruct mode_; cbn [identical_in]; rewrite ?(type_differs_sym tm sm).
  - by intros ->.
  - intros (? & ? & ? & ? & Ht). split_and!; try done; [by apply Hc|].
    by rewrite Qabs_Qminus.
  - by intros [? ->].
  - intros (? & ? & ?). split_and!; try done. by apply Hc.
Qed.

Lemma pair_identical_sym fs mode_ (sf tf : gmap string Path) key :
  pair_differences fs mode_ sf tf key = [] → pair_differences fs mode_ tf sf key = [].
Proof.
  unfold pair_differences, compare_file_pair, compare_file_pair_body.
  destruct (get_file_metadata fs (sf !!! key) _) as [e|sm];
    destruct (get_file_metadata fs (tf !!! key) _) as [e'|tm]; try done.
  cbn [fst]. rewrite !pair_result_nil_iff. apply identical_in_sym.
Qed.

Lemma collected_sym eng fs source target sf tf :
  collected eng fs source target sf tf → collected eng fs target source tf sf.
Proof. by intros (? & ? & ? & ?). Qed.

Lemma comparison_body_collected eng fs rt source target mode_ r0 :
  (∃ sf tf, collected eng fs source target sf tf
            ∧ comparison_body eng fs rt source target mode_ r0
              = inr (compare_collected fs rt mode_ sf tf r0))
  ∨ ((∃ e, comparison_body eng fs rt source target mode_ r0 = inl e)
     ∧ ∀ sf tf, ¬ collected eng fs source target sf tf).
Proof.
  unfold comparison_body, collected.
  destruct (fs_exists fs source); cbn [negb];
    [|right; split; [by eexists|by intros sf tf (? & _)]].
  destruct (fs_exists fs target); cbn [negb];
    [|right; split; [by eexists|by intros sf tf (_ & ? & _)]].
  destruct (collect_files eng fs source) as [e|sf];
    [right; split; [by eexists|by intros sf tf (_ & _ & ? & _)]|].
  destruct (collect_files eng fs target) as [e|tf];
    [right; split; [by eexists|by intros sf' tf (_ & _ & _ & ?)]|].
  left. by exists sf, tf.
Qed.

(** X18.  Exchanging source and target exchanges the two counters of missing
    files and leaves the rest of the verdict alone: the same number of
    processed, identical and different files, the same success rate, and a
    failure on one side exactly when there is one on the other. *)
Theorem exchanging_sides_exchanges_missing
    eng fs rt rt' source target mode_name r r' :
  runtime_ok rt → runtime_ok rt' → 0 < max_workers eng →
  content_comparison eng fs rt source target mode_name = inr r →
  content_comparison eng fs rt' target source mode_name = inr r' →
  total_files_processed r' = total_files_processed r
  ∧ total_directories_processed r' = total_directories_processed r
  ∧ files_identical r' = files_identical r
  ∧ files_different r' = files_different r
  ∧ files_missing_source r' = files_missing_target r
  ∧ files_missing_target r' = files_missing_source r
  ∧ success_rate r' = success_rate r
  ∧ has_differences r' = has_differences r
  ∧ (errors r' = [] ↔ errors r = []).
Proof.
  intros Hrt Hrt' _ H H'. unfold content_comparison in H, H'.
  destruct (ComparisonMode_of_string mode_name) as [?|m]; [done|].
  destruct (comparison_body_collected eng fs rt source target m
              (initial_result eng source target m))
    as [(sf & tf & Hcol & Hb)|[[e Hb] Hnot]];
  destruct (comparison_body_collected eng fs rt' target source m
              (initial_result eng target source m))
    as [(tf' & sf' & Hcol' & Hb')|[[e' Hb'] Hnot']];
  rewrite Hb in H; rewrite Hb' in H'; injection H as <-; injection H' as <-.
  - destruct Hcol as (_ & _ & Hsf & Htf), Hcol' as (_ & _ & Htf' & Hsf').
    assert (sf' = sf) as -> by congruence.
    assert (tf' = tf) as -> by congruence.
    destruct (compare_collected_spec fs rt m sf tf
                (initial_result eng source target m) Hrt)
      as (T & MT & MS & Sum & I & E & _).
    destruct (compare_collected_spec fs rt' m tf sf
                (initial_result eng target source m) Hrt')
      as (T' & MT' & MS' & Sum' & I' & E' & _).
    destruct (compare_collected_bytes fs rt m sf tf
                (initial_result eng source target m) Hrt) as [_ D].
    destruct (compare_collected_bytes fs rt' m tf sf
                (initial_result eng target source m) Hrt') as [_ D'].
    destruct (compare_collected_clean fs rt m sf tf eng source target Hrt)
      as [C _].
    destruct (compare_collected_clean fs rt' m tf sf eng target source Hrt')
      as [C' _].
    cbn zeta in *.
    cbn [initial_result files_missing_target files_missing_source files_identical
           files_different errors] in *.
    set (c := compare_collected fs rt m sf tf _) in *.
    set (c' := compare_collected fs rt' m tf sf _) in *.
    assert (dom tf ∪ dom sf = dom sf ∪ dom tf) as HU by set_solver.
    assert (dom tf ∩ dom sf = dom sf ∩ dom tf) as HI by set_solver.
    assert (files_identical c' = files_identical c) as Hid.
    { rewrite I, I'. f_equal. f_equal.
      rewrite (filter_Permutation _ _ _ (common_order_perm rt' tf sf Hrt')).
      rewrite (filter_Permutation _ _ _ (common_order_perm rt sf tf Hrt)).
      rewrite HI. f_equal. apply list_filter_iff. intros k.
      split; apply pair_identical_sym. }
    assert (total_files_processed c' = total_files_processed c) as Htot.
    { by rewrite T, T', HU. }
    split_and!; try lia.
    + rewrite HI in Sum'. lia.
    + unfold success_rate. by rewrite Htot, Hid.
    + unfold has_differences.
      destruct (decide (differences c = [])) as [Hd|Hd].
      * assert (differences c' = []) as -> by (apply C'; apply C in Hd; lia).
        by rewrite Hd.
      * assert (differences c' ≠ []) as Hd'.
        { intros Hd'. apply Hd, C. apply C' in Hd'. lia. }
        rewrite !bool_decide_eq_true_2; [done| |];
          [by destruct (differences c); [|cbn; lia]
          |by destruct (differences c'); [|cbn; lia]].
    + by rewrite E, E'.
  - exfalso. by apply (Hnot' tf sf), collected_sym.
  - exfalso. by apply (Hnot sf' tf'), collected_sym.
  - by cbn.
Qed.

Lemma exchanging_sides_exchanges_missing_witness :
  ∃ r r',
    content_comparison default_engine two_sided_fs plain_runtime
      ["/"; "src"] ["/"; "dst"] "full" = inr r
    ∧ content_comparison default_engine two_sided_fs reverse_runtime
        ["/"; "dst"] ["/"; "src"] "full" = inr r'
    ∧ files_missing_source r' = files_missing_target r
    ∧ files_identical r' = files_identical r.
Proof.
  destruct (content_comparison default_engine two_sided_fs plain_runtime
              ["/"; "src"] ["/"; "dst"] "full") as [e|r] eqn:Hrun;
    [vm_compute in Hrun; discriminate Hrun|].
  destruct (content_comparison default_engine two_sided_fs reverse_runtime
              ["/"; "dst"] ["/"; "src"] "full") as [e|r'] eqn:Hrun';
    [vm_compute in Hrun'; discriminate Hrun'|].
  exists r, r'. split; [reflexivity|]. split; [reflexivity|].
  destruct (exchanging_sides_exchanges_missing default_engine two_sided_fs
              plain_runtime reverse_runtime ["/"; "src"] ["/"; "dst"] "full" r r'
              plain_runtime_ok reverse_runtime_ok eq_refl Hrun Hrun')
    as (_ & _ & Hid & _ & Hms & _).
  split; [exact Hms|exact Hid].
Defined.

(** *** Modes that do not read content *)

Lemma foldl_ext_in {A B} (f g : A → B → A) (l : list B) : ∀ a,
  (∀ a b, f a b = g a b) → foldl f a l = foldl g a l.
Proof.
  induction l as [|b l IH]; intros a Hfg; [done|]. cbn. rewrite Hfg. by apply IH.
Qed.

Lemma get_file_metadata_no_checksum fs fs' p :
  same_but_content fs fs' →
  get_file_metadata fs' p false = get_file_metadata fs p false.
Proof.
  intros (_ & _ & Hl & Hd & Hf & Hst & _). unfold get_file_metadata.
  by rewrite Hl, Hd, Hf, Hst.
Qed.

Lemma compare_metadata_same_but_content fs fs' sm tm mode_ :
  same_but_content fs fs' →
  compare_metadata fs' sm tm mode_ = compare_metadata fs sm tm mode_.
Proof.
  intros (_ & _ & _ & _ & _ & _ & _ & Ho & Hfl). unfold compare_metadata.
  by rewrite Ho, Hfl.
Qed.

Lemma compare_file_pair_no_checksum fs fs' key s t mode_ :
  same_but_content fs fs' → wants_checksum mode_ = false →
  compare_file_pair fs' key s t mode_ = compare_file_pair fs key s t mode_.
Proof.
  intros Hsame Hmode. unfold compare_file_pair, compare_file_pair_body.
  fold (wants_checksum mode_). rewrite Hmode.
  rewrite !(get_file_metadata_no_checksum fs fs') by done.
  destruct (get_file_metadata fs s false) as [?|sm]; [done|].
  destruct (get_file_metadata fs t false) as [?|tm]; [done|].
  by rewrite (compare_metadata_same_but_content fs fs').
Qed.

Lemma collect_files_same_but_content eng fs fs' root :
  same_but_content fs fs' → collect_files eng fs' root = collect_files eng fs root.
Proof.
  intros (_ & Hg & Hl & _ & _ & _ & Hfn & _). unfold collect_files. rewrite Hg.
  destruct (fs_rglob fs root) as [?|items]; [done|]. f_equal.
  apply foldl_ext_in. intros files item.
  unfold collect_step, should_exclude. by rewrite Hl, Hfn.
Qed.

Lemma count_dirs_same_but_content fs fs' files :
  same_but_content fs fs' → count_dirs fs' files = count_dirs fs files.
Proof. intros (_ & _ & _ & Hd & _). unfold count_dirs. by rewrite Hd. Qed.

(** X19.  In [quick] and [metadata_only] mode the content of files is never
    read: two file systems that agree on everything but the content of
    their files give the same result, whatever the checksums are and
    whether or not they can be computed at all. *)
Theorem quick_and_metadata_modes_ignore_content
    eng fs fs' rt source target mode_name :
  same_but_content fs fs' →
  mode_name = "quick" ∨ mode_name = "metadata_only" →
  content_comparison eng fs' rt source target mode_name
  = content_comparison eng fs rt source target mode_name.
Proof.
  intros Hsame Hname. unfold content_comparison.
  destruct (ComparisonMode_of_string mode_name) as [?|m] eqn:Hmode; [done|].
  assert (wants_checksum m = false) as Hm.
  { destruct Hname as [->| ->]; vm_compute in Hmode; by injection Hmode as <-. }
  assert (comparison_body eng fs' rt source target m
            (initial_result eng source target m)
          = comparison_body eng fs rt source target m
              (initial_result eng source target m)) as ->; [|done].
  unfold comparison_body.
  rewrite !(collect_files_same_but_content eng fs fs') by done.
  destruct Hsame as (He & Hrest). rewrite He.
  destruct (negb (fs_exists fs source)); [done|].
  destruct (negb (fs_exists fs target)); [done|].
  destruct (collect_files eng fs source) as [?|sf]; [done|].
  destruct (collect_files eng fs target) as [?|tf]; [done|].
  f_equal. unfold compare_collected.
  rewrite !(count_dirs_same_but_content fs fs') by done.
  do 2 f_equal. case_bool_decide; [done|].
  apply foldl_ext_in. intros r k. unfold collect_future, future_result.
  by rewrite (compare_file_pair_no_checksum fs fs').
Qed.

Lemma quick_and_metadata_modes_ignore_content_witness :
  content_comparison default_engine unreadable_two_sided_fs plain_runtime
    ["/"; "src"] ["/"; "dst"] "metadata_only"
  = content_comparison default_engine two_sided_fs plain_runtime
      ["/"; "src"] ["/"; "dst"] "metadata_only".
Proof.
  apply (quick_and_metadata_modes_ignore_content default_engine two_sided_fs
           unreadable_two_sided_fs plain_runtime ["/"; "src"] ["/"; "dst"]
           "metadata_only").
  - unfold same_but_content. repeat split; reflexivity.
  - right. reflexivity.
Defined.

(** *** Collecting a tree *)







(** *** Bytes and directories *)

Lemma count_dirs_bound fs (files : gmap string Path) :
  0 ≤ count_dirs fs files ≤ Z.of_nat (base.size (dom files)).
Proof.
  unfold count_dirs.
  pose proof (length_filter (λ kv : string * Path, fs_is_dir fs kv.2 = true)
                (map_to_list files)) as Hle.
  rewrite length_map_to_list in Hle. rewrite size_dom. lia.
Qed.

(** X21.  The byte counter of a completed run adds up, over the keys common to
    both trees, the size of the source file of each pair whose two
    metadata records could be read, in every mode, and nothing for the
    other pairs; target sizes and files found on one side only are never
    counted.  Directories are collected like files, so that the directory
    counter is at most twice the number of processed files. *)
Theorem bytes_count_source_sizes
    eng fs rt source target mode_name mode_ r (sf tf : gmap string Path) :
  runtime_ok rt → 0 < max_workers eng →
  ComparisonMode_of_string mode_name = inr mode_ →
  collected eng fs source target sf tf →
  content_comparison eng fs rt source target mode_name = inr r →
  total_bytes_processed r
  = sum_Z (map (pair_bytes fs mode_ sf tf) (elements (dom sf ∩ dom tf)))
  ∧ (∀ key,
       pair_bytes fs mode_ sf tf key
       = match get_file_metadata fs (sf !!! key) (wants_checksum mode_),
               get_file_metadata fs (tf !!! key) (wants_checksum mode_) with
         | inr sm, inr _ => size sm
         | _, _ => 0
         end)
  ∧ total_directories_processed r = count_dirs fs sf + count_dirs fs tf
  ∧ 0 ≤ total_directories_processed r ≤ 2 * total_files_processed r.
Proof.
  intros Hrt _ Hmode Hcol Hr.
  rewrite (collected_run _ _ _ _ _ _ _ _ _ Hmode Hcol) in Hr. injection Hr as <-.
  destruct (compare_collected_bytes fs rt mode_ sf tf
              (initial_result eng source target mode_) Hrt) as [B D].
  destruct (compare_collected_spec fs rt mode_ sf tf
              (initial_result eng source target mode_) Hrt) as (T & _).
  cbn zeta in *. cbn [initial_result total_bytes_processed] in B.
  split_and!; [lia| |lia| |].
  - intros key. unfold pair_bytes, compare_file_pair, compare_file_pair_body.
    fold (wants_checksum mode_).
    destruct (get_file_metadata fs (sf !!! key) _) as [?|sm]; [done|].
    by destruct (get_file_metadata fs (tf !!! key) _) as [?|tm].
  - rewrite D. pose proof (count_dirs_bound fs sf). pose proof (count_dirs_bound fs tf).
    lia.
  - rewrite D, T.
    pose proof (count_dirs_bound fs sf). pose proof (count_dirs_bound fs tf).
    assert (base.size (dom sf) ≤ base.size (dom sf ∪ dom tf))%nat
      by (apply subseteq_size; set_solver).
    assert (base.size (dom tf) ≤ base.size (dom sf ∪ dom tf))%nat
      by (apply subseteq_size; set_solver).
    lia.
Qed.

Lemma bytes_count_source_sizes_witness :
  ∃ r, content_comparison default_engine two_sided_fs plain_runtime
         ["/"; "src"] ["/"; "dst"] "metadata_only" = inr r
       ∧ total_bytes_processed r
         = sum_Z (map (pair_bytes two_sided_fs METADATA_ONLY
                         two_sided_source two_sided_target)
                      (elements (dom two_sided_source ∩ dom two_sided_target))).
Proof.
  destruct (content_comparison default_engine two_sided_fs plain_runtime
              ["/"; "src"] ["/"; "dst"] "metadata_only") as [e|r] eqn:Hrun;
    [vm_compute in Hrun; discriminate Hrun|].
  exists r. split; [reflexivity|].
  exact (proj1 (bytes_count_source_sizes default_engine two_sided_fs plain_runtime
                  ["/"; "src"] ["/"; "dst"] "metadata_only" METADATA_ONLY r
                  two_sided_source two_sided_target
                  plain_runtime_ok eq_refl eq_refl two_sided_collected Hrun)).
Defined.

(** *** Construction *)

(** X22.  An engine built without a pool size, or with pool size 0, gets
    between 5 and 32 workers; any other pool size is kept as given, and a
    missing list of exclusion patterns is the empty list.  With a pool
    size that is not negative the engine has at least one worker.  The
    module-level [content_comparison] runs such an engine with the default
    chunk size, not following symbolic links, case sensitive. *)
Theorem engine_pool_size
    max_workers_arg cpu_count chunk_size_arg exclude_arg follow case :
  (∀ n, cpu_count = Some n → 0 < n) →
  let eng := new_engine max_workers_arg cpu_count chunk_size_arg exclude_arg
               follow case in
  (max_workers_arg = None ∨ max_workers_arg = Some 0 →
   5 ≤ max_workers eng ≤ 32
   ∧ max_workers eng = Z.min 32 (default 1 cpu_count + 4))
  ∧ (∀ n, max_workers_arg = Some n → n ≠ 0 → max_workers eng = n)
  ∧ ((∀ n, max_workers_arg = Some n → 0 ≤ n) → 0 < max_workers eng)
  ∧ exclude_patterns eng = default [] exclude_arg
  ∧ (exclude_arg = Some [] → exclude_patterns eng = [])
  ∧ (∀ fs rt source target mode_name,
       content_comparison_function fs rt cpu_count source target mode_name
         max_workers_arg exclude_arg
       = content_comparison
           (new_engine max_workers_arg cpu_count 8192 exclude_arg false true)
           fs rt source target mode_name).
Proof.
  intros Hcpu. cbn zeta. unfold new_engine. cbn [max_workers exclude_patterns].
  assert (default_max_workers cpu_count = Z.min 32 (default 1 cpu_count + 4)
          ∧ 5 ≤ default_max_workers cpu_count ≤ 32) as [Heq Hd].
  { unfold default_max_workers. destruct cpu_count as [n|]; cbn [from_option id]; [|lia].
    specialize (Hcpu n eq_refl). destruct (n =? 0) eqn:Hz; [|lia].
    apply Z.eqb_eq in Hz. lia. }
  split_and!.
  - by intros [->| ->].
  - intros n -> Hn. apply Z.eqb_neq in Hn. by rewrite Hn.
  - intros Hpos. destruct max_workers_arg as [n|]; [|lia].
    specialize (Hpos n eq_refl). destruct (n =? 0) eqn:Hz; [lia|].
    apply Z.eqb_neq in Hz. lia.
  - done.
  - by intros ->.
  - done.
Qed.

Lemma engine_pool_size_witness :
  5 ≤ max_workers (new_engine None (Some 8) 8192 None false true) ≤ 32.
Proof.
  refine (proj1 (proj1 (engine_pool_size None (Some 8) 8192 None false true _)
                   (or_introl eq_refl))).
  intros n [= <-]. reflexivity.
Defined.

End ComparisonExtraProofs.

(** * Properties of the detailed report *)

Module ComparisonReportProofs.
Import PyStr PyPath Comparison ComparisonReport ComparisonProofs ComparisonExtraProofs.

(** *** The grouping loop *)

Lemma by_type_get_append G d ty :
  by_type_get ty (by_type_append G d)
  = if bool_decide (ty = difference_type d)
    then Some (default [] (by_type_get ty G) ++ [d])
    else by_type_get ty G.
Proof.
  induction G as [|[ty' g] G IH]; cbn [by_type_append].
  - cbn [by_type_get]. destruct (decide (ty = difference_type d)) as [->|Hne].
    + by rewrite !bool_decide_eq_true_2.
    + by rewrite !bool_decide_eq_false_2 by congruence.
  - destruct (decide (ty' = difference_type d)) as [->|Hne'].
    + rewrite (bool_decide_eq_true_2 (difference_type d = difference_type d)) by done.
      cbn [by_type_get]. destruct (decide (ty = difference_type d)) as [->|Hne].
      * by rewrite !bool_decide_eq_true_2.
      * by rewrite !bool_decide_eq_false_2 by congruence.
    + rewrite (bool_decide_eq_false_2 (ty' = difference_type d)) by done.
      cbn [by_type_get]. rewrite IH.
      destruct (decide (ty' = ty)) as [->|Hne''].
      * rewrite (bool_decide_eq_true_2 (ty = ty)) by done.
        by rewrite bool_decide_eq_false_2.
      * by rewrite (bool_decide_eq_false_2 (ty' = ty)).
Qed.

Lemma by_type_keys_append G d :
  (by_type_append G d).*1
  = if bool_decide (difference_type d ∈ G.*1) then G.*1
    else G.*1 ++ [difference_type d].
Proof.
  induction G as [|[ty' g] G IH].
  - cbn. rewrite bool_decide_eq_false_2; [done|]. by intros ?%elem_of_nil.
  - cbn [by_type_append]. rewrite fmap_cons. cbn [fst].
    destruct (decide (ty' = difference_type d)) as [->|Hne].
    + rewrite (bool_decide_eq_true_2 (difference_type d = difference_type d)) by done.
      rewrite fmap_cons. cbn [fst]. rewrite bool_decide_eq_true_2; [done|]. by left.
    + rewrite (bool_decide_eq_false_2 (ty' = _)) by done.
      rewrite fmap_cons, IH. cbn [fst].
      destruct (decide (difference_type d ∈ G.*1)) as [Hin|Hnotin].
      * rewrite !bool_decide_eq_true_2; [done|by right|done].
      * rewrite !bool_decide_eq_false_2; [done| |done].
        intros [?|?]%elem_of_cons; [congruence|done].
Qed.

Lemma by_type_get_None ty G : by_type_get ty G = None ↔ ty ∉ G.*1.
Proof.
  induction G as [|[ty' g] G IH].
  - cbn. split; [intros _ ?%elem_of_nil; done|done].
  - cbn [by_type_get]. rewrite fmap_cons. cbn [fst].
    destruct (decide (ty' = ty)) as [->|Hne].
    + rewrite bool_decide_eq_true_2 by done.
      split; [done|]. intros Hn. exfalso. apply Hn. by left.
    + rewrite bool_decide_eq_false_2 by done. rewrite IH. split.
      * intros Hn [?|?]%elem_of_cons; [congruence|done].
      * intros Hn Hin. apply Hn. by right.
Qed.

Lemma by_type_elem G ty g :
  NoDup G.*1 → (ty, g) ∈ G ↔ by_type_get ty G = Some g.
Proof.
  induction G as [|[ty' g'] G IH].
  - intros _. cbn. split; [by intros ?%elem_of_nil|done].
  - rewrite fmap_cons. cbn [fst by_type_get].
    intros [Hnotin Hnd]%NoDup_cons. specialize (IH Hnd).
    rewrite elem_of_cons, IH.
    destruct (decide (ty' = ty)) as [->|Hne].
    + rewrite bool_decide_eq_true_2 by done. split.
      * intros [[= ->]|Hget]; [done|].
        exfalso. apply by_type_get_None in Hnotin. congruence.
      * intros [= ->]. by left.
    + rewrite bool_decide_eq_false_2 by done.
      split; [|by right]. intros [[= ? ?]|?]; [congruence|done].
Qed.

Lemma group_by_type_snoc ds d :
  group_by_type (ds ++ [d]) = by_type_append (group_by_type ds) d.
Proof. unfold group_by_type. by rewrite foldl_snoc. Qed.

Lemma of_type_snoc ty ds d :
  of_type ty (ds ++ [d])
  = of_type ty ds ++ (if bool_decide (ty = difference_type d) then [d] else []).
Proof.
  unfold of_type. rewrite filter_app. f_equal.
  case_bool_decide as H1.
  - by rewrite filter_cons_True.
  - rewrite filter_cons_False; [done|]. congruence.
Qed.

Lemma group_by_type_get ds ty :
  by_type_get ty (group_by_type ds)
  = match of_type ty ds with
    | [] => None
    | diffs => Some diffs
    end.
Proof.
  induction ds as [|d ds IH] using rev_ind; [done|].
  rewrite group_by_type_snoc, by_type_get_append, of_type_snoc, IH.
  case_bool_decide as H1.
  - destruct (of_type ty ds); done.
  - by rewrite app_nil_r.
Qed.

Lemma group_by_type_NoDup ds : NoDup (group_by_type ds).*1.
Proof.
  induction ds as [|d ds IH] using rev_ind; [constructor|].
  rewrite group_by_type_snoc, by_type_keys_append.
  case_bool_decide as H1; [done|].
  apply NoDup_app. split_and!; [done| |apply NoDup_singleton].
  intros ty Hin ->%list_elem_of_singleton. done.
Qed.

Lemma group_by_type_keys ds :
  (group_by_type ds).*1
  = reverse (remove_dups (reverse (difference_type <$> ds))).
Proof.
  induction ds as [|d ds IH] using rev_ind; [done|].
  rewrite group_by_type_snoc, by_type_keys_append, fmap_app, reverse_app, IH.
  cbn [fmap list_fmap]. rewrite reverse_singleton. cbn [app remove_dups].
  destruct (decide_rel elem_of (difference_type d) (reverse (difference_type <$> ds)))
    as [Hin|Hnotin].
  - rewrite bool_decide_eq_true_2; [done|].
    by rewrite elem_of_reverse, elem_of_remove_dups.
  - rewrite bool_decide_eq_false_2; [by rewrite reverse_cons|].
    by rewrite elem_of_reverse, elem_of_remove_dups.
Qed.

Lemma group_by_type_elem ds ty diffs :
  (ty, diffs) ∈ group_by_type ds ↔ diffs = of_type ty ds ∧ diffs ≠ [].
Proof.
  rewrite by_type_elem by apply group_by_type_NoDup.
  rewrite group_by_type_get. destruct (of_type ty ds) as [|d l].
  - split; [done|]. by intros [-> ?].
  - split; [by intros [= <-]|]. by intros [-> _].
Qed.

Lemma group_lengths_append G d :
  sum_list_with (λ group, length group.2) (by_type_append G d)
  = S (sum_list_with (λ group, length group.2) G).
Proof.
  induction G as [|[ty g] G IH]; cbn [by_type_append sum_list_with snd]; [done|].
  case_bool_decide; cbn [sum_list_with snd].
  - rewrite length_app. cbn. lia.
  - rewrite IH. lia.
Qed.

Lemma group_lengths ds :
  sum_list_with (λ group, length group.2) (group_by_type ds) = length ds.
Proof.
  induction ds as [|d ds IH] using rev_ind; [done|].
  rewrite group_by_type_snoc, group_lengths_append, IH, length_app. cbn. lia.
Qed.

Lemma listed_counted_lengths (G : list (DifferenceType * list FileDifference)) :
  (length (flat_map (λ group, take 10 group.2) G)
   + sum_list_with (λ group, length group.2 - 10)%nat G
   = sum_list_with (λ group, length group.2) G)%nat.
Proof.
  induction G as [|[ty g] G IH]; [done|].
  cbn [flat_map sum_list_with snd]. rewrite length_app, length_take. lia.
Qed.

Lemma of_type_flat_take ty (G : list (DifferenceType * list FileDifference)) :
  NoDup G.*1 →
  (∀ ty' g, (ty', g) ∈ G → Forall (λ d, difference_type d = ty') g) →
  of_type ty (flat_map (λ group, take 10 group.2) G)
  = take 10 (default [] (by_type_get ty G)).
Proof.
  induction G as [|[ty' g] G IH]; [done|].
  cbn [fmap list_fmap fst flat_map snd by_type_get].
  change (list_fmap _ _ fst ?l) with (l.*1).
  intros [Hnotin Hnd]%NoDup_cons Hall.
  assert (Forall (λ d, difference_type d = ty') g) as Hg by (apply Hall; by left).
  assert (∀ ty'' g', (ty'', g') ∈ G → Forall (λ d, difference_type d = ty'') g')
    as Hall' by (intros ty'' g' Hin; apply Hall; by right).
  specialize (IH Hnd Hall').
  unfold of_type in *. rewrite filter_app, IH.
  assert (Forall (λ d, difference_type d = ty') (take 10 g)) as Ht
    by (by apply Forall_take).
  destruct (decide (ty' = ty)) as [->|Hne].
  - rewrite bool_decide_eq_true_2 by done.
    apply by_type_get_None in Hnotin. rewrite Hnotin. cbn [default from_option id].
    rewrite take_nil, app_nil_r.
    apply filter_all_keep. intros d Hd. by apply (proj1 (Forall_forall _ _) Ht).
  - rewrite bool_decide_eq_false_2 by done.
    rewrite filter_none; [done|]. intros d Hd Hty. apply Hne. rewrite <- Hty.
    symmetry. by apply (proj1 (Forall_forall _ _) Ht).
Qed.

(** X23.  The detailed report has one group per type of difference, in the
    order in which the types first occur in the result; it lists the
    first ten differences of each type in the order of the result and
    counts the others: every difference is either listed or counted, none
    twice, and the section is empty exactly when there is no difference. *)
Theorem report_lists_ten_per_type ds :
  NoDup (group_by_type ds).*1
  ∧ (group_by_type ds).*1
    = reverse (remove_dups (reverse (difference_type <$> ds)))
  ∧ (∀ ty diffs,
       (ty, diffs) ∈ group_by_type ds ↔ diffs = of_type ty ds ∧ diffs ≠ [])
  ∧ (∀ ty, of_type ty (listed ds) = take 10 (of_type ty ds))
  ∧ (length (listed ds) + counted_only ds = length ds)%nat
  ∧ (∀ d, d ∈ listed ds →
       d ∈ ds ∧ ("  • " +:+ path_str (diff_path d)) ∈ difference_lines ds)
  ∧ (difference_lines ds = [] ↔ ds = []).
Proof.
  split_and!.
  - apply group_by_type_NoDup.
  - apply group_by_type_keys.
  - apply group_by_type_elem.
  - intros ty. unfold listed. rewrite of_type_flat_take.
    + rewrite group_by_type_get. by destruct (of_type ty ds).
    + apply group_by_type_NoDup.
    + intros ty' g [-> _]%group_by_type_elem. unfold of_type.
      apply Forall_forall. by intros d [? _]%list_elem_of_filter.
  - unfold listed, counted_only. by rewrite listed_counted_lengths, group_lengths.
  - intros d Hd. unfold listed in Hd.
    apply list_elem_of_In, in_flat_map in Hd as ([ty g] & Hg%list_elem_of_In & Hin).
    cbn [snd] in Hin. apply list_elem_of_In in Hin.
    pose proof Hg as [-> Hne]%group_by_type_elem.
    split.
    + assert (d ∈ of_type ty ds) as Hi.
      { rewrite <- (take_drop 10 (of_type ty ds)). apply elem_of_app. by left. }
      unfold of_type in Hi. by apply list_elem_of_filter in Hi as [_ ?].
    + unfold difference_lines. destruct ds as [|d0 ds0]; [done|].
      apply elem_of_app. right.
      apply list_elem_of_In, in_flat_map. exists (ty, of_type ty (d0 :: ds0)).
      split; [by apply list_elem_of_In|]. apply list_elem_of_In.
      cbn [group_lines]. apply elem_of_app. right. apply elem_of_app. left.
      apply list_elem_of_In, in_flat_map. exists d.
      split; [by apply list_elem_of_In|]. by left.
  - unfold difference_lines. by destruct ds.
Qed.

End ComparisonReportProofs.

(** * Further properties of the progress tracker *)

Module ProgressExtraProofs.
Import Progress ProgressSpec ProgressExtra ProgressProofs.

(** *** What no call changes *)

Lemma start_fixed now t :
  total_items (start now t) = total_items t
  ∧ update_interval (start now t) = update_interval t
  ∧ _current_item (start now t) = _current_item t
  ∧ t_operation_id (start now t) = t_operation_id t.
Proof. unfold start. by destruct (_start_time t). Qed.

Lemma apply_op_fixed op t :
  total_items (apply_op op t) = total_items t
  ∧ update_interval (apply_op op t) = update_interval t
  ∧ t_operation_id (apply_op op t) = t_operation_id t.
Proof.
  destruct op; cbn [apply_op].
  - destruct (start_fixed now t) as (? & ? & ? & ?). done.
  - unfold update, record_progress. cbn.
    destruct (_start_time t); [done|].
    destruct (start_fixed t_start t) as (? & ? & ? & ?). done.
  - unfold set_current, record_progress. cbn.
    destruct (_start_time t); [done|].
    destruct (start_fixed t_start t) as (? & ? & ? & ?). done.
  - unfold finish. by destruct (_is_finished t).
  - done.
  - done.
Qed.

Lemma run_ops_cons op ops t : run_ops (op :: ops) t = run_ops ops (apply_op op t).
Proof. done. Qed.

Lemma run_ops_fixed ops t :
  total_items (run_ops ops t) = total_items t
  ∧ update_interval (run_ops ops t) = update_interval t
  ∧ t_operation_id (run_ops ops t) = t_operation_id t.
Proof.
  revert t. induction ops as [|op ops IH]; intros t; [done|].
  rewrite run_ops_cons.
  destruct (IH (apply_op op t)) as (-> & -> & ->). apply apply_op_fixed.
Qed.

Lemma run_ops_app ops1 ops2 t :
  run_ops (ops1 ++ ops2) t = run_ops ops2 (run_ops ops1 t).
Proof. unfold run_ops. apply foldl_app. Qed.

(** *** The position *)

Lemma apply_op_position op t :
  _current_item t ≤ total_items t →
  _current_item (apply_op op t) ≤ total_items t
  ∧ (0 ≤ _current_item t → forward op → 0 ≤ _current_item (apply_op op t)).
Proof.
  intros Hle. destruct op; cbn [apply_op forward].
  - destruct (start_fixed now t) as (_ & _ & -> & _). done.
  - unfold update, record_progress. cbn [_current_item].
    assert (∀ t', total_items t' = total_items t → _current_item t' = _current_item t →
              Z.min (_current_item t' + items_processed) (total_items t') ≤ total_items t
              ∧ (0 ≤ _current_item t → 0 ≤ items_processed →
                 0 ≤ Z.min (_current_item t' + items_processed) (total_items t')))
      as Hany by (intros t' -> ->; lia).
    destruct (_start_time t); [by apply Hany|].
    destruct (start_fixed t_start t) as (? & _ & ? & _). by apply Hany.
  - unfold set_current, record_progress. cbn [_current_item].
    assert (∀ t', total_items t' = total_items t →
              Z.min (Z.max 0 current_item) (total_items t') ≤ total_items t
              ∧ (0 ≤ _current_item t → True →
                 0 ≤ Z.min (Z.max 0 current_item) (total_items t')))
      as Hany by (intros t' ->; lia).
    destruct (_start_time t); [by apply Hany|].
    destruct (start_fixed t_start t) as (? & _). by apply Hany.
  - unfold finish. destruct (_is_finished t); cbn [_current_item]; lia.
  - done.
  - done.
Qed.

Lemma run_ops_position ops t :
  _current_item t ≤ total_items t →
  _current_item (run_ops ops t) ≤ total_items t
  ∧ (0 ≤ _current_item t → Forall forward ops → 0 ≤ _current_item (run_ops ops t)).
Proof.
  revert t. induction ops as [|op ops IH]; intros t Hle; [done|].
  rewrite run_ops_cons.
  destruct (apply_op_position op t Hle) as [Hle' Hpos'].
  destruct (apply_op_fixed op t) as (Htot & _).
  destruct (IH (apply_op op t)) as [IH1 IH2]; [lia|].
  rewrite Htot in IH1. split; [done|].
  intros Hpos [Hop Hops]%Forall_cons. apply IH2; [|done]. by apply Hpos'.
Qed.

Lemma percentage_bounds now t :
  _current_item t ≤ total_items t →
  (percentage (get_report now t) <= 100)%Q
  ∧ (0 ≤ _current_item t → (0 <= percentage (get_report now t))%Q).
Proof.
  intros Hle. destruct t as [id tot m ui u cur st lu msg fin subs samples].
  cbn [get_report percentage _current_item total_items] in *.
  destruct (_calculate_throughput _) as [thr thr_unit]. cbn [percentage].
  destruct (0 <? tot) eqn:Htot; [|split; [done|by intros _]].
  apply Z.ltb_lt in Htot. destruct tot as [|p|p]; try lia.
  unfold Qle, Qdiv, Qmult, Qinv, inject_Z. cbn. split; [lia|]. intros ?. lia.
Qed.

(** X24.  The position never exceeds the total, whatever is called with
    whatever arguments, and the total itself is never changed; when no
    call of [update] has a negative increment the position does not fall
    below 0 either, so that the reported percentage lies between 0 and
    100 and the remaining items are the difference to the total. *)
Theorem position_stays_within_total ops now t :
  _current_item t ≤ total_items t →
  let r := get_report now (run_ops ops t) in
  total r = total_items t
  ∧ current r ≤ total r
  ∧ (percentage r <= 100)%Q
  ∧ remaining_items r = total r - current r
  ∧ (0 ≤ _current_item t → Forall forward ops →
     0 ≤ current r ∧ (0 <= percentage r)%Q).
Proof.
  intros Hle. cbn zeta.
  destruct (get_report_rates now (run_ops ops t)) as (_ & _ & Hc & Ht).
  destruct (run_ops_fixed ops t) as (Htot & _).
  destruct (run_ops_position ops t Hle) as [Hle' Hpos'].
  assert (_current_item (run_ops ops t) ≤ total_items (run_ops ops t)) as Hle''
    by (rewrite Htot; lia).
  destruct (percentage_bounds now (run_ops ops t) Hle'') as [Hp100 Hp0].
  unfold remaining_items. rewrite Hc, Ht, Htot.
  split_and!; [done|done|done|lia|].
  intros Hpos Hfwd. split; [by apply Hpos'|]. apply Hp0. by apply Hpos'.
Qed.

Lemma position_stays_within_total_witness :
  let r := get_report 9
             (run_ops [OpUpdate 0 1 70 ""; OpUpdate 1 2 70 ""; OpSetCurrent 2 3 (-4) ""]
                (new_tracker "restore" 100 SILENT (1 # 10) ITEMS)) in
  current r ≤ total r ∧ 0 ≤ current r.
Proof.
  cbn zeta.
  pose proof (position_stays_within_total
                [OpUpdate 0 1 70 ""; OpUpdate 1 2 70 ""; OpSetCurrent 2 3 (-4) ""]
                9 (new_tracker "restore" 100 SILENT (1 # 10) ITEMS))
    as H.
  destruct H as (_ & Hle & _ & _ & Hpos).
  - vm_compute. discriminate.
  - split; [exact Hle|]. apply Hpos.
    + vm_compute. discriminate.
    + repeat constructor; vm_compute; discriminate.
Defined.

(** *** The clock *)

Lemma apply_op_start_time op t :
  _start_time (apply_op op t)
  = match _start_time t with
    | Some s => Some s
    | None => clock_of_start op
    end.
Proof.
  destruct op; cbn [apply_op clock_of_start].
  - unfold start. destruct (_start_time t) eqn:Hs; cbn [_start_time]; by rewrite ?Hs.
  - unfold update, record_progress, start. cbn [_start_time].
    destruct (_start_time t) eqn:Hs; cbn [_start_time]; by rewrite ?Hs.
  - unfold set_current, record_progress, start. cbn [_start_time].
    destruct (_start_time t) eqn:Hs; cbn [_start_time]; by rewrite ?Hs.
  - unfold finish. destruct (_is_finished t); cbn; by destruct (_start_time t).
  - cbn. by destruct (_start_time t).
  - cbn. by destruct (_start_time t).
Qed.

Lemma apply_op_start_time_start now t :
  _start_time (start now t)
  = match _start_time t with
    | Some s => Some s
    | None => Some now
    end.
Proof. apply (apply_op_start_time (OpStart now)). Qed.

Lemma run_ops_start_time ops t :
  _start_time (run_ops ops t)
  = match _start_time t with
    | Some s => Some s
    | None => head (omap clock_of_start ops)
    end.
Proof.
  revert t. induction ops as [|op ops IH]; intros t.
  { cbn. by destruct (_start_time t). }
  rewrite run_ops_cons, IH, apply_op_start_time. cbn [omap list_omap].
  destruct (_start_time t); [done|]. by destruct (clock_of_start op).
Qed.

Lemma get_report_elapsed now t :
  elapsed_time (get_report now t)
  = match _start_time t with
    | Some s => (now - s)%Q
    | None => 0%Q
    end.
Proof. destruct t. cbn [get_report]. by destruct (_calculate_throughput _). Qed.

(** X25.  The start time is set once, by the first call of [start], [update] or
    [set_current], to the clock value that call reads, and no later call
    changes it: the elapsed time of every report is measured from there,
    and it is 0 as long as none of the three was called. *)
Theorem clock_starts_once ops now t :
  let t' := run_ops ops t in
  (∀ s, _start_time t = Some s →
     _start_time t' = Some s ∧ elapsed_time (get_report now t') = (now - s)%Q)
  ∧ (_start_time t = None →
     _start_time t' = head (omap clock_of_start ops)
     ∧ (omap clock_of_start ops = [] →
        elapsed_time (get_report now t') = 0%Q
        ∧ _throughput_samples t' = _throughput_samples t))
  ∧ (∀ now1 now2, start now2 (start now1 t) = start now1 t).
Proof.
  cbn zeta. split_and!.
  - intros s Hs. rewrite get_report_elapsed, run_ops_start_time, Hs. done.
  - intros Hnone. rewrite get_report_elapsed, run_ops_start_time, Hnone.
    split; [done|]. intros Hno. rewrite Hno. split; [done|].
    clear Hnone. revert t. induction ops as [|op ops IH]; intros t; [done|].
    rewrite run_ops_cons. cbn [omap list_omap] in Hno.
    destruct op; try done; cbn [clock_of_start] in Hno; rewrite IH by done;
      cbn [apply_op]; [unfold finish; by destruct (_is_finished t)|done..].
  - intros now1 now2. unfold start. destruct (_start_time t) eqn:Hs; cbn.
    + by rewrite Hs.
    + done.
Qed.

(** *** Notifications *)

Lemma apply_op_last_update op t s :
  _start_time t = Some s →
  let d := update_interval t in
  let prev := _last_update_time t in
  (op_notices op t = [] ∧ _last_update_time (apply_op op t) = prev)
  ∨ (∃ now, op_notices op t = [now] ∧ _last_update_time (apply_op op t) = now
            ∧ (d <= now - prev)%Q).
Proof.
  intros Hs. cbn zeta.
  destruct op; cbn [apply_op op_notices]; unfold progress_notices, start_notices;
    rewrite ?Hs; cbn [app].
  - left. unfold start. by rewrite Hs.
  - unfold update, record_progress. rewrite Hs. cbn [_last_update_time].
    destruct (Qle_bool _ _) eqn:Hq; [right|by left].
    exists now. by apply Qle_bool_iff in Hq.
  - unfold set_current, record_progress. rewrite Hs. cbn [_last_update_time].
    destruct (Qle_bool _ _) eqn:Hq; [right|by left].
    exists now. by apply Qle_bool_iff in Hq.
  - left. unfold finish. by destruct (_is_finished t).
  - by left.
  - by left.
Qed.

Lemma run_notices_started ops : ∀ t s,
  _start_time t = Some s →
  spaced_from (update_interval t) (_last_update_time t) (run_notices ops t).
Proof.
  induction ops as [|op ops IH]; intros t s Hs; [done|].
  cbn [run_notices].
  assert (_start_time (apply_op op t) = Some s) as Hs'
    by (by rewrite apply_op_start_time, Hs).
  specialize (IH (apply_op op t) s Hs').
  destruct (apply_op_fixed op t) as (_ & Hd & _). rewrite Hd in IH.
  destruct (apply_op_last_update op t s Hs)
    as [[-> Hlast]|(now & -> & Hlast & Hgap)]; rewrite Hlast in IH; cbn [app].
  - done.
  - by split.
Qed.

Lemma progress_unstarted_facts op t t_start now :
  _start_time t = None →
  (∃ n msg, op = OpUpdate t_start now n msg)
  ∨ (∃ n msg, op = OpSetCurrent t_start now n msg) →
  _start_time (apply_op op t) = Some t_start
  ∧ _last_update_time (apply_op op t)
    = (if Qle_bool (update_interval t) (now - t_start) then now else t_start)
  ∧ op_notices op t
    = t_start :: (if Qle_bool (update_interval t) (now - t_start) then [now] else []).
Proof.
  intros Hs [(n & msg & ->)|(n & msg & ->)]; cbn [apply_op op_notices];
    unfold update, set_current, record_progress, progress_notices, start_notices;
    rewrite Hs; unfold start; rewrite Hs; done.
Qed.

Lemma run_notices_progress_unstarted ops op t t_start now :
  _start_time t = None →
  (∃ n msg, op = OpUpdate t_start now n msg)
  ∨ (∃ n msg, op = OpSetCurrent t_start now n msg) →
  spaced (update_interval t) (op_notices op t ++ run_notices ops (apply_op op t)).
Proof.
  intros Hs Hop.
  destruct (progress_unstarted_facts op t t_start now Hs Hop) as (Hs1 & Hl1 & ->).
  destruct (apply_op_fixed op t) as (_ & Hd & _).
  pose proof (run_notices_started ops (apply_op op t) t_start Hs1) as Hrest.
  rewrite Hd, Hl1 in Hrest.
  destruct (Qle_bool (update_interval t) (now - t_start)) eqn:Hq; cbn [app spaced].
  - split; [by apply Qle_bool_iff|]. exact Hrest.
  - exact Hrest.
Qed.

Lemma run_notices_unstarted ops : ∀ t,
  _start_time t = None → spaced (update_interval t) (run_notices ops t).
Proof.
  induction ops as [|op ops IH]; intros t Hs; [done|].
  cbn [run_notices].
  destruct (apply_op_fixed op t) as (_ & Hd & _).
  destruct op as [now|t_start now n msg|t_start now n msg|msg|sid n m i u|sid op'].
  - cbn [op_notices]. unfold start_notices. rewrite Hs. cbn [app spaced].
    set (t1 := apply_op (OpStart now) t) in *.
    assert (_start_time t1 = Some now ∧ _last_update_time t1 = now) as [Hs1 Hl1]
      by (subst t1; cbn [apply_op]; unfold start; by rewrite Hs).
    pose proof (run_notices_started ops t1 now Hs1) as Hrest.
    by rewrite Hd, Hl1 in Hrest.
  - apply (run_notices_progress_unstarted ops _ t t_start now Hs). left. eauto.
  - apply (run_notices_progress_unstarted ops _ t t_start now Hs). right. eauto.
  - cbn [op_notices app]. rewrite <- Hd. apply IH. by rewrite apply_op_start_time, Hs.
  - cbn [op_notices app]. rewrite <- Hd. apply IH. by rewrite apply_op_start_time, Hs.
  - cbn [op_notices app]. rewrite <- Hd. apply IH. by rewrite apply_op_start_time, Hs.
Qed.

Lemma spaced_from_lookup d prev l :
  spaced_from d prev l →
  ∀ i a b, (prev :: l) !! i = Some a → (prev :: l) !! S i = Some b → (d <= b - a)%Q.
Proof.
  revert prev. induction l as [|x l IH]; intros prev Hsp i a b Ha Hb.
  { destruct i; cbn in Hb; done. }
  destruct Hsp as [Hgap Hsp]. destruct i as [|i].
  - cbn in Ha, Hb. by injection Ha as <-; injection Hb as <-.
  - apply (IH x Hsp i a b); done.
Qed.

(** X26.  The notifications that [start], [update] and [set_current] issue for
    their own tracker are rate limited: in every sequence of calls on a
    tracker, two consecutive ones are at least [update_interval] apart by
    the clock values the calls read. *)
Theorem notifications_rate_limited ops t :
  _start_time t = None →
  ∀ i a b,
    run_notices ops t !! i = Some a → run_notices ops t !! S i = Some b →
    (update_interval t <= b - a)%Q.
Proof.
  intros Hs i a b Ha Hb.
  pose proof (run_notices_unstarted ops t Hs) as Hsp.
  destruct (run_notices ops t) as [|x l]; [done|].
  exact (spaced_from_lookup _ _ _ Hsp i a b Ha Hb).
Qed.


Lemma notifications_rate_limited_witness :
  let t := new_tracker "restore" 100 SILENT (1 # 2) ITEMS in
  let ops := [OpUpdate 0 (1 # 4) 1 ""; OpUpdate 0 1 1 ""; OpUpdate 0 2 1 ""] in
  run_notices ops t = [0%Q; 1%Q; 2%Q] ∧ (update_interval t <= 1 - 0)%Q.
Proof.
  cbn zeta. split; [reflexivity|].
  exact (notifications_rate_limited
           [OpUpdate 0 (1 # 4) 1 ""; OpUpdate 0 1 1 ""; OpUpdate 0 2 1 ""]
           (new_tracker "restore" 100 SILENT (1 # 2) ITEMS)
           eq_refl 0%nat 0%Q 1%Q eq_refl eq_refl).
Defined.

(** *** The estimated time *)

Lemma Qle_bool_false_lt (x y : Q) : Qle_bool x y = false → (y < x)%Q.
Proof.
  intros Hf. apply Qnot_le_lt. intros Hle%Qle_bool_iff. congruence.
Qed.

(** X27.  When a report gives an estimated time to completion, it also gives a
    throughput; that throughput is positive, the estimate is the remaining
    items divided by it, and it is not negative as long as the position
    does not exceed the total; it is 0 at the total. *)
Theorem eta_never_negative now t e :
  eta (get_report now t) = Some e →
  ∃ rate,
    throughput (get_report now t) = Some rate
    ∧ (0 < rate)%Q
    ∧ e = (inject_Z (total_items t - _current_item t) / rate)%Q
    ∧ (_current_item t ≤ total_items t → (0 <= e)%Q)
    ∧ (_current_item t = total_items t → (e == 0)%Q)
    ∧ _current_item t ≠ 0.
Proof.
  destruct (get_report_rates now t) as (-> & -> & _ & _).
  unfold _calculate_eta, _calculate_throughput.
  destruct (length (_throughput_samples t) <? 2)%nat; [done|].
  destruct (_current_item t =? 0) eqn:Hcur; [done|]. cbn [orb].
  apply Z.eqb_neq in Hcur.
  destruct (length (last_n 3 (_throughput_samples t)) <? 2)%nat; [done|].
  destruct (head (last_n 3 (_throughput_samples t))) as [first|]; [|done].
  destruct (last (last_n 3 (_throughput_samples t))) as [newest|]; [|done].
  destruct (Qle_bool (newest.1 - first.1) 0) eqn:Htd; [done|]. cbn [orb].
  destruct (newest.2 - first.2 <=? 0) eqn:Hd; [done|].
  destruct (Qle_bool (inject_Z (newest.2 - first.2) / (newest.1 - first.1)) 0)
    eqn:Hrate; [done|].
  cbn [negb fst]. intros [= <-].
  apply Qle_bool_false_lt in Hrate.
  eexists. split; [done|]. split; [done|]. split; [done|]. split_and!.
  - intros Hle. apply Qle_shift_div_l; [done|].
    rewrite Qmult_0_l. unfold Qle. cbn. lia.
  - intros ->. rewrite Z.sub_diag. unfold Qdiv. by rewrite Qmult_0_l.
  - done.
Qed.

Lemma eta_never_negative_witness :
  ∃ e, eta (get_report 3 sample_run) = Some e ∧ (0 <= e)%Q.
Proof.
  destruct (eta (get_report 3 sample_run)) as [e|] eqn:He;
    [|vm_compute in He; discriminate He].
  exists e. split; [reflexivity|].
  destruct (eta_never_negative 3 sample_run e He) as (rate & _ & _ & _ & Hpos & _).
  apply Hpos. vm_compute. discriminate.
Defined.

(** *** Completion *)

Lemma get_report_message now t : custom_message (get_report now t) = _custom_message t.
Proof. destruct t. cbn [get_report]. by destruct (_calculate_throughput _). Qed.

Lemma get_report_percentage now t :
  percentage (get_report now t)
  = if 0 <? total_items t
    then (inject_Z (_current_item t) / inject_Z (total_items t) * 100)%Q
    else 0%Q.
Proof. destruct t. cbn [get_report]. by destruct (_calculate_throughput _). Qed.

Lemma percentage_100 (a b : Z) :
  0 < b → (100 <= inject_Z a / inject_Z b * 100)%Q ↔ b ≤ a.
Proof.
  intros Hb. destruct b as [|p|p]; try lia.
  unfold Qle, Qdiv, Qmult, Qinv, inject_Z. cbn. lia.
Qed.

(** X28.  A report is complete exactly when no items remain; for a positive
    total this is when the percentage has reached 100, while an operation
    with no items is complete from the beginning and stays at 0 percent,
    also after [finish].  The first [finish] makes the report complete and
    stores its message. *)
Theorem completion_and_percentage now t :
  let r := get_report now t in
  (is_complete r = true ↔ remaining_items r = 0)
  ∧ (0 < total_items t → (is_complete r = true ↔ (100 <= percentage r)%Q))
  ∧ (total_items t ≤ 0 → percentage r = 0%Q)
  ∧ (total_items t = 0 → _current_item t = 0 → is_complete r = true)
  ∧ (∀ msg, _is_finished t = false →
       let r' := get_report now (finish msg t) in
       is_complete r' = true ∧ remaining_items r' = 0
       ∧ custom_message r' = msg
       ∧ percentage r' = (if 0 <? total_items t
                          then inject_Z (total_items t) / inject_Z (total_items t) * 100
                          else 0)%Q).
Proof.
  cbn zeta. destruct (get_report_rates now t) as (_ & _ & Hc & Ht).
  unfold is_complete, remaining_items. rewrite Hc, Ht, get_report_percentage.
  split_and!.
  - rewrite Z.leb_le. lia.
  - intros Hpos. rewrite (proj2 (Z.ltb_lt _ _) Hpos), Z.leb_le.
    by rewrite percentage_100.
  - intros Hle. by rewrite (proj2 (Z.ltb_ge _ _) Hle).
  - intros -> ->. done.
  - intros msg Hfin.
    destruct (get_report_rates now (finish msg t)) as (_ & _ & -> & ->).
    rewrite get_report_message, get_report_percentage.
    unfold finish. rewrite Hfin. cbn [total_items _current_item _custom_message].
    split_and!; [apply Z.leb_refl|lia|done|done].
Qed.

(** *** The context managers *)

Lemma run_ops_finished ops t :
  _is_finished (run_ops ops t) = true
  ↔ _is_finished t = true ∨ Exists is_finish ops.
Proof.
  revert t. induction ops as [|op ops IH]; intros t.
  { cbn. rewrite Exists_nil. intuition. }
  rewrite run_ops_cons, IH, Exists_cons.
  assert (_is_finished (apply_op op t) = true ↔ _is_finished t = true ∨ is_finish op)
    as ->; [|intuition].
  destruct op; cbn [apply_op is_finish].
  - rewrite start_is_finished. intuition.
  - unfold update, record_progress. cbn [_is_finished].
    destruct (_start_time t); rewrite ?start_is_finished; intuition.
  - unfold set_current, record_progress. cbn [_is_finished].
    destruct (_start_time t); rewrite ?start_is_finished; intuition.
  - unfold finish. destruct (_is_finished t) eqn:Hf; cbn [_is_finished];
      rewrite ?Hf; intuition.
  - cbn. intuition.
  - cbn. intuition.
Qed.

(** X29.  [operation_context] leaves the tracker started and finished however
    the block ends, and passes on the exception of the block.  When the
    block did not finish the tracker itself, the position is moved to the
    total and the message is [Complete]; otherwise the tracker is left as
    the block left it.  [progress_context] does the same on a new tracker,
    and [track_operation] returns a tracker that is running. *)
Theorem operation_context_always_finishes now ops outcome t :
  let result := operation_context now (block ops outcome) t in
  result.2 = outcome
  ∧ _is_finished result.1 = true
  ∧ _start_time result.1 ≠ None
  ∧ total_items result.1 = total_items t
  ∧ (_is_finished t = false → ¬ Exists is_finish ops →
     _current_item result.1 = total_items t
     ∧ _custom_message result.1 = "Complete"
     ∧ is_complete (get_report now result.1) = true)
  ∧ (_is_finished t = true ∨ Exists is_finish ops →
     result.1 = run_ops ops (start now t))
  ∧ (∀ id n m i u,
       progress_context now id n m i u (block ops outcome)
       = operation_context now (block ops outcome) (new_tracker id n m i u)
       ∧ phase (track_operation now id n m i u) = Running).
Proof.
  cbn zeta. unfold operation_context, block. cbn [fst snd].
  set (t1 := run_ops ops (start now t)).
  assert (total_items t1 = total_items t) as Htot.
  { subst t1. destruct (run_ops_fixed ops (start now t)) as (-> & _).
    by destruct (start_fixed now t) as (-> & _). }
  assert (_start_time t1 ≠ None) as Hstarted.
  { subst t1. rewrite run_ops_start_time, apply_op_start_time_start.
    by destruct (_start_time t). }
  assert (_is_finished t1 = true ↔ _is_finished t = true ∨ Exists is_finish ops)
    as Hfin.
  { subst t1. by rewrite run_ops_finished, start_is_finished. }
  destruct (_is_finished t1) eqn:Hf1; cbn [negb].
  - split_and!; try done.
    + intros Hnot Hno. exfalso. destruct (proj1 Hfin eq_refl); [congruence|done].
  - split_and!; try done.
    + unfold finish. by rewrite Hf1.
    + unfold finish. rewrite Hf1. done.
    + unfold finish. by rewrite Hf1.
    + intros _ _. unfold finish. rewrite Hf1. cbn [_current_item _custom_message].
      split_and!; try done. unfold is_complete.
      destruct (get_report_rates now
                  (mkTracker (t_operation_id t1) (total_items t1) (mode t1)
                     (update_interval t1) (unit_ t1) (total_items t1)
                     (_start_time t1) (_last_update_time t1) "Complete" true
                     (_sub_trackers t1) (_throughput_samples t1)))
        as (_ & _ & -> & ->).
      apply Z.leb_refl.
    + intros Hyes. apply Hfin in Hyes. congruence.
Qed.

(** *** Sub-operations *)

Lemma dict_get_set {V} (k k' : string) (v : V) d :
  dict_get k' (dict_set k v d) = if bool_decide (k' = k) then Some v else dict_get k' d.
Proof.
  induction d as [|[k0 v0] d IH]; cbn [dict_set dict_get].
  - destruct (decide (k' = k)) as [->|Hne].
    + by rewrite !bool_decide_eq_true_2.
    + by rewrite !bool_decide_eq_false_2 by congruence.
  - destruct (decide (k0 = k)) as [->|Hne0].
    + rewrite (bool_decide_eq_true_2 (k = k)) by done. cbn [dict_get].
      destruct (decide (k' = k)) as [->|Hne].
      * by rewrite !bool_decide_eq_true_2.
      * by rewrite !bool_decide_eq_false_2 by congruence.
    + rewrite (bool_decide_eq_false_2 (k0 = k)) by done. cbn [dict_get]. rewrite IH.
      destruct (decide (k0 = k')) as [->|Hne1].
      * rewrite (bool_decide_eq_true_2 (k' = k')) by done.
        by rewrite bool_decide_eq_false_2.
      * by rewrite (bool_decide_eq_false_2 (k0 = k')).
Qed.

Lemma dict_get_reports now k (subs : list (string * ProgressTracker)) :
  dict_get k (map (λ '(sub_id, sub_tracker), (sub_id, get_report now sub_tracker)) subs)
  = get_report now <$> dict_get k subs.
Proof.
  induction subs as [|[k0 v0] subs IH]; [done|]. cbn [map dict_get].
  by destruct (bool_decide (k0 = k)).
Qed.

Lemma dict_get_on_sub k sub_id (f : ProgressTracker → ProgressTracker) subs :
  dict_get k (map (λ kv : string * ProgressTracker,
                     if bool_decide (kv.1 = sub_id) then (kv.1, f kv.2) else kv) subs)
  = if bool_decide (k = sub_id) then f <$> dict_get k subs else dict_get k subs.
Proof.
  induction subs as [|[k0 v0] subs IH]; cbn [map dict_get fst snd].
  - by destruct (bool_decide (k = sub_id)).
  - destruct (decide (k0 = sub_id)) as [->|Hne0].
    + rewrite (bool_decide_eq_true_2 (sub_id = sub_id)) by done. cbn [dict_get].
      rewrite IH. destruct (decide (sub_id = k)) as [<-|Hne].
      * by rewrite !bool_decide_eq_true_2.
      * rewrite (bool_decide_eq_false_2 (sub_id = k)) by done.
        by rewrite (bool_decide_eq_false_2 (k = sub_id)) by congruence.
    + rewrite (bool_decide_eq_false_2 (k0 = sub_id)) by done. cbn [dict_get].
      rewrite IH. destruct (decide (k0 = k)) as [->|Hne1].
      * rewrite (bool_decide_eq_true_2 (k = k)) by done.
        by rewrite bool_decide_eq_false_2.
      * by rewrite (bool_decide_eq_false_2 (k0 = k)).
Qed.

Lemma get_report_subs now t :
  sub_operations (get_report now t)
  = map (λ '(sub_id, sub_tracker), (sub_id, get_report now sub_tracker))
        (_sub_trackers t).
Proof. destruct t. cbn [get_report]. by destruct (_calculate_throughput _). Qed.

Lemma own_report_subs now id tot m ui u cur st lu msg fin subs1 subs2 samples :
  own_report (get_report now (mkTracker id tot m ui u cur st lu msg fin subs1 samples))
  = own_report (get_report now (mkTracker id tot m ui u cur st lu msg fin subs2 samples)).
Proof.
  cbn [get_report].
  change (_calculate_throughput
            (mkTracker id tot m ui u cur st lu msg fin subs1 samples))
    with (_calculate_throughput
            (mkTracker id tot m ui u cur st lu msg fin subs2 samples)).
  change (_calculate_eta (mkTracker id tot m ui u cur st lu msg fin subs1 samples))
    with (_calculate_eta (mkTracker id tot m ui u cur st lu msg fin subs2 samples)).
  by destruct (_calculate_throughput _).
Qed.

(** X30.  The progress of sub-operations is reported beside the parent's and
    never added to it: adding a sub-operation and every call on one leave
    the parent's own position, percentage, times, rates, message and
    finished flag as they were.  A sub-operation starts as a new tracker
    named [parent.sub], silent unless a mode is given, and adding one
    under an identifier already in use replaces the old tracker and its
    progress; a call on a sub-operation changes the report of that
    sub-operation only. *)
Theorem sub_operations_reported_separately now t :
  (∀ sub_id n m i u,
     let t' := add_sub_operation sub_id n m i u t in
     let sub := new_tracker (t_operation_id t +:+ "." +:+ sub_id) n
                  (default SILENT m) i u in
     own_report (get_report now t') = own_report (get_report now t)
     ∧ _is_finished t' = _is_finished t
     ∧ dict_get sub_id (_sub_trackers t') = Some sub
     ∧ dict_get sub_id (sub_operations (get_report now t'))
       = Some (get_report now sub)
     ∧ operation_id (get_report now sub) = t_operation_id t +:+ "." +:+ sub_id
     ∧ current (get_report now sub) = 0
     ∧ total (get_report now sub) = n
     ∧ (percentage (get_report now sub) == 0)%Q
     ∧ elapsed_time (get_report now sub) = 0%Q
     ∧ eta (get_report now sub) = None
     ∧ throughput (get_report now sub) = None
     ∧ (∀ other, other ≠ sub_id →
          dict_get other (sub_operations (get_report now t'))
          = dict_get other (sub_operations (get_report now t))))
  ∧ (∀ sub_id op,
       let t' := apply_op (OpOnSub sub_id op) t in
       own_report (get_report now t') = own_report (get_report now t)
       ∧ _is_finished t' = _is_finished t
       ∧ dict_get sub_id (sub_operations (get_report now t'))
         = (λ sub, get_report now (apply_op op sub))
             <$> dict_get sub_id (_sub_trackers t)
       ∧ (∀ other, other ≠ sub_id →
            dict_get other (sub_operations (get_report now t'))
            = dict_get other (sub_operations (get_report now t)))).
Proof.
  split.
  - intros sub_id n m i u. cbn zeta. split_and!.
    + destruct t. apply own_report_subs.
    + done.
    + unfold add_sub_operation. cbn [_sub_trackers]. rewrite dict_get_set.
      by rewrite bool_decide_eq_true_2.
    + rewrite get_report_subs, dict_get_reports.
      unfold add_sub_operation. cbn [_sub_trackers]. rewrite dict_get_set.
      by rewrite bool_decide_eq_true_2.
    + done.
    + done.
    + done.
    + unfold new_tracker. cbn. destruct (0 <? n); [|done].
      unfold Qdiv. by rewrite !Qmult_0_l.
    + done.
    + done.
    + done.
    + intros other Hne. rewrite !get_report_subs, !dict_get_reports.
      unfold add_sub_operation. cbn [_sub_trackers]. rewrite dict_get_set.
      by rewrite bool_decide_eq_false_2.
  - intros sub_id op. cbn zeta. cbn [apply_op]. split_and!.
    + destruct t. apply own_report_subs.
    + done.
    + rewrite get_report_subs, dict_get_reports.
      unfold on_sub. cbn [_sub_trackers]. rewrite dict_get_on_sub.
      rewrite bool_decide_eq_true_2 by done.
      by destruct (dict_get sub_id (_sub_trackers t)).
    + intros other Hne. rewrite !get_report_subs, !dict_get_reports.
      unfold on_sub. cbn [_sub_trackers]. rewrite dict_get_on_sub.
      by rewrite bool_decide_eq_false_2.
Qed.

(** *** Printing byte counts *)

Lemma scale_bytes_spec units : ∀ b,
  ∃ k : nat,
    (k ≤ length units)%nat
    ∧ (scale_bytes units b).2 = nth k units "PB"
    ∧ ((scale_bytes units b).1 * inject_Z (1024 ^ Z.of_nat k) == b)%Q
    ∧ ((k < length units)%nat → ((scale_bytes units b).1 < 1024)%Q)
    ∧ ((0 < k)%nat → (1 <= (scale_bytes units b).1)%Q)
    ∧ ((b < 1024)%Q → units ≠ [] → k = 0%nat).
Proof.
  induction units as [|unit rest IH]; intros b.
  { exists 0%nat. cbn. split_and!; try done; try lia. by rewrite Qmult_1_r. }
  cbn [scale_bytes]. destruct (Qle_bool 1024 b) eqn:Hb; cbn [negb].
  - apply Qle_bool_iff in Hb.
    destruct (IH (b / 1024)%Q) as (k & Hk & Hu & Hx & Hlt & Hge & _).
    exists (S k). split_and!.
    + cbn. lia.
    + done.
    + rewrite Nat2Z.inj_succ, Z.pow_succ_r by lia.
      rewrite inject_Z_mult, (Qmult_comm (inject_Z 1024)), Qmult_assoc, Hx.
      change (inject_Z 1024) with 1024%Q. field.
    + intros Hlt'. apply Hlt. cbn in Hlt'. lia.
    + intros _. destruct k as [|k'].
      * cbn in Hx. rewrite Qmult_1_r in Hx. rewrite Hx.
        apply Qle_shift_div_l; [done|]. by rewrite Qmult_1_l.
      * apply Hge. lia.
    + intros Hsmall _. exfalso. by apply (Qlt_not_le _ _ Hsmall).
  - apply Qle_bool_false_lt in Hb. exists 0%nat. cbn. split_and!; try done; try lia.
    by rewrite Qmult_1_r.
Qed.

(** [_format_bytes] prints a byte count as a number and one of the units
    B, KB, MB, GB, TB, PB such that the number times the unit is the byte
    count; the number is below 1024 unless the unit is PB and at least 1
    unless the unit is B; every count below 1024, negative ones included,
    is printed in B. *)
Lemma format_bytes_picks_unit fmt_1f b :
  ∃ (k : nat) x,
    (k ≤ 5)%nat
    ∧ _format_bytes fmt_1f b
      = fmt_1f x +:+ nth k ["B"; "KB"; "MB"; "GB"; "TB"; "PB"] "PB"
    ∧ (x * inject_Z (1024 ^ Z.of_nat k) == b)%Q
    ∧ ((k < 5)%nat → (x < 1024)%Q)
    ∧ ((0 < k)%nat → (1 <= x)%Q)
    ∧ ((b < 1024)%Q → k = 0%nat ∧ x = b).
Proof.
  destruct (scale_bytes_spec byte_units b) as (k & Hk & Hu & Hx & Hlt & Hge & H0).
  unfold _format_bytes. destruct (scale_bytes byte_units b) as [x unit] eqn:Hs.
  cbn [fst snd] in *. exists k, x. split_and!; try done.
  - rewrite Hu. f_equal. cbn in Hk.
    by do 6 (destruct k as [|k]; [done|]); lia.
  - intros Hsmall. split; [by apply H0|].
    unfold byte_units in Hs. cbn [scale_bytes] in Hs.
    assert (Qle_bool 1024 b = false) as Hf.
    { apply not_true_is_false. intros Hle%Qle_bool_iff.
      by apply (Qlt_not_le _ _ Hsmall). }
    rewrite Hf in Hs. cbn [negb] in Hs. by injection Hs as <- _.
Qed.

End ProgressExtraProofs.
